(** * atmn-cli-max: the customer browser, its batch actions and credit system

    A shallow embedding of
    - [src/unnamed/part_001] (the credit system): [getCustomerCredits]
      (lines 163-186) and [getCreditBalance] (lines 195-198);
    - [src/src/external-actions.tsx]: the [useExternalActions] hook (lines
      45-190) with [executeSelectedAction] and [executeBatchAction] (lines
      109-140);
    - [src/src/json-renderer.tsx]: [FullScreenDetails] (lines 218-259) and
      the [CustomerTable] component (lines 909-1596): the filter/sort
      pipeline [sortedCustomers] (951-978), [handleOptionSelect] (1003-1013),
      [handleBatchAction] with its [batchStatusCallback] (1015-1078) and the
      [useInput] key router (1080-1238);
    - further places of [src/src/json-renderer.tsx]: the grouping of
      [DetailedJsonRenderer] (143-179); [ConfigBuilder] and the
      configuration objects of the module (367-449); [CustomTable] and
      [CustomTableWithHighlight] with their [formatCell] (682-817); the
      paging, the effects, [tableData] and [columns] of [CustomerTable]
      (980-1001, 1241-1271); [BillingAnalysisApp] (1717-2080): its
      [useInput], the price lookup, the fetch loop and the plan analysis of
      [fetchData], and the mounting of the table.

    Conventions of the embedding.
    - A JavaScript string is the [string] of its UTF-8 bytes; the texts the
      code searches for are ASCII, so matching on bytes and on UTF-16 code
      units agree.
    - JavaScript numbers are exact rationals extended with [+Infinity],
      [-Infinity] and [NaN]; rounding and the sign of zero are not modelled.
      Counters and lengths are [nat]s, turned into numbers where the code
      computes with them.
    - A [Set<string>] is a [gset string]; a [Map<string, _>] is a
      [gmap string _] (insertion order only matters for rendering).  [Map]
      objects live in a heap, since [prev.set(..)] mutates the object it is
      called on before [new Map(..)] copies it.
    - React state is a record of the [useState] cells; an event handler
      sees the state of the last render; an [async] function keeps the
      values it closed over across its [await]s; what happens after an
      [await] is a transition of its own. *)

From Stdlib Require Import QArith Qround Lqa Sorted.
From stdpp Require Import gmap strings list fin_maps.
From Stdlib Require Import String Ascii.

Local Open Scope string_scope.
Local Open Scope list_scope.

(** ** Strings: [startsWith], [includes], [trim] *)

Module JsString.

(** [s.startsWith(p)] *)
Fixpoint startsWith (s p : string) {struct p} : bool :=
  match p with
  | EmptyString => true
  | String c p' =>
      match s with
      | EmptyString => false
      | String d s' => if Ascii.eqb c d then startsWith s' p' else false
      end
  end.

(** [s.includes(p)]: [p] starts at some offset of [s]. *)
Fixpoint includes (s p : string) : bool :=
  startsWith s p ||
  match s with
  | EmptyString => false
  | String _ s' => includes s' p
  end.

(** What [trim] removes: the white space and the line terminators of
    ECMAScript.  In one byte: tab, line feed, vertical tab, form feed,
    carriage return, space. *)
Definition is_space (c : ascii) : bool :=
  match nat_of_ascii c with
  | 9%nat | 10%nat | 11%nat | 12%nat | 13%nat | 32%nat => true
  | _ => false
  end.

(** In two bytes: U+00A0 (C2 A0). *)
Definition is_space2 (c1 c2 : ascii) : bool :=
  match nat_of_ascii c1, nat_of_ascii c2 with
  | 194%nat, 160%nat => true
  | _, _ => false
  end.

(** In three bytes: U+1680 (E1 9A 80), U+2000 .. U+200A (E2 80 80 .. 8A),
    U+2028, U+2029 and U+202F (E2 80 A8, A9, AF), U+205F (E2 81 9F), U+3000
    (E3 80 80) and U+FEFF (EF BB BF). *)
Definition is_space3 (c1 c2 c3 : ascii) : bool :=
  match nat_of_ascii c1, nat_of_ascii c2, nat_of_ascii c3 with
  | 225%nat, 154%nat, 128%nat => true
  | 226%nat, 128%nat, n =>
      (128 <=? n)%nat && (n <=? 138)%nat
      || (n =? 168)%nat || (n =? 169)%nat || (n =? 175)%nat
  | 226%nat, 129%nat, 159%nat => true
  | 227%nat, 128%nat, 128%nat => true
  | 239%nat, 187%nat, 191%nat => true
  | _, _, _ => false
  end.

Fixpoint trim_start (s : string) : string :=
  match s with
  | EmptyString => EmptyString
  | String c1 s1 =>
      if is_space c1 then trim_start s1
      else
        match s1 with
        | EmptyString => s
        | String c2 s2 =>
            if is_space2 c1 c2 then trim_start s2
            else
              match s2 with
              | EmptyString => s
              | String c3 s3 =>
                  if is_space3 c1 c2 c3 then trim_start s3 else s
              end
        end
  end.

(** [!s.trim()]: the trimmed string is empty, that is, [s] is all white
    space. *)
Definition trim_is_empty (s : string) : bool :=
  match trim_start s with
  | EmptyString => true
  | String _ _ => false
  end.

(** The string of the bytes with the given numbers. *)
Definition of_bytes (l : list nat) : string :=
  string_of_list_ascii (map ascii_of_nat l).

End JsString.

(** ** Per-item status and the classifier of [batchStatusCallback] *)

Inductive Status := pending | in_progress | completed | failed.

#[global] Instance Status_eq_dec : EqDecision Status.
Proof. solve_decision. Defined.

(** The value stored per customer: [{ status, message? }]. *)
Record StatusEntry := mkEntry { status : Status; message : option string }.

#[global] Instance StatusEntry_eq_dec : EqDecision StatusEntry.
Proof. solve_decision. Defined.

(** [finalStatus] as computed at the top of [batchStatusCallback]. *)
Definition finalStatus (msg : string) : Status :=
  if JsString.startsWith msg "ERROR:" || JsString.includes msg "failed"
  then failed
  else if JsString.includes msg "completed successfully"
          || JsString.includes msg "No migration required"
  then completed
  else in_progress.

(** ** JavaScript numbers *)

Module JsNum.

Inductive Num := Fin (q : Q) | PosInf | NegInf | NaN.

Definition Qltb (a b : Q) : bool := negb (Qle_bool b a).

(** Unary minus. *)
Definition neg (x : Num) : Num :=
  match x with
  | Fin q => Fin (- q)
  | PosInf => NegInf
  | NegInf => PosInf
  | NaN => NaN
  end.

(** [x + y] *)
Definition add (x y : Num) : Num :=
  match x, y with
  | NaN, _ | _, NaN => NaN
  | Fin a, Fin b => Fin (a + b)
  | PosInf, NegInf | NegInf, PosInf => NaN
  | PosInf, _ | _, PosInf => PosInf
  | NegInf, _ | _, NegInf => NegInf
  end.

(** [x - y] *)
Definition sub (x y : Num) : Num := add x (neg y).

(** [x / y]; a zero divisor is taken as [+0]. *)
Definition div (x y : Num) : Num :=
  match x, y with
  | NaN, _ | _, NaN => NaN
  | Fin a, Fin b =>
      if Qeq_bool b 0
      then (if Qltb 0 a then PosInf else if Qltb a 0 then NegInf else NaN)
      else Fin (a / b)
  | Fin _, PosInf | Fin _, NegInf => Fin 0
  | PosInf, Fin b => if Qltb b 0 then NegInf else PosInf
  | NegInf, Fin b => if Qltb b 0 then PosInf else NegInf
  | _, _ => NaN
  end.

(** [Math.max(x, y)]: [NaN] as soon as one argument is. *)
Definition max (x y : Num) : Num :=
  match x, y with
  | NaN, _ | _, NaN => NaN
  | PosInf, _ | _, PosInf => PosInf
  | NegInf, z | z, NegInf => z
  | Fin a, Fin b => if Qle_bool a b then Fin b else Fin a
  end.

(** [x < y] and [x <= y]; every comparison with [NaN] is false. *)
Definition ltb (x y : Num) : bool :=
  match x, y with
  | NaN, _ | _, NaN => false
  | Fin a, Fin b => Qltb a b
  | _, NegInf => false
  | PosInf, _ => false
  | NegInf, _ => true
  | Fin _, PosInf => true
  end.

Definition leb (x y : Num) : bool :=
  match x, y with
  | NaN, _ | _, NaN => false
  | Fin a, Fin b => Qle_bool a b
  | NegInf, _ => true
  | _, PosInf => true
  | _, _ => false
  end.

(** [x > y] and [x >= y] *)
Definition gtb (x y : Num) : bool := ltb y x.
Definition geb (x y : Num) : bool := leb y x.

(** Truthiness of a number: [0] and [NaN] are falsy. *)
Definition truthy (x : Num) : bool :=
  match x with
  | NaN => false
  | Fin q => negb (Qeq_bool q 0)
  | _ => true
  end.

Definition is_NaN (x : Num) : bool :=
  match x with NaN => true | _ => false end.

Definition is_finite (x : Num) : bool :=
  match x with Fin _ => true | _ => false end.

Definition zero : Num := Fin 0.

(** [x === y] on numbers. *)
Definition eqb (x y : Num) : bool :=
  match x, y with
  | Fin a, Fin b => Qeq_bool a b
  | PosInf, PosInf | NegInf, NegInf => true
  | _, _ => false
  end.

(** [x * y] *)
Definition mul (x y : Num) : Num :=
  match x, y with
  | NaN, _ | _, NaN => NaN
  | Fin a, Fin b => Fin (a * b)
  | Fin a, PosInf | PosInf, Fin a =>
      if Qltb 0 a then PosInf else if Qltb a 0 then NegInf else NaN
  | Fin a, NegInf | NegInf, Fin a =>
      if Qltb 0 a then NegInf else if Qltb a 0 then PosInf else NaN
  | PosInf, PosInf | NegInf, NegInf => PosInf
  | PosInf, NegInf | NegInf, PosInf => NegInf
  end.

(** [Math.ceil(x)] *)
Definition ceil (x : Num) : Num :=
  match x with
  | Fin q => Fin (inject_Z (Qceiling q))
  | _ => x
  end.

(** The number of a counter or of a [length]. *)
Definition of_nat (n : nat) : Num := Fin (inject_Z (Z.of_nat n)).

(** [ToIntegerOrInfinity(x)] for a finite [x]: the fraction is dropped. *)
Definition truncate (q : Q) : Z :=
  if Qle_bool 0 q then Qfloor q else Qceiling q.

End JsNum.

Import JsNum.

(** [Array.prototype.slice]: a bound [x] becomes an index of an array of
    length [len].  [NaN] counts as [0]; a negative bound counts from the
    end; the index stays within [0 .. len]. *)
Definition slice_index (len : nat) (x : Num) : nat :=
  match x with
  | NaN | NegInf => 0
  | PosInf => len
  | Fin q =>
      let z := truncate q in
      if (z <? 0)%Z then Z.to_nat (Z.max (Z.of_nat len + z) 0)
      else Z.to_nat (Z.min z (Z.of_nat len))
  end.

(** [l.slice(s, e)]: the elements from the index of [s] up to, and
    without, the index of [e]. *)
Definition js_slice {A} (l : list A) (s e : Num) : list A :=
  let k := slice_index (List.length l) s in
  let final := slice_index (List.length l) e in
  List.firstn (final - k) (List.skipn k l).

(** ** Data: customers and configuration *)

(** [features?: { [key: string]: { balance?: number } }] *)
Record Feature := { balance : option Num }.

(** An element of [products?: any[]], with the fields the code reads. *)
Record Product := {
  product_id : option string;
  product_name : option string;
  product_status : option string;
  product_group : option string
}.

(** [interface Customer] of [customer-details.tsx]. *)
Record Customer := {
  id : string;
  name : option string;
  email : option string;
  stripe_id : option string;
  env : option string;
  created_at : option string;
  products : option (list Product);
  features : option (gmap string Feature)
}.

(** [interface CreditConfig]; the [formatter] only produces display text. *)
Record CreditConfig := {
  key : string;
  credit_name : string;
  displayName : string;
  currency : string;
  divisor : Num
}.

(** [interface CreditSystemConfig] *)
Record CreditSystemConfig := {
  primary : CreditConfig;
  secondary : option (list CreditConfig)
}.

(** ** [credit-system.tsx] *)

(** One entry of the result: [{ config, amount }] (the [formatted] text is
    presentation and is left out). *)
Record CreditAmount := { credit_config : CreditConfig; amount : Num }.

Record CustomerCredits := {
  credits_primary : CreditAmount;
  credits_secondary : list CreditAmount;
  total : Num
}.

(** [customer.features?.[key]] *)
Definition feature_of (customer : Customer) (k : string) : option Feature :=
  match features customer with
  | Some fs => fs !! k
  | None => None
  end.

(** [credit ? Math.max(0, -(credit.balance ?? 0) / divisor) : 0] *)
Definition credit_amount (credit : option Feature) (d : Num) : Num :=
  match credit with
  | Some c => max zero (div (neg (default zero (balance c))) d)
  | None => zero
  end.

(** [secondaryCredits.reduce((sum, sc) => sum + sc.amount, 0)] *)
Definition sum_amounts (l : list CreditAmount) : Num :=
  fold_left (fun sum sc => add sum (amount sc)) l zero.

Definition getCustomerCredits (customer : Customer) (cfg : CreditSystemConfig)
  : CustomerCredits :=
  let primaryCredit := feature_of customer (key (primary cfg)) in
  let primaryAmount := credit_amount primaryCredit (divisor (primary cfg)) in
  let secondaryCredits :=
    match secondary cfg with
    | Some l =>
        map (fun creditConfig =>
               let credit := feature_of customer (key creditConfig) in
               {| credit_config := creditConfig;
                  amount := credit_amount credit (divisor creditConfig) |}) l
    | None => []
    end in
  {| credits_primary := {| credit_config := primary cfg; amount := primaryAmount |};
     credits_secondary := secondaryCredits;
     total := add primaryAmount (sum_amounts secondaryCredits) |}.

(** [getCreditBalance(customer, creditKey, divisor = 100)] *)
Definition getCreditBalance (customer : Customer) (creditKey : string)
    (d : option Num) : Num :=
  credit_amount (feature_of customer creditKey) (default (Fin 100) d).

(** ** [external-actions.tsx]: actions and what a handler does *)

(** What is thrown: an [Error] with its message, or any other value. *)
Inductive Thrown := ErrorObj (msg : string) | OtherValue.

(** [error instanceof Error ? error.message : 'Batch operation failed'] *)
Definition thrown_message (e : Thrown) : string :=
  match e with
  | ErrorObj m => m
  | OtherValue => "Batch operation failed"
  end.

(** How one call [action.handler(customerId, customer, setStatus)] ends:
    it returns a value that is not a promise, throws, or returns a promise
    that resolves, rejects or stays pending for ever. *)
Inductive HandlerEnd :=
| ReturnsValue
| ThrowsSync (e : Thrown)
| PromiseResolves
| PromiseRejects (e : Thrown)
| PromisePending.

(** A call reports statuses through [setStatus], then ends. *)
Record HandlerRun := { reported : list string; handler_end : HandlerEnd }.

(** What one call of a [batchHandler] does: the statuses it reports through
    the per-item callback, in the order of the calls, and how it ends. *)
Record BatchHandlerRun := {
  batch_reported : list (string * string);
  batch_end : HandlerEnd
}.

(** [interface ActionOption] *)
Record ActionOption := {
  action_id : string;
  label : string;
  description : option string;
  handler : string -> Customer -> HandlerRun;
  batchHandler :
    option (list (option string) -> list (option Customer) -> BatchHandlerRun)
}.

(** What [executeBatchAction] does, as the sequence of its effects. *)
Inductive TraceEvent :=
| InvalidCustomerData (i : nat)
    (* console.error('Invalid customer data at index', i) *)
| HandlerCalled (i : nat) (customerId : string) (c : Customer)
    (* action.handler(customerId, customer, individualStatusCallback) *)
| StatusReported (customerId msg : string)
    (* statusCallback?.(customerId, status), with a callback present *)
| HandlerSettled (i : nat)
    (* the call returned, or the promise it returned resolved *)
| HandlerFailed (i : nat) (e : Thrown)
    (* the call threw, or the promise it returned rejected *)
| BatchHandlerCalled
    (* action.batchHandler(customerIds, customers, statusCallback) *)
| BatchActionFailed (e : Thrown).
    (* console.error(`Batch action failed:`, error) *)

(** How the promise of [executeBatchAction] ends. *)
Inductive BatchResult := Resolved | Rejected (e : Thrown) | NeverSettles.

(** [!customerId || !customer]: the pair when both are truthy. *)
Definition valid_pair (customerId : option string) (c : option Customer)
  : option (string * Customer) :=
  match customerId, c with
  | Some i, Some c' => if String.eqb i "" then None else Some (i, c')
  | _, _ => None
  end.

(** The [for] loop of the fallback path, from index [i] on;
    [customerIds] holds the ids from [i] on, [customers] is the whole
    array. *)
Fixpoint fallback_loop (action : ActionOption) (withCallback : bool) (i : nat)
    (customerIds : list (option string)) (customers : list (option Customer))
  : list TraceEvent * BatchResult :=
  match customerIds with
  | [] => ([], Resolved)
  | customerId :: rest =>
      match valid_pair customerId (mjoin (customers !! i)) with
      | None =>
          let '(t, r) := fallback_loop action withCallback (S i) rest customers in
          (InvalidCustomerData i :: t, r)
      | Some (cid, c) =>
          let run := handler action cid c in
          let called :=
            HandlerCalled i cid c ::
            (if withCallback then map (StatusReported cid) (reported run)
             else []) in
          match handler_end run with
          | ReturnsValue | PromiseResolves =>
              let '(t, r) :=
                fallback_loop action withCallback (S i) rest customers in
              (called ++ HandlerSettled i :: t, r)
          | ThrowsSync e | PromiseRejects e =>
              (called ++ [HandlerFailed i e], Rejected e)
          | PromisePending => (called, NeverSettles)
          end
      end
  end.

(** [executeBatchAction(action, customerIds, customers, statusCallback?)] *)
Definition executeBatchAction (action : ActionOption)
    (customerIds : list (option string)) (customers : list (option Customer))
    (withCallback : bool) : list TraceEvent * BatchResult :=
  let '(t, r) :=
    match batchHandler action with
    | Some run_handler =>
        let run := run_handler customerIds customers in
        (BatchHandlerCalled ::
         (if withCallback
          then map (fun '(cid, msg) => StatusReported cid msg)
                 (batch_reported run)
          else []),
         match batch_end run with
         | ReturnsValue | PromiseResolves => Resolved
         | ThrowsSync e | PromiseRejects e => Rejected e
         | PromisePending => NeverSettles
         end)
    | None => fallback_loop action withCallback 0 customerIds customers
    end in
  match r with
  | Rejected e => (t ++ [BatchActionFailed e], r)
  | _ => (t, r)
  end.

(** ** The filter/sort pipeline of [CustomerTable] *)

Definition str_truthy (o : option string) : bool :=
  match o with
  | Some s => negb (String.eqb s "")
  | None => false
  end.

Definition to_lower_ascii (c : ascii) : ascii :=
  let n := nat_of_ascii c in
  if (65 <=? n)%nat && (n <=? 90)%nat then ascii_of_nat (n + 32) else c.

(** [toLowerCase()] on the ASCII letters. *)
Fixpoint toLowerCase (s : string) : string :=
  match s with
  | EmptyString => EmptyString
  | String c s' => String (to_lower_ascii c) (toLowerCase s')
  end.

(** One element of [sortedCustomers]. *)
Record Entry := {
  customer : Customer;
  planPrice : Num;
  creditsUsed : Num;
  totalValue : Num;
  searchableText : string
}.

(** [Array.prototype.sort(compare)]: a stable sort; an element moves behind
    another one only when [compare] says so with a result [> 0] (a [NaN]
    result counts as [0]).  This insertion sort is what every stable sort
    computes for a consistent [compare]; for an inconsistent one the
    language leaves the order to the implementation. *)
Section JsSort.
Context {A : Type} (compare : A -> A -> Num).

Fixpoint sort_insert (x : A) (l : list A) : list A :=
  match l with
  | [] => [x]
  | y :: l' =>
      if gtb (compare x y) zero then y :: sort_insert x l' else x :: l
  end.

Fixpoint js_sort (l : list A) : list A :=
  match l with
  | [] => []
  | x :: l' => sort_insert x (js_sort l')
  end.
End JsSort.

Section Pipeline.
(** [fuzzysort.single(query, target)]: [null] or a result with a score. *)
Variable fuzzysort_single : string -> string -> option Num.

Variable livePlanPrices : gmap string Num.
Variable creditSystem : CreditSystemConfig.

(** [livePlanPrices[k] !== undefined ? livePlanPrices[k]] for a truthy
    [k], on the own properties of [livePlanPrices].  Under a name that the
    object only inherits from [Object.prototype] the code finds a member
    that is no number; [fetchData_getPlanPrice] has this case, and agrees
    with [getPlanPrice] wherever the code yields a number
    ([getPlanPrice_agrees]). *)
Definition price_by (k : option string) : option Num :=
  if str_truthy k then livePlanPrices !! default "" k else None.

Definition getPlanPrice (plan : option Product) : Num :=
  match plan with
  | None => zero
  | Some p =>
      match price_by (product_id p) with
      | Some v => v
      | None =>
          match price_by (product_name p) with
          | Some v => v
          | None => zero
          end
      end
  end.

(** [customer.products?.find(p => p.status === "active" && p.group ===
    "plan")] *)
Definition activePlan (c : Customer) : option Product :=
  match products c with
  | Some ps =>
      List.find (fun p =>
                   bool_decide (product_status p = Some "active")
                   && bool_decide (product_group p = Some "plan")) ps
  | None => None
  end.

Definition mk_entry (c : Customer) : Entry :=
  let credits := getCustomerCredits c creditSystem in
  let price := getPlanPrice (activePlan c) in
  {| customer := c;
     planPrice := price;
     creditsUsed := total credits;
     totalValue := add price (total credits);
     searchableText :=
       toLowerCase
         ((if str_truthy (name c) then default "" (name c) else "")
            +:+ " " +:+
          (if str_truthy (email c) then default "" (email c) else "")
            +:+ " " +:+ id c) |}.

Variable hideZeroCreditUsers : bool.
Variable fuzzySearchQuery : string.

Definition keep_by_credits (e : Entry) : bool :=
  negb hideZeroCreditUsers || gtb (creditsUsed e) zero.

Definition keep_by_query (e : Entry) : bool :=
  if JsString.trim_is_empty fuzzySearchQuery then true
  else match fuzzysort_single fuzzySearchQuery (searchableText e) with
       | Some _ => true
       | None => false
       end.

(** [fuzzysort.single(..)?.score || -Infinity] *)
Definition score_of (e : Entry) : Num :=
  match fuzzysort_single fuzzySearchQuery (searchableText e) with
  | Some s => if truthy s then s else NegInf
  | None => NegInf
  end.

Definition compare_entries (a b : Entry) : Num :=
  if negb (JsString.trim_is_empty fuzzySearchQuery)
  then sub (score_of b) (score_of a)
  else sub (totalValue b) (totalValue a).

Definition sortedCustomers (customers : list Customer) : list Entry :=
  js_sort compare_entries
    (List.filter keep_by_query
       (List.filter keep_by_credits (map mk_entry customers))).
End Pipeline.

(** ** The state of [CustomerTable] *)

(** A reference to a [Map] object: its address in the heap. *)
Definition Ref := nat.

(** A rendered [React.ReactElement], kept opaque. *)
Definition Element := string.

(** The [useState] cells of [CustomerTable], those of the
    [useExternalActions] hook it calls, and the heap of the [Map] objects
    that [migrationStatuses] refers to ([nextRef] is the next free
    address). *)
Record State := {
  currentPage : nat;
  selectedCustomerIndex : nat;
  hideZeroCreditUsers : bool;
  isFullScreenDetailsOpen : bool;
  isFuzzySearchMode : bool;
  fuzzySearchQuery : string;
  isHelpOpen : bool;
  isMultiSelectMode : bool;
  selectedCustomerIds : gset string;
  isBatchMigrationInProgress : bool;
  migrationStatuses : Ref;
  selectedActionIndex : nat;
  isMenuOpen : bool;
  isLoading : bool;
  currentStatus : option string;
  executingActionId : option string;
  componentDialog : option Element;
  isComponentDialogOpen : bool;
  heap : gmap Ref (gmap string StatusEntry);
  nextRef : Ref
}.

(** The state setters: one field changes, the others are kept. *)
Definition setCurrentPage (v : nat) (st : State) : State :=
  let 'Build_State _ x1 x2 x3 x4 x5 x6 x7 x8 x9 x10 x11 x12 x13 x14 x15 x16
      x17 x18 x19 := st in
  Build_State v x1 x2 x3 x4 x5 x6 x7 x8 x9 x10 x11 x12 x13 x14 x15 x16 x17
    x18 x19.

Definition setSelectedCustomerIndex (v : nat) (st : State) : State :=
  let 'Build_State x0 _ x2 x3 x4 x5 x6 x7 x8 x9 x10 x11 x12 x13 x14 x15 x16
      x17 x18 x19 := st in
  Build_State x0 v x2 x3 x4 x5 x6 x7 x8 x9 x10 x11 x12 x13 x14 x15 x16 x17
    x18 x19.

Definition setHideZeroCreditUsers (v : bool) (st : State) : State :=
  let 'Build_State x0 x1 _ x3 x4 x5 x6 x7 x8 x9 x10 x11 x12 x13 x14 x15 x16
      x17 x18 x19 := st in
  Build_State x0 x1 v x3 x4 x5 x6 x7 x8 x9 x10 x11 x12 x13 x14 x15 x16 x17
    x18 x19.

Definition setIsFullScreenDetailsOpen (v : bool) (st : State) : State :=
  let 'Build_State x0 x1 x2 _ x4 x5 x6 x7 x8 x9 x10 x11 x12 x13 x14 x15 x16
      x17 x18 x19 := st in
  Build_State x0 x1 x2 v x4 x5 x6 x7 x8 x9 x10 x11 x12 x13 x14 x15 x16 x17
    x18 x19.

Definition setIsFuzzySearchMode (v : bool) (st : State) : State :=
  let 'Build_State x0 x1 x2 x3 _ x5 x6 x7 x8 x9 x10 x11 x12 x13 x14 x15 x16
      x17 x18 x19 := st in
  Build_State x0 x1 x2 x3 v x5 x6 x7 x8 x9 x10 x11 x12 x13 x14 x15 x16 x17
    x18 x19.

Definition setFuzzySearchQuery (v : string) (st : State) : State :=
  let 'Build_State x0 x1 x2 x3 x4 _ x6 x7 x8 x9 x10 x11 x12 x13 x14 x15 x16
      x17 x18 x19 := st in
  Build_State x0 x1 x2 x3 x4 v x6 x7 x8 x9 x10 x11 x12 x13 x14 x15 x16 x17
    x18 x19.

Definition setIsHelpOpen (v : bool) (st : State) : State :=
  let 'Build_State x0 x1 x2 x3 x4 x5 _ x7 x8 x9 x10 x11 x12 x13 x14 x15 x16
      x17 x18 x19 := st in
  Build_State x0 x1 x2 x3 x4 x5 v x7 x8 x9 x10 x11 x12 x13 x14 x15 x16 x17
    x18 x19.

Definition setIsMultiSelectMode (v : bool) (st : State) : State :=
  let 'Build_State x0 x1 x2 x3 x4 x5 x6 _ x8 x9 x10 x11 x12 x13 x14 x15 x16
      x17 x18 x19 := st in
  Build_State x0 x1 x2 x3 x4 x5 x6 v x8 x9 x10 x11 x12 x13 x14 x15 x16 x17
    x18 x19.

Definition setSelectedCustomerIds (v : gset string) (st : State) : State :=
  let 'Build_State x0 x1 x2 x3 x4 x5 x6 x7 _ x9 x10 x11 x12 x13 x14 x15 x16
      x17 x18 x19 := st in
  Build_State x0 x1 x2 x3 x4 x5 x6 x7 v x9 x10 x11 x12 x13 x14 x15 x16 x17
    x18 x19.

Definition setIsBatchMigrationInProgress (v : bool) (st : State) : State :=
  let 'Build_State x0 x1 x2 x3 x4 x5 x6 x7 x8 _ x10 x11 x12 x13 x14 x15 x16
      x17 x18 x19 := st in
  Build_State x0 x1 x2 x3 x4 x5 x6 x7 x8 v x10 x11 x12 x13 x14 x15 x16 x17
    x18 x19.

Definition setMigrationStatuses (v : Ref) (st : State) : State :=
  let 'Build_State x0 x1 x2 x3 x4 x5 x6 x7 x8 x9 _ x11 x12 x13 x14 x15 x16
      x17 x18 x19 := st in
  Build_State x0 x1 x2 x3 x4 x5 x6 x7 x8 x9 v x11 x12 x13 x14 x15 x16 x17
    x18 x19.

Definition setSelectedActionIndex (v : nat) (st : State) : State :=
  let 'Build_State x0 x1 x2 x3 x4 x5 x6 x7 x8 x9 x10 _ x12 x13 x14 x15 x16
      x17 x18 x19 := st in
  Build_State x0 x1 x2 x3 x4 x5 x6 x7 x8 x9 x10 v x12 x13 x14 x15 x16 x17
    x18 x19.

Definition setIsMenuOpen (v : bool) (st : State) : State :=
  let 'Build_State x0 x1 x2 x3 x4 x5 x6 x7 x8 x9 x10 x11 _ x13 x14 x15 x16
      x17 x18 x19 := st in
  Build_State x0 x1 x2 x3 x4 x5 x6 x7 x8 x9 x10 x11 v x13 x14 x15 x16 x17
    x18 x19.

Definition setIsLoading (v : bool) (st : State) : State :=
  let 'Build_State x0 x1 x2 x3 x4 x5 x6 x7 x8 x9 x10 x11 x12 _ x14 x15 x16
      x17 x18 x19 := st in
  Build_State x0 x1 x2 x3 x4 x5 x6 x7 x8 x9 x10 x11 x12 v x14 x15 x16 x17
    x18 x19.

Definition setCurrentStatus (v : option string) (st : State) : State :=
  let 'Build_State x0 x1 x2 x3 x4 x5 x6 x7 x8 x9 x10 x11 x12 x13 _ x15 x16
      x17 x18 x19 := st in
  Build_State x0 x1 x2 x3 x4 x5 x6 x7 x8 x9 x10 x11 x12 x13 v x15 x16 x17
    x18 x19.

Definition setExecutingActionId (v : option string) (st : State) : State :=
  let 'Build_State x0 x1 x2 x3 x4 x5 x6 x7 x8 x9 x10 x11 x12 x13 x14 _ x16
      x17 x18 x19 := st in
  Build_State x0 x1 x2 x3 x4 x5 x6 x7 x8 x9 x10 x11 x12 x13 x14 v x16 x17
    x18 x19.

Definition setComponentDialog (v : option Element) (st : State) : State :=
  let 'Build_State x0 x1 x2 x3 x4 x5 x6 x7 x8 x9 x10 x11 x12 x13 x14 x15 _
      x17 x18 x19 := st in
  Build_State x0 x1 x2 x3 x4 x5 x6 x7 x8 x9 x10 x11 x12 x13 x14 x15 v x17
    x18 x19.

Definition setIsComponentDialogOpen (v : bool) (st : State) : State :=
  let 'Build_State x0 x1 x2 x3 x4 x5 x6 x7 x8 x9 x10 x11 x12 x13 x14 x15 x16
      _ x18 x19 := st in
  Build_State x0 x1 x2 x3 x4 x5 x6 x7 x8 x9 x10 x11 x12 x13 x14 x15 x16 v
    x18 x19.

Definition setHeap (v : gmap Ref (gmap string StatusEntry)) (st : State)
  : State :=
  let 'Build_State x0 x1 x2 x3 x4 x5 x6 x7 x8 x9 x10 x11 x12 x13 x14 x15 x16
      x17 _ x19 := st in
  Build_State x0 x1 x2 x3 x4 x5 x6 x7 x8 x9 x10 x11 x12 x13 x14 x15 x16 x17
    v x19.

Definition setNextRef (v : Ref) (st : State) : State :=
  let 'Build_State x0 x1 x2 x3 x4 x5 x6 x7 x8 x9 x10 x11 x12 x13 x14 x15 x16
      x17 x18 _ := st in
  Build_State x0 x1 x2 x3 x4 x5 x6 x7 x8 x9 x10 x11 x12 x13 x14 x15 x16 x17
    x18 v.

(** ** Props, paging and the [Map] objects *)

(** [interface BillingAnalysisConfig]; [customerDetails] and [ui.colors]
    only select presentation. *)
Record BillingAnalysisConfig := {
  actions : list ActionOption;
  creditSystem : CreditSystemConfig;
  ui_itemsPerPage : option Num
}.

(** [interface CustomerTableProps], with the [fuzzysort] module the
    component imports. *)
Record Props := {
  customers : list Customer;
  planName : string;
  livePlanPrices : gmap string Num;
  config : BillingAnalysisConfig;
  fuzzysort_single : string -> string -> option Num
}.

(** [(config.ui?.itemsPerPage ?? 8) || 8] *)
Definition itemsPerPage (p : Props) : Num :=
  let x := default (Fin 8) (ui_itemsPerPage (config p)) in
  if truthy x then x else Fin 8.

Definition sortedCustomersOf (p : Props) (st : State) : list Entry :=
  sortedCustomers (fuzzysort_single p) (livePlanPrices p)
    (creditSystem (config p)) (hideZeroCreditUsers st) (fuzzySearchQuery st)
    (customers p).

(** [Math.ceil(sortedCustomers.length / itemsPerPage)] *)
Definition totalPages (p : Props) (st : State) : Num :=
  ceil (div (of_nat (List.length (sortedCustomersOf p st))) (itemsPerPage p)).

(** [sortedCustomers.slice(currentPage * itemsPerPage, (currentPage + 1) *
    itemsPerPage)] *)
Definition currentCustomers (p : Props) (st : State) : list Entry :=
  js_slice (sortedCustomersOf p st)
    (mul (of_nat (currentPage st)) (itemsPerPage p))
    (mul (of_nat (currentPage st + 1)) (itemsPerPage p)).

(** The [Map] object behind a reference. *)
Definition deref (st : State) (r : Ref) : gmap string StatusEntry :=
  default ∅ (heap st !! r).

(** The status map of the current render: the object in the
    [migrationStatuses] cell. *)
Definition statusMap (st : State) : gmap string StatusEntry :=
  deref st (migrationStatuses st).

(** [new Map(m)]: a fresh object with the entries of [m]. *)
Definition new_Map (m : gmap string StatusEntry) (st : State) : Ref * State :=
  (nextRef st,
   setNextRef (S (nextRef st)) (setHeap (<[nextRef st := m]> (heap st)) st)).

(** [r.set(k, v)]: the object is changed in place. *)
Definition Map_set (r : Ref) (k : string) (v : StatusEntry) (st : State)
  : State :=
  setHeap (<[r := <[k := v]> (deref st r)]> (heap st)) st.

(** [setMigrationStatuses(prev => new Map(prev.set(k, v)))] *)
Definition update_status (k : string) (v : StatusEntry) (st : State) : State :=
  let prev := migrationStatuses st in
  let st1 := Map_set prev k v st in
  let '(fresh, st2) := new_Map (deref st1 prev) st1 in
  setMigrationStatuses fresh st2.

(** The state of the first render: every [useState] initial value. *)
Definition initial_state : State :=
  {| currentPage := 0; selectedCustomerIndex := 0;
     hideZeroCreditUsers := false; isFullScreenDetailsOpen := false;
     isFuzzySearchMode := false; fuzzySearchQuery := "";
     isHelpOpen := false; isMultiSelectMode := false;
     selectedCustomerIds := ∅; isBatchMigrationInProgress := false;
     migrationStatuses := 0;
     selectedActionIndex := 0; isMenuOpen := false; isLoading := false;
     currentStatus := None; executingActionId := None;
     componentDialog := None; isComponentDialogOpen := false;
     heap := {[ 0%nat := ∅ ]}; nextRef := 1 |}.

(** ** [useExternalActions]: the action menu *)

(** [openMenu] *)
Definition openMenu (st : State) : State :=
  setSelectedActionIndex 0 (setIsMenuOpen true st).

(** [closeMenu], with the [isLoading] its closure saw. *)
Definition closeMenu (loading : bool) (st : State) : State :=
  if loading then st
  else setExecutingActionId None
         (setCurrentStatus None
            (setSelectedActionIndex 0 (setIsMenuOpen false st))).

(** [navigateUp], [navigateDown] *)
Definition navigateUp (st : State) : State :=
  if (0 <? selectedActionIndex st)%nat
  then setSelectedActionIndex (selectedActionIndex st - 1) st
  else st.

Definition navigateDown (p : Props) (st : State) : State :=
  if (selectedActionIndex st + 1 <? List.length (actions (config p)))%nat
  then setSelectedActionIndex (selectedActionIndex st + 1) st
  else st.

(** [closeComponentDialog] *)
Definition closeComponentDialog (st : State) : State :=
  setComponentDialog None (setIsComponentDialogOpen false st).

(** The closure of one [handleBatchAction] call while it awaits
    [executeBatchAction]: the values of the render that created it. *)
Record BatchRun := {
  run_action : option ActionOption;   (* selectedAction *)
  run_selected : list Entry;          (* selectedCustomers *)
  run_migrate : bool;                 (* selectedAction?.id === 'migrate' *)
  run_statuses : Ref;                 (* migrationStatuses *)
  run_isLoading : bool                (* externalActions.isLoading *)
}.

(** [customerIds] and [customers] as passed to [executeBatchAction]. *)
Definition run_customerIds (r : BatchRun) : list string :=
  map (fun c => id (customer c)) (run_selected r).

Definition run_customers (r : BatchRun) : list Customer :=
  map customer (run_selected r).

(** The call that a confirm in the menu starts, if any. *)
Inductive Dispatch :=
| NoCall
| CallSingle (action : ActionOption) (customerId : string) (c : Customer)
    (* action.handler(customerId, customer, updateStatus) *)
| CallBatch (r : BatchRun).
    (* executeBatchAction(selectedAction, customerIds, customers, ..) *)

(** [executeSelectedAction(customerId, customer)] up to the handler call. *)
Definition executeSelectedAction (p : Props) (customerId : string)
    (c : Customer) (st : State) : State * Dispatch :=
  match actions (config p) !! selectedActionIndex st with
  | Some action =>
      (setExecutingActionId (Some (action_id action))
         (setCurrentStatus None (setIsLoading true st)),
       CallSingle action customerId c)
  | None => (st, NoCall)
  end.

(** Its [updateStatus] callback. *)
Definition updateStatus (s : string) (st : State) : State :=
  setCurrentStatus (Some s) st.

(** The common tail: loading off, status cleared, menu closed. *)
Definition reset_menu (st : State) : State :=
  setSelectedActionIndex 0
    (setIsMenuOpen false
       (setExecutingActionId None
          (setCurrentStatus None (setIsLoading false st)))).

(** The handler's result arrived: a React element opens the dialog. *)
Definition single_settled (result : option Element) (st : State) : State :=
  match result with
  | Some el =>
      reset_menu (setIsComponentDialogOpen true (setComponentDialog (Some el) st))
  | None => reset_menu st
  end.

(** The handler threw: the message is shown, and ... *)
Definition single_failed (e : Thrown) (st : State) : State :=
  setCurrentStatus
    (Some ("Error: " +:+
           match e with ErrorObj m => m | OtherValue => "Unknown error" end))
    st.

(** ... the timer closes the menu two seconds later. *)
Definition single_timeout (st : State) : State := reset_menu st.

(** ** [handleOptionSelect], [handleBatchAction], [batchStatusCallback] *)

Definition is_migrate (a : option ActionOption) : bool :=
  match a with
  | Some x => String.eqb (action_id x) "migrate"
  | None => false
  end.

(** [currentCustomers.filter(c => selectedCustomerIds.has(c.customer.id))] *)
Definition selectedCustomers (p : Props) (st : State) : list Entry :=
  List.filter (fun c => bool_decide (id (customer c) ∈ selectedCustomerIds st))
    (currentCustomers p st).

(** [initialStatuses.set(c.customer.id, { status: 'pending' })] for each
    selected customer. *)
Definition fill_pending (r : Ref) (sel : list Entry) (st : State) : State :=
  fold_left
    (fun s c => Map_set r (id (customer c))
                  {| status := pending; message := None |} s)
    sel st.

(** The closure that [handleBatchAction] builds from the render of [st]. *)
Definition batch_closure (p : Props) (st : State) : BatchRun :=
  let selectedAction := actions (config p) !! selectedActionIndex st in
  {| run_action := selectedAction;
     run_selected := selectedCustomers p st;
     run_migrate := is_migrate selectedAction;
     run_statuses := migrationStatuses st;
     run_isLoading := isLoading st |}.

(** [handleBatchAction] up to its [await]. *)
Definition handleBatchAction (p : Props) (st : State) : State * Dispatch :=
  let run := batch_closure p st in
  if (List.length (run_selected run) =? 0)%nat then (st, NoCall)
  else if run_migrate run then
    let st1 := setIsBatchMigrationInProgress true st in
    let '(initialStatuses, st2) := new_Map ∅ st1 in
    let st3 := fill_pending initialStatuses (run_selected run) st2 in
    (setMigrationStatuses initialStatuses st3, CallBatch run)
  else (st, CallBatch run).

(** [batchStatusCallback(customerId, status)] *)
Definition batchStatusCallback (customerId msg : string) (st : State) : State :=
  update_status customerId
    {| status := finalStatus msg; message := Some msg |} st.

(** The [catch] block of [handleBatchAction]: [migrationStatuses] is the
    variable the closure holds. *)
Definition catch_step (r : BatchRun) (e : Thrown) (st : State) (c : Entry)
  : State :=
  let force :=
    update_status (id (customer c))
      {| status := failed; message := Some (thrown_message e) |} st in
  match deref st (run_statuses r) !! id (customer c) with
  | None => force
  | Some cur =>
      match status cur with
      | pending | in_progress => force
      | completed | failed => st
      end
  end.

(** [executeBatchAction] rejected: the state after the [catch] block of
    the migration branch.  The other branch has no handler and sets no
    state; there the error passes on ([unhandled_rejection]). *)
Definition batch_rejected (r : BatchRun) (e : Thrown) (st : State) : State :=
  if run_migrate r then fold_left (catch_step r e) (run_selected r) st
  else st.

(** [executeBatchAction] resolved: the migration view stays as it is; for
    another action multi-select mode is left and the menu closed. *)
Definition batch_resolved (r : BatchRun) (st : State) : State :=
  if run_migrate r then st
  else closeMenu (run_isLoading r)
         (setSelectedCustomerIds ∅ (setIsMultiSelectMode false st)).

(** [handleOptionSelect] *)
Definition handleOptionSelect (p : Props) (st : State) : State * Dispatch :=
  if isMultiSelectMode st && (0 <? size (selectedCustomerIds st))%nat
  then handleBatchAction p st
  else
    match currentCustomers p st !! selectedCustomerIndex st with
    | Some customerEntry =>
        executeSelectedAction p (id (customer customerEntry))
          (customer customerEntry) st
    | None => (st, NoCall)
    end.

(** ** The key router: [useInput] of [CustomerTable] *)

(** The [key] argument of an [ink] input handler (the flags the code
    reads). *)
Record Key := {
  upArrow : bool;
  downArrow : bool;
  leftArrow : bool;
  rightArrow : bool;
  return_ : bool;
  escape : bool;
  tab : bool
}.

(** [input === 'x' || input === 'X'] *)
Definition input_is (input lower upper : string) : bool :=
  String.eqb input lower || String.eqb input upper.

(** What escape does in the batch progress view (also its [onClose]). *)
Definition close_batch_view (st : State) : State :=
  let st1 := setIsBatchMigrationInProgress false st in
  let '(fresh, st2) := new_Map ∅ st1 in
  setSelectedCustomerIds ∅
    (setIsMultiSelectMode false (setMigrationStatuses fresh st2)).

(** The multi-select commands [m], [s], [a]. *)
Definition multi_select_commands (p : Props) (st : State) (input : string)
  : State :=
  if input_is input "m" "M" then
    let st1 := setIsMultiSelectMode (negb (isMultiSelectMode st)) st in
    if isMultiSelectMode st then setSelectedCustomerIds ∅ st1 else st1
  else if isMultiSelectMode st && input_is input "s" "S" then
    match currentCustomers p st !! selectedCustomerIndex st with
    | Some currentCustomer =>
        let i := id (customer currentCustomer) in
        if bool_decide (i ∈ selectedCustomerIds st)
        then setSelectedCustomerIds (selectedCustomerIds st ∖ {[ i ]}) st
        else setSelectedCustomerIds (selectedCustomerIds st ∪ {[ i ]}) st
    | None => st
    end
  else if isMultiSelectMode st && input_is input "a" "A" then
    let currentCustomerIds :=
      map (fun c => id (customer c)) (currentCustomers p st) in
    let allSelected :=
      forallb (fun i => bool_decide (i ∈ selectedCustomerIds st))
        currentCustomerIds in
    if allSelected
    then setSelectedCustomerIds
           (fold_left (fun acc i => acc ∖ {[ i ]}) currentCustomerIds
              (selectedCustomerIds st)) st
    else setSelectedCustomerIds
           (fold_left (fun acc i => acc ∪ {[ i ]}) currentCustomerIds
              (selectedCustomerIds st)) st
  else st.

(** The main table navigation.  The tests read the state [st] of the
    render; the setters act on [acc], the state after the multi-select
    commands. *)
Definition table_navigation (p : Props) (st : State) (input : string)
    (key : Key) (acc : State) : State :=
  let here := is_Some (currentCustomers p st !! selectedCustomerIndex st) in
  if input_is input "l" "L" && bool_decide here then
    setIsFullScreenDetailsOpen true acc
  else if upArrow key && (0 <? selectedCustomerIndex st)%nat then
    setSelectedCustomerIndex (selectedCustomerIndex st - 1) acc
  else if downArrow key
          && (selectedCustomerIndex st + 1
                <? List.length (currentCustomers p st))%nat then
    setSelectedCustomerIndex (selectedCustomerIndex st + 1) acc
  else if leftArrow key then
    if (0 <? currentPage st)%nat
    then setCurrentPage (currentPage st - 1) acc else acc
  else if rightArrow key then
    if ltb (of_nat (currentPage st)) (sub (totalPages p st) (Fin 1))
    then setCurrentPage (currentPage st + 1) acc else acc
  else if return_ key && bool_decide here then
    openMenu acc
  else if input_is input "i" "I" then
    setHideZeroCreditUsers (negb (hideZeroCreditUsers st)) acc
  else if input_is input "f" "F" then
    setFuzzySearchQuery "" (setIsFuzzySearchMode true acc)
  else if input_is input "c" "C" then
    setSelectedCustomerIndex 0 (setCurrentPage 0 (setFuzzySearchQuery "" acc))
  else if input_is input "n" "N" then
    if ltb (of_nat (currentPage st)) (sub (totalPages p st) (Fin 1))
    then setCurrentPage (currentPage st + 1) acc else acc
  else if input_is input "p" "P" then
    if (0 <? currentPage st)%nat
    then setCurrentPage (currentPage st - 1) acc else acc
  else if input_is input "h" "H" then
    setIsHelpOpen true acc
  else acc.

(** The handler passed to [useInput]: the new state and the call that
    [handleOptionSelect] starts. *)
Definition useInput_handler (p : Props) (st : State) (input : string)
    (key : Key) : State * Dispatch :=
  if isBatchMigrationInProgress st then
    (if escape key then close_batch_view st else st, NoCall)
  else if isHelpOpen st then
    (if escape key || input_is input "h" "H"
     then setIsHelpOpen false st else st, NoCall)
  else if isComponentDialogOpen st then
    (if escape key then closeComponentDialog st else st, NoCall)
  else if isFullScreenDetailsOpen st then
    (if escape key then setIsFullScreenDetailsOpen false st else st, NoCall)
  else if isFuzzySearchMode st then
    (if escape key
     then setFuzzySearchQuery "" (setIsFuzzySearchMode false st)
     else st, NoCall)
  else if isMenuOpen st then
    if negb (isLoading st) then
      if upArrow key then (navigateUp st, NoCall)
      else if downArrow key then (navigateDown p st, NoCall)
      else if return_ key then handleOptionSelect p st
      else if escape key then (closeMenu (isLoading st) st, NoCall)
      else (st, NoCall)
    else (st, NoCall)
  else
    (table_navigation p st input key (multi_select_commands p st input),
     NoCall).

(** The two [useEffect]s that reset the cursor: on a change of
    [hideZeroCreditUsers] the page and the cursor, on a change of
    [currentPage] the cursor. *)
Definition run_effects (before after : State) : State :=
  let st1 :=
    if bool_decide (hideZeroCreditUsers before = hideZeroCreditUsers after)
    then after
    else setSelectedCustomerIndex 0 (setCurrentPage 0 after) in
  if bool_decide (currentPage before = currentPage st1)
  then st1
  else setSelectedCustomerIndex 0 st1.

(** The [TextInput] of the search box: [onChange] and [onSubmit]. *)
Definition search_onChange (query : string) (st : State) : State :=
  setSelectedCustomerIndex 0 (setCurrentPage 0 (setFuzzySearchQuery query st)).

Definition search_onSubmit (query : string) (st : State) : State :=
  setSelectedCustomerIndex 0
    (setCurrentPage 0
       (setIsFuzzySearchMode false (setFuzzySearchQuery query st))).


(** [FullScreenDetails], as [CustomerTable] renders it (without [actions]):
    the input handler of an open overlay calls [onClose] on escape. *)
Definition FullScreenDetails_handler (isOpen : bool) (onClose : State -> State)
    (key : Key) (st : State) : State :=
  if isOpen && escape key then onClose st else st.

(** The handlers of the overlays that the render of [st] shows. *)
Definition overlay_handlers (p : Props) (st : State) (key : Key) (acc : State)
  : State :=
  let here := is_Some (currentCustomers p st !! selectedCustomerIndex st) in
  let acc1 :=
    FullScreenDetails_handler (isFullScreenDetailsOpen st && bool_decide here)
      (setIsFullScreenDetailsOpen false) key acc in
  let acc2 :=
    FullScreenDetails_handler (isHelpOpen st) (setIsHelpOpen false) key acc1 in
  let acc3 :=
    FullScreenDetails_handler
      (isComponentDialogOpen st && bool_decide (is_Some (componentDialog st)))
      closeComponentDialog key acc2 in
  FullScreenDetails_handler (isBatchMigrationInProgress st) close_batch_view
    key acc3.

(** One key press: every input handler sees it, then the effects of the
    re-render run. *)
Definition key_event (p : Props) (st : State) (input : string) (key : Key)
  : State * Dispatch :=
  let '(st', call) := useInput_handler p st input key in
  (run_effects st (overlay_handlers p st key st'), call).

(** ** A batch run from start to end *)

(** The effect of one [executeBatchAction] event on the component. *)
Definition apply_trace_event (ev : TraceEvent) (st : State) : State :=
  match ev with
  | StatusReported cid msg => batchStatusCallback cid msg st
  | _ => st
  end.

(** The state once the run behind a [CallBatch] is over, when nothing else
    happens meanwhile.  Without an action [executeBatchAction] throws a
    [TypeError], which [handleBatchAction] does not catch outside its
    migration branch. *)
Definition finish_batch (r : BatchRun) (st : State) : State :=
  match run_action r with
  | None => st
  | Some action =>
      let '(t, res) :=
        executeBatchAction action (map Some (run_customerIds r))
          (map Some (run_customers r)) (run_migrate r) in
      let st1 := fold_left (fun s ev => apply_trace_event ev s) t st in
      match res with
      | Resolved => batch_resolved r st1
      | Rejected e => batch_rejected r e st1
      | NeverSettles => st1
      end
  end.

(** * Statements

    The properties below are stated with these predicates. *)

(** ** The classifier *)

(** The text conditions of the classifier, as properties of the message. *)
Definition starts_with (m p : string) : Prop := exists t, m = p +:+ t.
Definition contains (m p : string) : Prop := exists a b, m = a +:+ p +:+ b.

Definition says_failed (m : string) : Prop :=
  starts_with m "ERROR:" \/ contains m "failed".

Definition says_completed (m : string) : Prop :=
  contains m "completed successfully" \/ contains m "No migration required".

(** ** Credits *)

(** All the amounts of a result are [>= 0]. *)
Definition credits_nonneg (r : CustomerCredits) : Prop :=
  geb (amount (credits_primary r)) zero = true
  /\ Forall (fun sc => geb (amount sc) zero = true) (credits_secondary r)
  /\ geb (total r) zero = true.

(** The numbers of a customer and of a configuration are usable: every
    balance is finite, every divisor is a number other than [0]. *)
Definition finite_balance (f : Feature) : bool :=
  match balance f with
  | Some b => is_finite b
  | None => true
  end.

Definition finite_balances (c : Customer) : bool :=
  match features c with
  | Some fs => forallb (fun kf => finite_balance (snd kf)) (map_to_list fs)
  | None => true
  end.

Definition credit_configs (cfg : CreditSystemConfig) : list CreditConfig :=
  primary cfg :: default [] (secondary cfg).

Definition nonzero_divisors (cfg : CreditSystemConfig) : bool :=
  forallb (fun cc => truthy (divisor cc)) (credit_configs cfg).

(** ** Sample data *)

Definition plain_key : Key :=
  {| upArrow := false; downArrow := false; leftArrow := false;
     rightArrow := false; return_ := false; escape := false; tab := false |}.

Definition key_return : Key :=
  {| upArrow := false; downArrow := false; leftArrow := false;
     rightArrow := false; return_ := true; escape := false; tab := false |}.

Definition key_escape : Key :=
  {| upArrow := false; downArrow := false; leftArrow := false;
     rightArrow := false; return_ := false; escape := true; tab := false |}.

Definition key_right : Key :=
  {| upArrow := false; downArrow := false; leftArrow := false;
     rightArrow := true; return_ := false; escape := false; tab := false |}.

Definition key_left : Key :=
  {| upArrow := false; downArrow := false; leftArrow := true;
     rightArrow := false; return_ := false; escape := false; tab := false |}.

Definition key_down : Key :=
  {| upArrow := false; downArrow := true; leftArrow := false;
     rightArrow := false; return_ := false; escape := false; tab := false |}.

(** A plan product and a customer on it, with one credit feature. *)
Definition plan_product (plan : string) : Product :=
  {| product_id := Some plan; product_name := None;
     product_status := Some "active"; product_group := Some "plan" |}.

Definition sample_customer (i : string) (plan : option string)
    (credit : option Feature) : Customer :=
  {| id := i; name := None; email := None; stripe_id := None; env := None;
     created_at := None;
     products := option_map (fun pl => [plan_product pl]) plan;
     features := option_map (fun f => {[ "credits" := f ]}) credit |}.

Definition owes (q : Q) : option Feature :=
  Some {| balance := Some (Fin (- q)) |}.

Definition credit_config_of (k : string) (d : Num) : CreditConfig :=
  {| key := k; credit_name := k; displayName := k; currency := "$";
     divisor := d |}.

Definition credits_by (d : Num) : CreditSystemConfig :=
  {| primary := credit_config_of "credits" d; secondary := None |}.

Definition credits_with_storage : CreditSystemConfig :=
  {| primary := credit_config_of "credits" (Fin 100);
     secondary := Some [credit_config_of "storage" (Fin 100)] |}.

(** ** The filtered view *)

(** A list of entries is ordered by descending [f]. *)
Definition descending (f : Entry -> Num) (view : list Entry) : Prop :=
  StronglySorted (fun a b => geb (f a) (f b) = true) view.

(** The postconditions of the pipeline, for the per-record value that the
    zero filter is about and the one that the default order is about. *)
Definition view_postconditions (filterValue sortValue : Entry -> Num)
    (source : list Customer) (hideZero : bool) (query : string)
    (view : list Entry) : Prop :=
  (List.length view <= List.length source)%nat
  /\ (hideZero = true ->
      Forall (fun e => gtb (filterValue e) zero = true) view)
  /\ (query = "" -> descending sortValue view).

Definition no_match : string -> string -> option Num := fun _ _ => None.

(** Three customers: [a1] on the "pro" plan with no credits used, [b2]
    without plan with 5 credits used, [c3] on the plan with 3 credits
    used. *)
Definition sample_source : list Customer :=
  [ sample_customer "a1" (Some "pro") (owes 0);
    sample_customer "b2" None (owes 500);
    sample_customer "c3" (Some "pro") (owes 300) ].

Definition sample_prices : gmap string Num := {[ "pro" := Fin 20 ]}.

Definition refund_prices : gmap string Num := {[ "pro" := Fin (-5) ]}.

(** ** The key router *)

(** No overlay is open: base table navigation owns the input. *)
Definition base_navigation (st : State) : bool :=
  negb (isBatchMigrationInProgress st) && negb (isHelpOpen st)
  && negb (isComponentDialogOpen st) && negb (isFullScreenDetailsOpen st)
  && negb (isFuzzySearchMode st) && negb (isMenuOpen st).

(** The cells that closing the batch progress view must not touch. *)
Definition same_other_cells (st st' : State) : Prop :=
  currentPage st' = currentPage st
  /\ selectedCustomerIndex st' = selectedCustomerIndex st
  /\ hideZeroCreditUsers st' = hideZeroCreditUsers st
  /\ isFullScreenDetailsOpen st' = isFullScreenDetailsOpen st
  /\ isFuzzySearchMode st' = isFuzzySearchMode st
  /\ fuzzySearchQuery st' = fuzzySearchQuery st
  /\ isHelpOpen st' = isHelpOpen st
  /\ selectedActionIndex st' = selectedActionIndex st
  /\ isMenuOpen st' = isMenuOpen st
  /\ isLoading st' = isLoading st
  /\ currentStatus st' = currentStatus st
  /\ executingActionId st' = executingActionId st
  /\ componentDialog st' = componentDialog st
  /\ isComponentDialogOpen st' = isComponentDialogOpen st.

(** The identifiers on the current page. *)
Definition page_ids (p : Props) (st : State) : list string :=
  map (fun c => id (customer c)) (currentCustomers p st).

(** The toggle-all-visible command: the key [a]. *)
Definition toggleAllVisible (p : Props) (st : State) : State :=
  fst (key_event p st "a" plain_key).

(** Two toggles in a row give every identifier of the page its membership
    back. *)
Definition toggle_pair_restores (p : Props) (st : State) : Prop :=
  forall i,
    i ∈ page_ids p st ->
    (i ∈ selectedCustomerIds (toggleAllVisible p (toggleAllVisible p st))
     <-> i ∈ selectedCustomerIds st).

(** Five customers [c1] .. [c5], in this order by total value, and a
    "migrate" action without batch handler whose handler reports a
    completed migration, except for [c3], where it throws. *)
Definition five_source : list Customer :=
  [ sample_customer "c1" None (owes 500);
    sample_customer "c2" None (owes 400);
    sample_customer "c3" None (owes 300);
    sample_customer "c4" None (owes 200);
    sample_customer "c5" None (owes 100) ].

Definition sample_handler (i : string) (c : Customer) : HandlerRun :=
  if String.eqb i "c3"
  then {| reported := ["Migrating"];
          handler_end := PromiseRejects (ErrorObj "boom") |}
  else {| reported := ["Migration completed successfully"];
          handler_end := PromiseResolves |}.

Definition migrate_action : ActionOption :=
  {| action_id := "migrate"; label := "Migrate"; description := None;
     handler := sample_handler; batchHandler := None |}.

Definition sample_props (perPage : option Num) : Props :=
  {| customers := five_source; planName := "free";
     livePlanPrices := ∅;
     config := {| actions := [migrate_action];
                  creditSystem := credits_by (Fin 100);
                  ui_itemsPerPage := perPage |};
     fuzzysort_single := no_match |}.

(** The state after a list of key presses. *)
Definition press_keys (p : Props) (keys : list (string * Key)) (st : State)
  : State :=
  fold_left (fun s k => fst (key_event p s (fst k) (snd k))) keys st.

(** The batch progress view, reached from the first render: multi-select
    on, all of the page selected, menu opened, "migrate" confirmed. *)
Definition start_migration_keys : list (string * Key) :=
  [("m", plain_key); ("a", plain_key); ("", key_return)].

Definition batch_view_state : State :=
  fst (key_event (sample_props None)
         (press_keys (sample_props None) start_migration_keys initial_state)
         "" key_return).

(** Multi-select mode just entered, and with the cursor's customer [c1]
    selected. *)
Definition multi_select_state : State :=
  press_keys (sample_props None) [("m", plain_key)] initial_state.

Definition one_selected_state : State :=
  press_keys (sample_props None) [("m", plain_key); ("s", plain_key)]
    initial_state.

(** ** The fallback loop *)

(** The handler calls of a trace, with their positions, and the positions
    reported as invalid. *)
Fixpoint handler_calls (t : list TraceEvent) : list (nat * string) :=
  match t with
  | [] => []
  | HandlerCalled i cid _ :: t' => (i, cid) :: handler_calls t'
  | _ :: t' => handler_calls t'
  end.

Fixpoint diagnostics (t : list TraceEvent) : list nat :=
  match t with
  | [] => []
  | InvalidCustomerData i :: t' => i :: diagnostics t'
  | _ :: t' => diagnostics t'
  end.

(** At most one handler call is in flight: a call is only made when none
    is in flight, and what settles or fails is the call in flight. *)
Fixpoint sequential (inflight : option nat) (t : list TraceEvent) : bool :=
  match t with
  | [] => true
  | HandlerCalled i _ _ :: t' =>
      match inflight with
      | None => sequential (Some i) t'
      | Some _ => false
      end
  | HandlerSettled i :: t' | HandlerFailed i _ :: t' =>
      match inflight with
      | Some j => (i =? j)%nat && sequential None t'
      | None => false
      end
  | _ :: t' => sequential inflight t'
  end.

(** The pair at position [i0 + n] of the arrays, for the ids from [i0] on:
    [None] past the end, [Some None] for a missing id or record. *)
Definition pair_at (i0 : nat) (customerIds : list (option string))
    (customers : list (option Customer)) (n : nat)
  : option (option (string * Customer)) :=
  (fun cid => valid_pair cid (mjoin (customers !! (i0 + n)%nat)))
    <$> customerIds !! n.

(** The handler call for a pair settles: it returns, or its promise
    resolves. *)
Definition settles (action : ActionOption) (x : string * Customer) : bool :=
  match handler_end (handler action (fst x) (snd x)) with
  | ReturnsValue | PromiseResolves => true
  | _ => false
  end.

(** It throws [e], or its promise rejects with [e]. *)
Definition throws (action : ActionOption) (x : string * Customer) (e : Thrown)
  : Prop :=
  handler_end (handler action (fst x) (snd x)) = ThrowsSync e
  \/ handler_end (handler action (fst x) (snd x)) = PromiseRejects e.

(** The calls for all valid pairs before position [n] settle. *)
Definition settle_before (action : ActionOption) (i0 : nat)
    (customerIds : list (option string)) (customers : list (option Customer))
    (n : nat) : Prop :=
  forall m x,
    (m < n)%nat -> pair_at i0 customerIds customers m = Some (Some x) ->
    settles action x = true.

(** ** Batch runs *)

(** A sequence of [batchStatusCallback] calls. *)
Definition apply_callbacks (callbacks : list (string * string)) (st : State)
  : State :=
  fold_left (fun s cb => batchStatusCallback (fst cb) (snd cb) s) callbacks st.

Definition pending_entry : StatusEntry :=
  {| status := pending; message := None |}.

(** The keys of the status map are the identifiers of the run, after the
    callbacks, and after an abort that follows them. *)
Definition keys_stay (r : BatchRun) (started : State)
    (callbacks : list (string * string)) : Prop :=
  dom (statusMap (apply_callbacks callbacks started))
  = list_to_set (run_customerIds r)
  /\ forall e,
       dom (statusMap (batch_rejected r e (apply_callbacks callbacks started)))
       = list_to_set (run_customerIds r).

(** A status callback that arrives for a superseded run is dropped. *)
Definition stale_update_discarded (now : State) (customerId msg : string)
  : Prop :=
  statusMap (batchStatusCallback customerId msg now) = statusMap now.

(** The menu is open on the first render's page with everything selected
    ([c1] .. [c5]); confirming starts the first run. *)
Definition menu_open_state : State :=
  press_keys (sample_props None) start_migration_keys initial_state.

Definition first_run : BatchRun :=
  batch_closure (sample_props None) menu_open_state.

(** The first run's view is closed with escape ... *)
Definition closed_view_state : State :=
  fst (key_event (sample_props None) batch_view_state "" key_escape).

(** ... and a second run is started for [c2] alone: multi-select on, cursor
    down, select, confirm (the menu is still open). *)
Definition second_run_keys : list (string * Key) :=
  [("", key_escape); ("m", plain_key); ("", key_down); ("s", plain_key);
   ("", key_return); ("", key_return)].

Definition second_run_state : State :=
  press_keys (sample_props None) second_run_keys closed_view_state.

(** The first run from its start to the moment its third handler call
    throws, and to the end of the [catch] block. *)
Definition first_run_trace : list TraceEvent * BatchResult :=
  executeBatchAction migrate_action (map Some (run_customerIds first_run))
    (map Some (run_customers first_run)) true.

Definition state_at_throw : State :=
  fold_left (fun s ev => apply_trace_event ev s) (fst first_run_trace)
    batch_view_state.

Definition state_after_abort : State :=
  finish_batch first_run batch_view_state.

Definition entry (s : Status) (m : string) : StatusEntry :=
  {| status := s; message := Some m |}.

(** Two customers per page; [c1] is selected on the first page, [c3] on the
    second one, then the menu is opened on the first page. *)
Definition cross_page_keys : list (string * Key) :=
  [("m", plain_key); ("s", plain_key); ("", key_right); ("s", plain_key);
   ("", key_left); ("", key_return)].

Definition cross_page_state : State :=
  press_keys (sample_props (Some (Fin 2))) cross_page_keys initial_state.

(** The same selection with the menu opened on the third page ([c5]). *)
Definition off_page_keys : list (string * Key) :=
  [("m", plain_key); ("s", plain_key); ("", key_right); ("s", plain_key);
   ("", key_right); ("", key_return)].

Definition off_page_state : State :=
  press_keys (sample_props (Some (Fin 2))) off_page_keys initial_state.

(** The identifiers a confirm passes to [executeBatchAction]. *)
Definition dispatched_ids (d : Dispatch) : option (list string) :=
  match d with
  | CallBatch r => Some (run_customerIds r)
  | _ => None
  end.

(** The status events of one handler call in the loop. *)
Definition statuses_of (action : ActionOption) (withCallback : bool)
    (x : string * Customer) : list TraceEvent :=
  if withCallback
  then map (StatusReported (fst x)) (reported (handler action (fst x) (snd x)))
  else [].

(** How the loop ends at a call that does not settle. *)
Definition stop_at (action : ActionOption) (i : nat) (x : string * Customer)
  : list TraceEvent * BatchResult :=
  match handler_end (handler action (fst x) (snd x)) with
  | ThrowsSync e | PromiseRejects e => ([HandlerFailed i e], Rejected e)
  | _ => ([], NeverSettles)
  end.

(** What the key [a] does in multi-select mode. *)
Definition toggled (pg : list string) (sel : gset string) : gset string :=
  if forallb (fun i => bool_decide (i ∈ sel)) pg
  then sel ∖ list_to_set pg
  else sel ∪ list_to_set pg.

(** The closure's map is an older object than the one in the state cell. *)
Definition closure_map_is_old (r : BatchRun) (st : State) : Prop :=
  run_statuses r <> migrationStatuses st /\ (run_statuses r < nextRef st)%nat.

(** The status callbacks of a trace, as identifier and message. *)
Fixpoint reported_statuses (t : list TraceEvent) : list (string * string) :=
  match t with
  | [] => []
  | StatusReported cid msg :: t' => (cid, msg) :: reported_statuses t'
  | _ :: t' => reported_statuses t'
  end.

(** [c1] and [c3] selected on one page, the menu open. *)
Definition two_selected_state : State :=
  press_keys (sample_props None)
    [("m", plain_key); ("s", plain_key); ("", key_down); ("", key_down);
     ("s", plain_key); ("", key_return)]
    initial_state.

(** ** Every transition of [CustomerTable] *)

(** What can happen to the component: a key press, an event of the search
    box (which is only rendered in search mode), a status callback or the
    end of a batch run, a status, the result, the failure or the timer of a
    single action. *)
Inductive Event :=
| KeyPress (input : string) (key : Key)
| SearchChange (query : string)
| SearchSubmit (query : string)
| StatusCallback (customerId msg : string)
| BatchRejected (r : BatchRun) (e : Thrown)
| BatchResolved (r : BatchRun)
| SingleStatus (s : string)
| SingleSettled (result : option Element)
| SingleFailed (e : Thrown)
| SingleTimeout.

(** The state after an event and the effects of the re-render. *)
Definition step (p : Props) (st : State) (ev : Event) : State :=
  match ev with
  | KeyPress input key => fst (key_event p st input key)
  | SearchChange q =>
      if isFuzzySearchMode st then run_effects st (search_onChange q st)
      else st
  | SearchSubmit q =>
      if isFuzzySearchMode st then run_effects st (search_onSubmit q st)
      else st
  | StatusCallback cid msg => batchStatusCallback cid msg st
  | BatchRejected r e => batch_rejected r e st
  | BatchResolved r => batch_resolved r st
  | SingleStatus s => updateStatus s st
  | SingleSettled result => single_settled result st
  | SingleFailed e => single_failed e st
  | SingleTimeout => single_timeout st
  end.





(** The page with number [k] of the current view. *)
Definition page_at (p : Props) (st : State) (k : nat) : list Entry :=
  currentCustomers p (setCurrentPage k st).

(** The cursor is on a row of the page (or [0]) and the page is a page of
    the view (or [0]). *)
Definition in_range (p : Props) (st : State) : Prop :=
  (selectedCustomerIndex st = 0%nat
   \/ (selectedCustomerIndex st < List.length (currentCustomers p st))%nat)
  /\ (currentPage st = 0%nat
      \/ ltb (of_nat (currentPage st)) (totalPages p st) = true).

(** The identifiers of the source list. *)
Definition source_ids (p : Props) : gset string :=
  list_to_set (map id (customers p)).

(** Only identifiers of the source list are selected, and none outside
    multi-select mode. *)
Definition selection_ok (p : Props) (st : State) : Prop :=
  selectedCustomerIds st ⊆ source_ids p
  /\ (isMultiSelectMode st = false -> selectedCustomerIds st = ∅).

(** The menu cursor is on an action (or [0]). *)
Definition menu_cursor_ok (p : Props) (st : State) : Prop :=
  selectedActionIndex st = 0%nat
  \/ (selectedActionIndex st < List.length (actions (config p)))%nat.

(** An overlay above the search box is open. *)
Definition overlay_above_search (st : State) : bool :=
  isBatchMigrationInProgress st || isHelpOpen st || isComponentDialogOpen st
  || isFullScreenDetailsOpen st.

(** How a transition may move the page, the cursor, the filter and the
    query: not at all; the cursor to a row of the page or upwards; the page
    backwards or to another page of the view; the filter; the query to a
    blank one; the page and the cursor to [0]. *)
Inductive NavChange (p : Props) (st st' : State) : Prop :=
| nav_same :
    currentPage st' = currentPage st ->
    selectedCustomerIndex st' = selectedCustomerIndex st ->
    hideZeroCreditUsers st' = hideZeroCreditUsers st ->
    fuzzySearchQuery st' = fuzzySearchQuery st ->
    NavChange p st st'
| nav_cursor :
    currentPage st' = currentPage st ->
    hideZeroCreditUsers st' = hideZeroCreditUsers st ->
    fuzzySearchQuery st' = fuzzySearchQuery st ->
    (selectedCustomerIndex st' < List.length (currentCustomers p st)
     \/ selectedCustomerIndex st' < selectedCustomerIndex st)%nat ->
    NavChange p st st'
| nav_page :
    hideZeroCreditUsers st' = hideZeroCreditUsers st ->
    fuzzySearchQuery st' = fuzzySearchQuery st ->
    currentPage st' <> currentPage st ->
    ((currentPage st' < currentPage st)%nat
     \/ ltb (of_nat (currentPage st')) (totalPages p st) = true) ->
    NavChange p st st'
| nav_filter :
    hideZeroCreditUsers st' <> hideZeroCreditUsers st ->
    NavChange p st st'
| nav_query :
    currentPage st' = currentPage st ->
    selectedCustomerIndex st' = selectedCustomerIndex st ->
    hideZeroCreditUsers st' = hideZeroCreditUsers st ->
    JsString.trim_is_empty (fuzzySearchQuery st') = true ->
    NavChange p st st'
| nav_reset :
    currentPage st' = 0%nat ->
    selectedCustomerIndex st' = 0%nat ->
    NavChange p st st'.

(** How a key press may change the selection: it empties it; it keeps it,
    in the same mode or entering multi-select mode; or, in multi-select
    mode, it adds or removes identifiers of the page. *)
Definition SelChange (p : Props) (st st' : State) : Prop :=
  selectedCustomerIds st' = ∅
  \/ (selectedCustomerIds st' = selectedCustomerIds st
      /\ (isMultiSelectMode st' = isMultiSelectMode st
          \/ isMultiSelectMode st' = true))
  \/ (isMultiSelectMode st' = true
      /\ selectedCustomerIds st'
         ⊆ selectedCustomerIds st ∪ list_to_set (page_ids p st)).

(** How a transition may move the menu cursor: to [0], upwards, or to an
    action. *)
Definition MenuChange (p : Props) (st st' : State) : Prop :=
  selectedActionIndex st' = 0%nat
  \/ (selectedActionIndex st' <= selectedActionIndex st)%nat
  \/ (selectedActionIndex st' < List.length (actions (config p)))%nat.

(** The state but for the [Map] objects and the reference to them. *)
Definition forget_maps (st : State) : State :=
  setNextRef 0 (setHeap ∅ (setMigrationStatuses 0 st)).

(** The view for a filter setting and a query. *)
Definition view_of (p : Props) (hideZero : bool) (query : string) : list Entry :=
  sortedCustomers (fuzzysort_single p) (livePlanPrices p)
    (creditSystem (config p)) hideZero query (customers p).

(** The page with number [page] of a view, and the number of pages. *)
Definition page_of (p : Props) (view : list Entry) (page : nat) : list Entry :=
  js_slice view (mul (of_nat page) (itemsPerPage p))
    (mul (of_nat (page + 1)) (itemsPerPage p)).

Definition pages_of (p : Props) (view : list Entry) : Num :=
  ceil (div (of_nat (List.length view)) (itemsPerPage p)).

(** [in_range] on the four cells it depends on. *)
Definition cells_in_range (p : Props) (page cursor : nat) (hideZero : bool)
    (query : string) : Prop :=
  (cursor = 0%nat
   \/ (cursor < List.length (page_of p (view_of p hideZero query) page))%nat)
  /\ (page = 0%nat
      \/ ltb (of_nat page) (pages_of p (view_of p hideZero query)) = true).

(** The index of an integer bound. *)
Definition index_of (len : nat) (z : Z) : nat :=
  if (z <? 0)%Z then Z.to_nat (Z.max (Z.of_nat len + z) 0)
  else Z.to_nat (Z.min z (Z.of_nat len)).

(** The page size is the natural number [n]. *)
Definition is_count (x : Num) (n : nat) : Prop :=
  match x with
  | Fin q => (q == inject_Z (Z.of_nat n))%Q
  | _ => False
  end.

(** The state after a sequence of events, from the first render. *)
Definition run_events (p : Props) (evs : list Event) : State :=
  fold_left (step p) evs initial_state.

(** ** Sample data for the action menu *)



(** The menu opened on the first row, nothing selected. *)
Definition single_menu_state : State :=
  press_keys (sample_props None) [("", key_return)] initial_state.



(** The last message reported for a customer, if any. *)
Definition last_report (callbacks : list (string * string)) (i : string)
  : option string :=
  fold_left
    (fun acc cb => if String.eqb (fst cb) i then Some (snd cb) else acc)
    callbacks None.

(** ** The view and the source data *)

(** Every divisor of the configuration is a number [> 0]. *)
Definition positive_divisors (cfg : CreditSystemConfig) : bool :=
  forallb (fun cc => gtb (divisor cc) zero) (credit_configs cfg).

(** The customer has a negative balance under a configured credit key. *)
Definition has_debt (c : Customer) (cfg : CreditSystemConfig) : Prop :=
  exists cc f b,
    cc ∈ credit_configs cfg /\ feature_of c (key cc) = Some f
    /\ balance f = Some b /\ ltb b zero = true.

(** ** [CustomTable], [CustomTableWithHighlight]: text cells

    A JavaScript string is a sequence of UTF-16 code units; [length],
    [slice], [padStart], [padEnd] and [repeat] count code units. *)

Module JsText.

Definition CodeUnit := N.
Definition JsStr := list CodeUnit.

(** The code units of an ASCII literal. *)
Definition units_of (s : string) : JsStr :=
  map N_of_ascii (list_ascii_of_string s).

Definition space : CodeUnit := 32%N.

(** [s.slice(0, e)] for an integer [e]: a negative [e] counts from the
    end. *)
Definition slice_to (s : JsStr) (e : Z) : JsStr :=
  let len := Z.of_nat (List.length s) in
  let stop := if (e <? 0)%Z then Z.max (len + e) 0 else Z.min e len in
  take (Z.to_nat stop) s.

(** [s.padStart(targetLength, ' ')], [s.padEnd(targetLength, ' ')] *)
Definition padStart (s : JsStr) (targetLength : Z) : JsStr :=
  replicate (Z.to_nat (targetLength - Z.of_nat (List.length s))) space ++ s.

Definition padEnd (s : JsStr) (targetLength : Z) : JsStr :=
  s ++ replicate (Z.to_nat (targetLength - Z.of_nat (List.length s))) space.

(** [c.repeat(count)]: a [RangeError] for a negative count. *)
Definition repeat_unit (c : CodeUnit) (count : Z) : option JsStr :=
  if (count <? 0)%Z then None else Some (replicate (Z.to_nat count) c).

End JsText.

Import JsText.

(** A cell value, as far as [formatCell] looks at it: whether it is truthy
    and the text [String(value)]. *)
Record CellValue := { cell_truthy : bool; cell_text : JsStr }.

(** A string as a value: the empty string is falsy. *)
Definition text_cell (s : JsStr) : CellValue :=
  {| cell_truthy := negb (List.length s =? 0)%nat; cell_text := s |}.

(** [undefined], the value of a missing property. *)
Definition undefined_cell : CellValue :=
  {| cell_truthy := false; cell_text := units_of "undefined" |}.

(** [String(value || '')] *)
Definition cell_str (value : CellValue) : JsStr :=
  if cell_truthy value then cell_text value else [].

(** [formatCell(value, width, align = 'left')], for an integer [width]. *)
Definition formatCell (value : CellValue) (width : Z) (align : option string)
  : JsStr :=
  let str := cell_str value in
  let content :=
    if (width <? Z.of_nat (List.length str))%Z
    then slice_to str (width - 3) ++ units_of "..."
    else str in
  let align := default "left" align in
  if String.eqb align "right" then padStart content width
  else if String.eqb align "center" then
    let totalPadding := (width - Z.of_nat (List.length content))%Z in
    let leftPad := (totalPadding / 2)%Z in
    padEnd (padStart content (Z.of_nat (List.length content) + leftPad)) width
  else padEnd content width.

(** [interface TableColumn] *)
Record TableColumn := {
  col_key : JsStr;
  col_label : JsStr;
  col_width : option Z;
  col_align : option string
}.

(** A row object: its own properties, in the order of [Object.keys]. *)
Definition TableRow := list (JsStr * CellValue).

(** [row[k]] *)
Definition row_get (row : TableRow) (k : JsStr) : CellValue :=
  match List.find (fun kv => bool_decide (fst kv = k)) row with
  | Some kv => snd kv
  | None => undefined_cell
  end.

(** [col.width || 12] *)
Definition width_of (col : TableColumn) : Z :=
  match col_width col with
  | None | Some 0%Z => 12
  | Some w => w
  end.

(** The columns when the [columns] prop is missing: one per key of the
    first row that [keep] lets through. *)
Definition default_columns (keep : JsStr -> bool) (data : list TableRow)
  : list TableColumn :=
  map (fun k => {| col_key := k; col_label := k;
                   col_width := Some (Z.max (Z.of_nat (List.length k)) 12);
                   col_align := Some "left" |})
    (List.filter keep (map fst (default [] (head data)))).

(** [tableColumns.map((col, index) => text(col) + (index <
    tableColumns.length - 1 ? sep : '')).join('')] *)
Definition table_line (tableColumns : list TableColumn)
    (text : TableColumn -> JsStr) (sep : JsStr) : JsStr :=
  List.concat
    (imap (fun index col =>
             text col
             ++ (if (Z.of_nat index <? Z.of_nat (List.length tableColumns) - 1)%Z
                 then sep else []))
       tableColumns).

(** The box-drawing characters of the separators. *)
Definition bar : JsStr := [32; 9474; 32]%N.        (* ' │ ' *)
Definition cross : JsStr := [9472; 9532; 9472]%N.  (* '─┼─' *)
Definition dash : CodeUnit := 9472%N.              (* '─' *)

(** The text lines of a rendered table. *)
Record TableLines := {
  header_line : JsStr;
  rule_line : JsStr;
  data_lines : list JsStr
}.

(** The rule under the header; [None] when a [repeat] throws. *)
Definition rule_of (tableColumns : list TableColumn) : option JsStr :=
  if forallb (fun col => bool_decide (is_Some (repeat_unit dash (width_of col))))
       tableColumns
  then Some (table_line tableColumns
               (fun col => default [] (repeat_unit dash (width_of col))) cross)
  else None.

Inductive Rendered :=
| NoData                       (* "No data available" *)
| Throws                       (* a [RangeError] from [repeat] *)
| Lines (t : TableLines).

(** [CustomTable] *)
Definition CustomTable (data : list TableRow)
    (columns : option (list TableColumn)) : Rendered :=
  if (List.length data =? 0)%nat then NoData
  else
    let tableColumns :=
      match columns with
      | Some cs => cs
      | None => default_columns (fun _ => true) data
      end in
    match rule_of tableColumns with
    | None => Throws
    | Some rule =>
        Lines
          {| header_line :=
               table_line tableColumns
                 (fun col => formatCell (text_cell (col_label col))
                               (width_of col) (col_align col)) bar;
             rule_line := rule;
             data_lines :=
               map (fun row =>
                      table_line tableColumns
                        (fun col => formatCell (row_get row (col_key col))
                                      (width_of col) (col_align col)) bar)
                 data |}
    end.

(** The two code units in front of a row of [CustomTableWithHighlight]. *)
Definition row_prefix (row : TableRow) : JsStr :=
  let isSelected := cell_truthy (row_get row (units_of "_isSelected")) in
  let isMultiSelected :=
    cell_truthy (row_get row (units_of "_isMultiSelected")) in
  if isMultiSelected && isSelected then [9733; 9654]%N       (* '★▶' *)
  else if isMultiSelected then [9733; 32]%N                  (* '★ ' *)
  else if isSelected then [8594; 32]%N                       (* '→ ' *)
  else [32; 32]%N.

(** [!key.startsWith('_')] *)
Definition no_underscore (k : JsStr) : bool :=
  match k with
  | 95%N :: _ => false
  | _ => true
  end.

(** [CustomTableWithHighlight] *)
Definition CustomTableWithHighlight (data : list TableRow)
    (columns : option (list TableColumn)) : Rendered :=
  if (List.length data =? 0)%nat then NoData
  else
    let tableColumns :=
      match columns with
      | Some cs => cs
      | None => default_columns no_underscore data
      end in
    match rule_of tableColumns with
    | None => Throws
    | Some rule =>
        Lines
          {| header_line :=
               [32; 32]%N
               ++ table_line tableColumns
                    (fun col => formatCell (text_cell (col_label col))
                                  (width_of col) (col_align col)) bar;
             rule_line := [32; 32]%N ++ rule;
             data_lines :=
               map (fun row =>
                      row_prefix row
                      ++ table_line tableColumns
                           (fun col => formatCell (row_get row (col_key col))
                                         (width_of col) (col_align col)) bar)
                 data |}
    end.

(** The width of a table: the columns and the separators between them. *)
Definition table_width (cols : list TableColumn) : Z :=
  fold_right (fun col acc => (width_of col + acc)%Z) 0%Z cols
  + 3 * Z.of_nat (List.length cols - 1).

(** The lines of a rendered table all have the length [n]. *)
Definition lines_have_length (n : Z) (r : Rendered) : Prop :=
  match r with
  | Lines t =>
      Z.of_nat (List.length (header_line t)) = n
      /\ Z.of_nat (List.length (rule_line t)) = n
      /\ Forall (fun l => Z.of_nat (List.length l) = n) (data_lines t)
  | _ => False
  end.

(** A plan table as [PlanSummaryTable] sets it up: the plan name, a count
    and a narrow centred column. *)
Definition sample_columns : list TableColumn :=
  [ {| col_key := units_of "Plan"; col_label := units_of "Plan Name";
       col_width := Some 22%Z; col_align := None |};
    {| col_key := units_of "Customers"; col_label := units_of "Customers";
       col_width := Some 15%Z; col_align := Some "right" |};
    {| col_key := units_of "Recent"; col_label := units_of "Recent";
       col_width := Some 8%Z; col_align := Some "center" |} ].

Definition sample_rows : list TableRow :=
  [ [ (units_of "Plan", text_cell (units_of "Enterprise (annual, invoiced)"));
      (units_of "Customers", text_cell (units_of "12 (40.0%)"));
      (units_of "Recent", text_cell (units_of "3"));
      (units_of "_isSelected",
       {| cell_truthy := true; cell_text := units_of "true" |}) ];
    [ (units_of "Plan", text_cell (units_of "Free"));
      (units_of "Customers", text_cell (units_of "18 (60.0%)")) ] ].

(** ** [billing-config]: configuration objects and [ConfigBuilder]

    The configuration objects and their [ui] objects live in a store:
    [{ ...baseConfig }] copies the properties of an object, so the copy
    refers to the same [ui] object. *)

(** The [ui] object. *)
Record UiObject := {
  ui_items : option Num;             (* itemsPerPage?: number *)
  ui_colors : option (list string)   (* colors *)
}.

(** A configuration object: [customerDetails] is kept as a name, [ui] is a
    reference. *)
Record ConfigObject := {
  obj_actions : list ActionOption;
  obj_creditSystem : CreditSystemConfig;
  obj_customerDetails : string;
  obj_ui : option Ref
}.

Record Store := {
  configs : gmap Ref ConfigObject;
  uis : gmap Ref UiObject;
  next : Ref
}.

(** What a component reads from the configuration behind [r]. *)
Definition read_config (s : Store) (r : Ref) : option BillingAnalysisConfig :=
  c ← configs s !! r;
  Some {| actions := obj_actions c;
          creditSystem := obj_creditSystem c;
          ui_itemsPerPage := u ← obj_ui c; o ← uis s !! u; ui_items o |}.

(** [new ConfigBuilder(baseConfig)]: [this.config = { ...baseConfig }].  The
    builder is identified with its [config] object. *)
Definition new_ConfigBuilder (baseConfig : Ref) (s : Store) : Ref * Store :=
  match configs s !! baseConfig with
  | Some c =>
      (next s,
       {| configs := <[next s := c]> (configs s); uis := uis s;
          next := S (next s) |})
  | None => (baseConfig, s)
  end.

Definition set_config (b : Ref) (f : ConfigObject -> ConfigObject) (s : Store)
  : Store :=
  {| configs := alter f b (configs s); uis := uis s; next := next s |}.

(** [withActions], [withCreditSystem], [withCustomerDetails] *)
Definition withActions (a : list ActionOption) (b : Ref) (s : Store) : Store :=
  set_config b
    (fun c => {| obj_actions := a; obj_creditSystem := obj_creditSystem c;
                 obj_customerDetails := obj_customerDetails c;
                 obj_ui := obj_ui c |}) s.

Definition withCreditSystem (cs : CreditSystemConfig) (b : Ref) (s : Store)
  : Store :=
  set_config b
    (fun c => {| obj_actions := obj_actions c; obj_creditSystem := cs;
                 obj_customerDetails := obj_customerDetails c;
                 obj_ui := obj_ui c |}) s.

Definition withCustomerDetails (d : string) (b : Ref) (s : Store) : Store :=
  set_config b
    (fun c => {| obj_actions := obj_actions c;
                 obj_creditSystem := obj_creditSystem c;
                 obj_customerDetails := d; obj_ui := obj_ui c |}) s.

(** [withItemsPerPage]: [if (!this.config.ui) this.config.ui = {};
    this.config.ui.itemsPerPage = count] *)
Definition withItemsPerPage (count : Num) (b : Ref) (s : Store) : Store :=
  match configs s !! b with
  | None => s
  | Some c =>
      let '(u, s1) :=
        match obj_ui c with
        | Some u => (u, s)
        | None =>
            (next s,
             {| configs :=
                  <[b := {| obj_actions := obj_actions c;
                            obj_creditSystem := obj_creditSystem c;
                            obj_customerDetails := obj_customerDetails c;
                            obj_ui := Some (next s) |}]> (configs s);
                uis := <[next s := {| ui_items := None; ui_colors := None |}]>
                         (uis s);
                next := S (next s) |})
        end in
      {| configs := configs s1;
         uis := alter (fun o => {| ui_items := Some count;
                                   ui_colors := ui_colors o |}) u (uis s1);
         next := next s1 |}
  end.

(** [build()] returns [this.config]. *)
Definition build (b : Ref) : Ref := b.

(** The calls a builder chain can make. *)
Inductive BuilderCall :=
| WithActions (a : list ActionOption)
| WithCreditSystem (cs : CreditSystemConfig)
| WithCustomerDetails (d : string)
| WithItemsPerPage (count : Num).

Definition builder_call (b : Ref) (s : Store) (call : BuilderCall) : Store :=
  match call with
  | WithActions a => withActions a b s
  | WithCreditSystem cs => withCreditSystem cs b s
  | WithCustomerDetails d => withCustomerDetails d b s
  | WithItemsPerPage n => withItemsPerPage n b s
  end.

(** [createConfig(baseConfig).call1(..).call2(..) .. .build()] *)
Definition createConfig_chain (baseConfig : Ref) (calls : list BuilderCall)
    (s : Store) : Ref * Store :=
  let '(b, s1) := new_ConfigBuilder baseConfig s in
  (build b, fold_left (builder_call b) calls s1).

(** Every reference of the store is below [next]. *)
Definition store_ok (s : Store) : Prop :=
  (forall r, is_Some (configs s !! r) -> (r < next s)%nat)
  /\ (forall r, is_Some (uis s !! r) -> (r < next s)%nat)
  /\ (forall r c u, configs s !! r = Some c -> obj_ui c = Some u ->
                    is_Some (uis s !! u)).

(** The [itemsPerPage] that a call writes. *)
Definition items_written (call : BuilderCall) : option Num :=
  match call with WithItemsPerPage n => Some n | _ => None end.

(** The last [withItemsPerPage] of a chain. *)
Definition last_items (calls : list BuilderCall) : option Num :=
  last (omap items_written calls).

(** [o] with [itemsPerPage] set to [n], if there is an [n]. *)
Definition with_items (n : option Num) (o : UiObject) : UiObject :=
  {| ui_items := match n with Some k => Some k | None => ui_items o end;
     ui_colors := ui_colors o |}.

(** *** The objects of the module *)

(** [alternativeCreditSystems.tokens], [.multiCredit] *)
Definition tokens : CreditSystemConfig :=
  {| primary := {| key := "ai-tokens"; credit_name := "AI Tokens";
                   displayName := "Tokens"; currency := "";
                   divisor := Fin 1 |};
     secondary := None |}.

Definition multiCredit : CreditSystemConfig :=
  {| primary := {| key := "gpu-credit"; credit_name := "GPU Credits";
                   displayName := "GPU Credits"; currency := "$";
                   divisor := Fin 100 |};
     secondary :=
       Some [ {| key := "cpu-credit"; credit_name := "CPU Credits";
                 displayName := "CPU Credits"; currency := "$";
                 divisor := Fin 100 |};
              {| key := "storage-credit"; credit_name := "Storage Credits";
                 displayName := "Storage"; currency := "$";
                 divisor := Fin 100 |} ] |}.

(** [defaultActionsConfig.actions]: the handler opens a browser and returns
    nothing. *)
Definition defaultActions : list ActionOption :=
  [ {| action_id := "autumn"; label := "Open in Autumn";
       description := Some "View customer in Autumn dashboard";
       handler := fun _ _ => {| reported := []; handler_end := ReturnsValue |};
       batchHandler := None |} ].

(** The references of [defaultConfig] (which is [configurations.default]),
    [configurations.tokenBased], [.multiCredit] and [.compact]. *)
Definition defaultConfig : Ref := 0%nat.
Definition tokenBased : Ref := 1%nat.
Definition multiCreditConfig : Ref := 2%nat.
Definition compact : Ref := 3%nat.

Definition module_store : Store :=
  let colors := Some ["cyan"; "yellow"; "green"] in
  {| configs :=
       {[ defaultConfig :=
            {| obj_actions := defaultActions; obj_creditSystem := tokens;
               obj_customerDetails := "default"; obj_ui := Some 4%nat |};
          tokenBased :=
            {| obj_actions := defaultActions; obj_creditSystem := tokens;
               obj_customerDetails := "compact"; obj_ui := Some 4%nat |};
          multiCreditConfig :=
            {| obj_actions := defaultActions; obj_creditSystem := multiCredit;
               obj_customerDetails := "default"; obj_ui := Some 4%nat |};
          compact :=
            {| obj_actions := defaultActions; obj_creditSystem := tokens;
               obj_customerDetails := "compact"; obj_ui := Some 5%nat |} ]};
     uis := {[ 4%nat := {| ui_items := Some (Fin 10); ui_colors := colors |};
               5%nat := {| ui_items := Some (Fin 15); ui_colors := colors |} ]};
     next := 6 |}.

(** The items per page that a configuration gives a table. *)
Definition items_of (s : Store) (r : Ref) : option Num :=
  cfg ← read_config s r; ui_itemsPerPage cfg.

(** ** [BillingAnalysisApp]: [fetchData] *)

(** An item of a product, a product of [autumn.products.list()], with the
    fields the code reads. *)
Record PriceItem := {
  item_type : option string;
  item_price : option Num;
  item_interval : option string
}.

Record ApiProduct := {
  api_id : string;
  api_name : option string;
  api_group : option string;
  api_items : option (list PriceItem)
}.

(** [product.items.find(item => item.type === "price")], for a product of
    the group "plan" with items. *)
Definition price_item (product : ApiProduct) : option PriceItem :=
  if bool_decide (api_group product = Some "plan")
     && (0 <? List.length (default [] (api_items product)))%nat
  then List.find (fun item => bool_decide (item_type item = Some "price"))
         (default [] (api_items product))
  else None.

(** [priceItem.price || 0], divided by 12 for the interval "year". *)
Definition monthly_price (priceItem : PriceItem) : Num :=
  let price :=
    match item_price priceItem with
    | Some v => if truthy v then v else zero
    | None => zero
    end in
  if bool_decide (item_interval priceItem = Some "year")
  then div price (Fin 12) else price.

(** *** A plain object as a dictionary

    [pricesLookup] is a plain object [{}] with number values.  The map holds
    its own properties; a name that is no own property is looked up in
    [Object.prototype]. *)

(** The property names that every object inherits from
    [Object.prototype]: for such a name [o[k]] is not [undefined] although
    nothing was stored under it. *)
Definition inherited_names : list string :=
  ["constructor"; "__defineGetter__"; "__defineSetter__"; "hasOwnProperty";
   "__lookupGetter__"; "__lookupSetter__"; "isPrototypeOf";
   "propertyIsEnumerable"; "toString"; "valueOf"; "__proto__";
   "toLocaleString"].

(** What [o[k]] gives: an own number, a member of [Object.prototype] (a
    function or an object, not a number), or [undefined]. *)
Inductive Member := Own (v : Num) | Inherited | Missing.

Definition object_get (o : gmap string Num) (k : string) : Member :=
  match o !! k with
  | Some v => Own v
  | None => if bool_decide (k ∈ inherited_names) then Inherited else Missing
  end.

(** [o[k] = v] for a number [v].  [__proto__] is an accessor of
    [Object.prototype] whose setter ignores a number; every other name
    becomes an own property. *)
Definition object_set (o : gmap string Num) (k : string) (v : Num)
  : gmap string Num :=
  if String.eqb k "__proto__" then o else <[k := v]> o.

(** The body of [products.data.list.forEach]. *)
Definition add_product (pricesLookup : gmap string Num) (product : ApiProduct)
  : gmap string Num :=
  match price_item product with
  | Some priceItem =>
      let price := monthly_price priceItem in
      let lookup1 := object_set pricesLookup (api_id product) price in
      if str_truthy (api_name product)
      then object_set lookup1 (default "" (api_name product)) price
      else lookup1
  | None => pricesLookup
  end.

(** [pricesLookup] for the response [products?.data?.list]. *)
Definition build_pricesLookup (products : option (list ApiProduct))
  : gmap string Num :=
  fold_left add_product (default [] products) ∅.

(** What [getPlanPrice] returns: a number, or the member of
    [Object.prototype] that the lookup found under a name. *)
Inductive PlanPrice := PriceIs (v : Num) | MemberOf (k : string).

(** [k && pricesLookup[k]], where a falsy [k] is not looked up. *)
Definition lookup_by (pricesLookup : gmap string Num) (k : option string)
  : Member :=
  if str_truthy k then object_get pricesLookup (default "" k) else Missing.

(** [getPlanPrice] of [fetchData], and of [CustomerTable] on the same
    object. *)
Definition fetchData_getPlanPrice (pricesLookup : gmap string Num) (plan : option Product)
  : PlanPrice :=
  match plan with
  | None => PriceIs zero
  | Some p =>
      match lookup_by pricesLookup (product_id p) with
      | Own v => PriceIs v
      | Inherited => MemberOf (default "" (product_id p))
      | Missing =>
          match lookup_by pricesLookup (product_name p) with
          | Own v => PriceIs v
          | Inherited => MemberOf (default "" (product_name p))
          | Missing => PriceIs zero
          end
      end
  end.

(** The keys that a product assigns to. *)
Definition written_keys (product : ApiProduct) : list string :=
  match price_item product with
  | Some _ =>
      api_id product
      :: (if str_truthy (api_name product)
          then [default "" (api_name product)] else [])
  | None => []
  end.

(** What [autumn.customers.list({ offset, limit })] answers: a response
    with [data?.list], or a rejection. *)
Inductive ApiResponse :=
| ApiList (l : option (list Customer))
| ApiRejects (e : Thrown).

(** How the [do .. while] loop ends, with the number of requests made. *)
Inductive FetchEnd :=
| Fetched (allCustomers : list Customer) (requests : nat)
| FetchFailed (e : Thrown).

Section FetchLoop.
Variable customers_list : nat -> nat -> ApiResponse.

(** The loop from the request with [offset] on; [pageNum] is the number of
    this request.  [None]: the loop is still running after [fuel]
    requests. *)
Fixpoint fetch_customers (fuel : nat) (offset pageNum : nat)
    (allCustomers : list Customer) : option FetchEnd :=
  match fuel with
  | O => None
  | S fuel' =>
      match customers_list offset 100 with
      | ApiRejects e => Some (FetchFailed e)
      | ApiList l =>
          let customers := default [] l in
          if (List.length customers =? 0)%nat
          then Some (Fetched allCustomers pageNum)
          else
            let allCustomers' := allCustomers ++ customers in
            if (List.length customers =? 100)%nat
            then fetch_customers fuel' (offset + 100) (S pageNum) allCustomers'
            else Some (Fetched allCustomers' pageNum)
      end
  end.
End FetchLoop.

(** An API that serves a fixed list of customers in slices. *)
Definition serves (db : list Customer) (offset limit : nat) : ApiResponse :=
  ApiList (Some (take limit (drop offset db))).

(** A plan billed by the year. *)
Definition yearly_pro : ApiProduct :=
  {| api_id := "pro"; api_name := Some "Pro"; api_group := Some "plan";
     api_items :=
       Some [ {| item_type := Some "feature"; item_price := None;
                 item_interval := None |};
              {| item_type := Some "price"; item_price := Some (Fin 240);
                 item_interval := Some "year" |} ] |}.

(** *** The plan analysis *)

(** A group of [PlanAnalysis], with the fields that the grouping fills
    ([environments], [hasStripeIds] and [creationDates] are only
    displayed). *)
Record PlanGroup := {
  group_customers : list Customer;
  totalCreditsUsed : Num;
  customerCount : nat;
  group_planPrice : Num;
  totalSubscriptionRevenue : Num
}.

(** [activePlan?.name || "No Active Plan"] *)
Definition planName_of (c : Customer) : string :=
  match activePlan c with
  | Some plan =>
      if str_truthy (product_name plan) then default "" (product_name plan)
      else "No Active Plan"
  | None => "No Active Plan"
  end.

(** The own properties of [analysis], in the order of their creation. *)
Definition PlanAnalysis := list (string * PlanGroup).

Fixpoint update_group (k : string) (f : PlanGroup -> PlanGroup)
    (analysis : PlanAnalysis) : PlanAnalysis :=
  match analysis with
  | [] => []
  | (k', g) :: rest =>
      if String.eqb k' k then (k', f g) :: rest
      else (k', g) :: update_group k f rest
  end.

Definition has_group (k : string) (analysis : PlanAnalysis) : bool :=
  existsb (fun kg => String.eqb (fst kg) k) analysis.

Section Analysis.
Variable pricesLookup : gmap string Num.
Variable creditSystem : CreditSystemConfig.

(** The body of [allCustomers.forEach]; [None] is the [TypeError] of
    [planGroup.customers.push] on an inherited property. *)
Definition add_customer (analysis : PlanAnalysis) (c : Customer)
  : option PlanAnalysis :=
  let planName := planName_of c in
  let creditsUsed := total (getCustomerCredits c creditSystem) in
  let planPrice := getPlanPrice pricesLookup (activePlan c) in
  if has_group planName analysis then
    Some (update_group planName
            (fun g =>
               {| group_customers := group_customers g ++ [c];
                  totalCreditsUsed := add (totalCreditsUsed g) creditsUsed;
                  customerCount := S (customerCount g);
                  group_planPrice := group_planPrice g;
                  totalSubscriptionRevenue :=
                    add (totalSubscriptionRevenue g) planPrice |})
            analysis)
  else if bool_decide (planName ∈ inherited_names) then None
  else
    Some (analysis
          ++ [(planName,
               {| group_customers := [c];
                  totalCreditsUsed := add zero creditsUsed;
                  customerCount := 1;
                  group_planPrice := planPrice;
                  totalSubscriptionRevenue := add zero planPrice |})]).

Fixpoint analyse_from (analysis : PlanAnalysis) (allCustomers : list Customer)
  : option PlanAnalysis :=
  match allCustomers with
  | [] => Some analysis
  | c :: rest =>
      match add_customer analysis c with
      | Some analysis' => analyse_from analysis' rest
      | None => None
      end
  end.

Definition analyse (allCustomers : list Customer) : option PlanAnalysis :=
  analyse_from [] allCustomers.
End Analysis.

(** The customers with the plan name [k], in the order of the list. *)
Definition with_plan (k : string) (l : list Customer) : list Customer :=
  List.filter (fun c => String.eqb (planName_of c) k) l.

(** The groups hold the customers of [l] by plan name. *)
Definition groups_of (l : list Customer) (analysis : PlanAnalysis) : Prop :=
  NoDup (map fst analysis)
  /\ (forall k, has_group k analysis = true
                 <-> (exists c, c ∈ l /\ planName_of c = k))
  /\ Forall (fun kg =>
               group_customers (snd kg) = with_plan (fst kg) l
               /\ customerCount (snd kg) = List.length (with_plan (fst kg) l))
       analysis.

(** What holds of the groups once the customers [done] are in. *)
Definition groups_inv (done : list Customer) (a : PlanAnalysis) : Prop :=
  NoDup (map fst a)
  /\ (forall k, k ∈ map fst a <-> exists c, c ∈ done /\ planName_of c = k)
  /\ Forall (fun kg =>
               group_customers (snd kg) = with_plan (fst kg) done
               /\ customerCount (snd kg)
                  = List.length (with_plan (fst kg) done)) a
  /\ List.concat (map (fun kg => group_customers (snd kg)) a) ≡ₚ done
  /\ (forall k, k ∈ map fst a -> k ∉ inherited_names).

(** ** [BillingAnalysisApp]: the views and the keys *)

Inductive View := view_loading | view_plans | view_customers | view_summary.

#[global] Instance View_eq_dec : EqDecision View.
Proof. solve_decision. Defined.

(** The [key] argument with the flag that only the application reads. *)
Record AppKey := { table_key : Key; backspace : bool }.

(** The [useState] cells of [BillingAnalysisApp] that the key handler
    reads or writes, the state of the [CustomerTable] it has mounted, and
    whether [process.exit(0)] was called. *)
Record AppState := {
  app_view : View;
  selectedPlanIndex : nat;
  app_isHelpOpen : bool;
  isAnyMenuOpen : bool;
  isAnyModalOpen : bool;
  loaded : bool;            (* [setPlanAnalysis] was called *)
  table : option State;
  exited : bool
}.

Definition setView (v : View) (app : AppState) : AppState :=
  {| app_view := v; selectedPlanIndex := selectedPlanIndex app;
     app_isHelpOpen := app_isHelpOpen app; isAnyMenuOpen := isAnyMenuOpen app;
     isAnyModalOpen := isAnyModalOpen app; loaded := loaded app;
     table := table app;
     exited := exited app |}.

Definition setSelectedPlanIndex (i : nat) (app : AppState) : AppState :=
  {| app_view := app_view app; selectedPlanIndex := i;
     app_isHelpOpen := app_isHelpOpen app; isAnyMenuOpen := isAnyMenuOpen app;
     isAnyModalOpen := isAnyModalOpen app; loaded := loaded app;
     table := table app;
     exited := exited app |}.

Definition setAppHelpOpen (b : bool) (app : AppState) : AppState :=
  {| app_view := app_view app; selectedPlanIndex := selectedPlanIndex app;
     app_isHelpOpen := b; isAnyMenuOpen := isAnyMenuOpen app;
     isAnyModalOpen := isAnyModalOpen app; loaded := loaded app;
     table := table app;
     exited := exited app |}.

Definition setTable (t : option State) (app : AppState) : AppState :=
  {| app_view := app_view app; selectedPlanIndex := selectedPlanIndex app;
     app_isHelpOpen := app_isHelpOpen app; isAnyMenuOpen := isAnyMenuOpen app;
     isAnyModalOpen := isAnyModalOpen app; loaded := loaded app;
     table := t;
     exited := exited app |}.

(** [process.exit(0)] *)
Definition process_exit (app : AppState) : AppState :=
  {| app_view := app_view app; selectedPlanIndex := selectedPlanIndex app;
     app_isHelpOpen := app_isHelpOpen app; isAnyMenuOpen := isAnyMenuOpen app;
     isAnyModalOpen := isAnyModalOpen app; loaded := loaded app;
     table := table app;
     exited := true |}.

(** What [CustomerTable] reports through [onModalStateChange]. *)
Definition table_modal (st : State) : bool :=
  isFullScreenDetailsOpen st || isMenuOpen st || isFuzzySearchMode st
  || isHelpOpen st || isComponentDialogOpen st
  || isBatchMigrationInProgress st.

Section App.
(** [sortedPlans] once [fetchData] is through, as the props that
    [CustomerTable] gets for each plan. *)
Variable plans : list Props.

(** [sortedPlans] of a render: empty until the analysis is set. *)
Definition sortedPlans (app : AppState) : list Props :=
  if loaded app then plans else [].

(** The handler that [BillingAnalysisApp] passes to [useInput]: the tests
    read the state [app] of the render, the setters act on [acc]. *)
Definition app_plans_keys (app : AppState) (key : Key) (acc : AppState)
  : AppState :=
  if bool_decide (app_view app = view_plans) then
    if upArrow key && (0 <? selectedPlanIndex app)%nat
    then setSelectedPlanIndex (selectedPlanIndex app - 1) acc
    else if downArrow key
            && (selectedPlanIndex app + 1
                  <? List.length (sortedPlans app))%nat
    then setSelectedPlanIndex (selectedPlanIndex app + 1) acc
    else if return_ key then setView view_customers acc
    else acc
  else acc.

Definition app_global_keys (app : AppState) (input : string) (key : AppKey)
    (acc : AppState) : AppState :=
  if escape (table_key key) then
    if bool_decide (app_view app = view_customers)
    then setView view_plans acc else process_exit acc
  else if String.eqb input "1" then setView view_plans acc
  else if String.eqb input "2" then setView view_customers acc
  else if String.eqb input "3" then setView view_summary acc
  else if input_is input "h" "H" then setAppHelpOpen true acc
  else if backspace key || String.eqb input "b" then
    if bool_decide (app_view app = view_customers)
    then setView view_plans acc else acc
  else acc.

Definition app_handler (app : AppState) (input : string) (key : AppKey)
  : AppState :=
  if app_isHelpOpen app then
    if escape (table_key key) || input_is input "h" "H"
    then setAppHelpOpen false app else app
  else if isAnyModalOpen app then app
  else
    app_global_keys app input key (app_plans_keys app (table_key key) app).

(** The help overlay of the application has an input handler of its own
    ([FullScreenDetails]). *)
Definition app_help_overlay (app : AppState) (key : AppKey) (acc : AppState)
  : AppState :=
  if app_isHelpOpen app && escape (table_key key)
  then setAppHelpOpen false acc else acc.

(** The render after an event: [CustomerTable] is mounted in the customers
    view when the selected plan exists, with a fresh state when it was not
    mounted before; its effect reports its menu and modal state. *)
Definition render_table (app : AppState) : AppState :=
  match bool_decide (app_view app = view_customers),
        sortedPlans app !! selectedPlanIndex app with
  | true, Some _ =>
      let st := default initial_state (table app) in
      {| app_view := app_view app; selectedPlanIndex := selectedPlanIndex app;
         app_isHelpOpen := app_isHelpOpen app;
         isAnyMenuOpen := isMenuOpen st;
         isAnyModalOpen := table_modal st;
         loaded := loaded app;
         table := Some st; exited := exited app |}
  | _, _ => setTable None app
  end.

(** One key press: the handler of the mounted table, the handlers of the
    application, then the render. *)
Definition app_key_event (app : AppState) (input : string) (key : AppKey)
  : AppState :=
  if exited app then app
  else
    let table' :=
      match table app, sortedPlans app !! selectedPlanIndex app with
      | Some st, Some p => Some (fst (key_event p st input (table_key key)))
      | t, _ => t
      end in
    let app' :=
      app_help_overlay app key (app_handler (setTable table' app) input key) in
    if exited app' then app' else render_table app'.

(** An event of the mounted table other than a key press. *)
Definition app_table_event (app : AppState) (ev : Event) : AppState :=
  if exited app then app
  else
    match ev, table app, sortedPlans app !! selectedPlanIndex app with
    | KeyPress _ _, _, _ => app
    | _, Some st, Some p => render_table (setTable (Some (step p st ev)) app)
    | _, _, _ => app
    end.

(** The end of [fetchData]: [setPlanAnalysis(analysis)] and
    [setView('plans')]. *)
Definition app_loaded (app : AppState) : AppState :=
  if exited app then app
  else if loaded app then app   (* the effect runs once *)
  else
    render_table
      {| app_view := view_plans; selectedPlanIndex := selectedPlanIndex app;
         app_isHelpOpen := app_isHelpOpen app;
         isAnyMenuOpen := isAnyMenuOpen app;
         isAnyModalOpen := isAnyModalOpen app; loaded := true;
         table := table app; exited := exited app |}.

Inductive AppEvent :=
| AppKeyPress (input : string) (key : AppKey)
| AppTableEvent (ev : Event)
| AppLoaded.

Definition app_step (app : AppState) (ev : AppEvent) : AppState :=
  match ev with
  | AppKeyPress input key => app_key_event app input key
  | AppTableEvent e => app_table_event app e
  | AppLoaded => app_loaded app
  end.

(** The first render: every [useState] initial value. *)
Definition initial_app : AppState :=
  {| app_view := view_loading; selectedPlanIndex := 0;
     app_isHelpOpen := false; isAnyMenuOpen := false;
     isAnyModalOpen := false; loaded := false; table := None;
     exited := false |}.

Definition run_app (evs : list AppEvent) : AppState :=
  fold_left app_step evs initial_app.

(** The table is mounted exactly in the customers view of an existing
    plan, and the application knows whether it shows a modal. *)
Definition app_synced (app : AppState) : Prop :=
  match table app with
  | Some st =>
      app_view app = view_customers
      /\ is_Some (sortedPlans app !! selectedPlanIndex app)
      /\ isAnyModalOpen app = table_modal st
      /\ isAnyMenuOpen app = isMenuOpen st
  | None => isAnyModalOpen app = false
  end.
End App.

Definition plain_app_key (key : Key) : AppKey :=
  {| table_key := key; backspace := false |}.

(** The customers view of the first plan, entered from the plans view, with
    the action menu of the table open. *)
Definition menu_in_customers_view : list AppEvent :=
  [AppLoaded;
   AppKeyPress "" (plain_app_key key_return);
   AppKeyPress "" (plain_app_key key_return)].

(** ** [DetailedJsonRenderer]: the fields by category *)

Inductive Category :=
| Identity | Billing | Storage | Limits | Dates | Features | Other.

#[global] Instance Category_eq_dec : EqDecision Category.
Proof. solve_decision. Defined.

(** The keys of [groups], in the order of the object literal. *)
Definition all_categories : list Category :=
  [Identity; Billing; Storage; Limits; Dates; Features; Other].

(** The chain of tests in [entries.forEach]. *)
Definition category_of (key : string) : Category :=
  if JsString.includes key "id" || String.eqb key "name"
     || String.eqb key "email" then Identity
  else if JsString.includes key "spend" || JsString.includes key "credit"
          || JsString.includes key "price" || JsString.includes key "billing"
  then Billing
  else if JsString.includes key "s3" || JsString.includes key "bucket"
          || JsString.includes key "storage" then Storage
  else if JsString.includes key "limit" || JsString.includes key "max_"
          || JsString.includes key "machine" || JsString.includes key "gpu"
  then Limits
  else if JsString.includes key "_at" || JsString.includes key "date"
  then Dates
  else if JsString.includes key "enable" || JsString.includes key "use_"
          || JsString.includes key "custom_" then Features
  else Other.

Section Grouping.
(** The values of the fields are only displayed. *)
Context {V : Type}.

(** [groups]: an array of entries per category. *)
Definition Groups := Category -> list (string * V).

(** [groups[category].push([key, value])] *)
Definition push_entry (groups : Groups) (e : string * V) : Groups :=
  fun c =>
    if bool_decide (c = category_of (fst e)) then groups c ++ [e]
    else groups c.

(** [groups] after [entries.forEach]. *)
Definition grouped (entries : list (string * V)) : Groups :=
  fold_left push_entry entries (fun _ => []).

(** [Object.entries(groups)] after the empty groups are deleted. *)
Definition shown_groups (entries : list (string * V))
  : list (Category * list (string * V)) :=
  List.filter (fun cg => negb (List.length (snd cg) =? 0)%nat)
    (map (fun c => (c, grouped entries c)) all_categories).

(** The entries of the category [c], in the order of the object. *)
Definition of_category (c : Category) (entries : list (string * V))
  : list (string * V) :=
  List.filter (fun e => bool_decide (category_of (fst e) = c)) entries.
End Grouping.

(** ** The rows of the customer table *)

Section CustomerRows.
(** The UTF-16 code units of a string; [n.toFixed(2)]; the text
    [credits.primary.formatted] of a customer. *)
Variable utf16 : string -> JsStr.
Variable toFixed2 : Num -> JsStr.
Variable formatted_primary : Customer -> JsStr.

(** [s || fallback] *)
Definition or_text (s : option string) (fallback : string) : JsStr :=
  if str_truthy s then utf16 (default "" s) else units_of fallback.

(** A boolean as a cell value. *)
Definition bool_cell (b : bool) : CellValue :=
  {| cell_truthy := b; cell_text := units_of (if b then "true" else "false") |}.

(** [tableData]: one row per customer of the page. *)
Definition tableData (p : Props) (st : State) : list TableRow :=
  imap (fun index e =>
          let c := customer e in
          [ (units_of "ID",
             text_cell (slice_to (utf16 (id c)) 8 ++ units_of "..."));
            (units_of "Name",
             text_cell (slice_to (or_text (name c) "N/A") 15));
            (units_of "Email",
             text_cell (slice_to (or_text (email c) "N/A") 22));
            (units_of "Plan ($)", text_cell (toFixed2 (planPrice e)));
            (units_of "Credits ($)", text_cell (formatted_primary c));
            (units_of "Total ($)", text_cell (toFixed2 (totalValue e)));
            (units_of "Stripe",
             text_cell (if str_truthy (stripe_id c)
                        then [10003%N] else [10007%N]));   (* '✓', '✗' *)
            (units_of "Env",
             text_cell (slice_to (or_text (env c) "unknown") 5));
            (units_of "_isSelected",
             bool_cell (index =? selectedCustomerIndex st)%nat);
            (units_of "_isMultiSelected",
             bool_cell (bool_decide (id c ∈ selectedCustomerIds st)));
            (units_of "_customerId", text_cell (utf16 (id c))) ])
    (currentCustomers p st).

Definition text_column (k : string) (label : JsStr) (w : Z) : TableColumn :=
  {| col_key := units_of k; col_label := label; col_width := Some w;
     col_align := None |}.

Definition number_column (k : string) (label : JsStr) (w : Z) : TableColumn :=
  {| col_key := units_of k; col_label := label; col_width := Some w;
     col_align := Some "right" |}.

(** [columns] of [CustomerTable]. *)
Definition customer_columns (p : Props) : list TableColumn :=
  [ text_column "ID" (units_of "ID") 11;
    text_column "Name" (units_of "Name") 18;
    text_column "Email" (units_of "Email") 25;
    number_column "Plan ($)" (units_of "Plan ($)") 9;
    number_column "Credits ($)"
      (utf16 (displayName (primary (creditSystem (config p))))) 11;
    number_column "Total ($)" (units_of "Total ($)") 9;
    text_column "Stripe" (units_of "Stripe") 7;
    text_column "Env" (units_of "Env") 6 ].

(** The columns whose cells hold text of the customer record. *)
Definition record_columns (p : Props) : list TableColumn :=
  List.filter (fun col => bool_decide (col_align col = None))
    (customer_columns p).

(** The table that [CustomerTable] shows. *)
Definition customer_table (p : Props) (st : State) : Rendered :=
  CustomTableWithHighlight (tableData p st) (Some (customer_columns p)).
End CustomerRows.

(** The first row of the table of [sample_props], with plain texts for the
    numbers. *)
Definition sample_row : TableRow :=
  default []
    (head (tableData units_of (fun _ => units_of "0.00")
             (fun _ => units_of "5 tokens") (sample_props None)
             initial_state)).

(** * Properties *)

(** ** Strings *)

Module JsStringFacts.
Import JsString.

Lemma startsWith_spec (s p : string) :
  startsWith s p = true <-> exists t, s = p +:+ t.
Proof.
  revert s; induction p as [|c p IH]; intros s; simpl.
  - split; [intros _; now exists s | reflexivity].
  - destruct s as [|d s].
    + split; [discriminate | intros [t Ht]; discriminate].
    + destruct (Ascii.eqb_spec c d) as [->|Hne].
      * rewrite IH. split; intros [t Ht]; exists t.
        -- now subst.
        -- now inversion Ht.
      * split; [discriminate | intros [t Ht]; inversion Ht; congruence].
Qed.

Lemma includes_spec (s p : string) :
  includes s p = true <-> exists a b, s = a +:+ p +:+ b.
Proof.
  induction s as [|d s IH]; simpl.
  - rewrite orb_false_r, startsWith_spec. split.
    + intros [t Ht]. now exists "", t.
    + intros [a [b Hab]]. destruct a; [now exists b | discriminate].
  - rewrite orb_true_iff, startsWith_spec, IH. split.
    + intros [[t Ht] | [a [b Hab]]].
      * now exists "", t.
      * exists (String d a), b. simpl. now rewrite Hab.
    + intros [a [b Hab]]. destruct a as [|e a]; simpl in Hab.
      * left. now exists b.
      * right. inversion Hab; subst. now exists a, b.
Qed.

(** No-break space, ideographic space, byte order mark and line separator
    are trimmed like the ASCII white space; the zero width space U+200B and
    a lone byte of a longer sequence are not. *)
Lemma trim_is_empty_examples :
  trim_is_empty "" = true
  /\ trim_is_empty (of_bytes [32; 9; 10; 13]) = true
  /\ trim_is_empty (of_bytes [194; 160]) = true
  /\ trim_is_empty (of_bytes [194; 160; 227; 128; 128; 239; 187; 191; 32;
                              226; 128; 168]) = true
  /\ trim_is_empty (of_bytes [194; 160; 97]) = false
  /\ trim_is_empty (of_bytes [226; 128; 139]) = false
  /\ trim_is_empty (of_bytes [194]) = false.
Proof. repeat split; vm_compute; reflexivity. Qed.

End JsStringFacts.

(** ** Numbers *)

Module JsNumFacts.

Lemma Qltb_lt (a b : Q) : Qltb a b = true <-> (a < b)%Q.
Proof.
  unfold Qltb. rewrite negb_true_iff, <- not_true_iff_false, Qle_bool_iff.
  split; [apply Qnot_le_lt | apply Qlt_not_le].
Qed.

Lemma Qltb_ge (a b : Q) : Qltb a b = false <-> (b <= a)%Q.
Proof.
  unfold Qltb. rewrite negb_false_iff. apply Qle_bool_iff.
Qed.

Lemma geb_zero_max (x : Num) : is_NaN x = false -> geb (max zero x) zero = true.
Proof.
  destruct x as [q| | |]; simpl; try easy.
  intros _. destruct (Qle_bool 0 q) eqn:E; simpl.
  - exact E.
  - apply Qle_bool_iff, Qle_refl.
Qed.

Lemma geb_zero_add (x y : Num) :
  geb x zero = true -> geb y zero = true -> geb (add x y) zero = true.
Proof.
  destruct x as [a| | |], y as [b| | |]; simpl; try easy.
  rewrite !Qle_bool_iff. intros Ha Hb. lra.
Qed.

(** A quotient is [NaN] only from a [NaN], from [0/0] or from two
    infinities. *)
Lemma div_not_NaN (x d : Num) :
  is_finite x = true -> truthy d = true -> is_NaN (div x d) = false.
Proof.
  destruct x as [a| | |], d as [b| | |]; simpl; try easy.
  intros _ Hb. apply negb_true_iff in Hb. now rewrite Hb.
Qed.

End JsNumFacts.

Import JsStringFacts JsNumFacts.

(** ** The [Map] objects and the status cell *)

Ltac unfold_setters :=
  unfold setCurrentPage, setSelectedCustomerIndex, setHideZeroCreditUsers,
    setIsFullScreenDetailsOpen, setIsFuzzySearchMode, setFuzzySearchQuery,
    setIsHelpOpen, setIsMultiSelectMode, setSelectedCustomerIds,
    setIsBatchMigrationInProgress, setMigrationStatuses,
    setSelectedActionIndex, setIsMenuOpen, setIsLoading, setCurrentStatus,
    setExecutingActionId, setComponentDialog, setIsComponentDialogOpen,
    setHeap, setNextRef in *.

(** The updater of [batchStatusCallback] and of the [catch] block writes one
    key of the current status map. *)
Lemma statusMap_update_status (k : string) (v : StatusEntry) (st : State) :
  statusMap (update_status k v st) = <[k := v]> (statusMap st).
Proof.
  destruct st. unfold statusMap, update_status, new_Map, Map_set, deref.
  unfold_setters. simpl.
  rewrite !lookup_insert_eq. reflexivity.
Qed.

(** ** C4: the classifier *)

Lemma finalStatus_cases (m : string) :
  (says_failed m /\ finalStatus m = failed)
  \/ (~ says_failed m /\ says_completed m /\ finalStatus m = completed)
  \/ (~ says_failed m /\ ~ says_completed m /\ finalStatus m = in_progress).
Proof.
  unfold finalStatus, says_failed, says_completed, starts_with, contains.
  destruct (JsString.startsWith m "ERROR:") eqn:E1.
  { left. split; [left; now apply startsWith_spec | reflexivity]. }
  destruct (JsString.includes m "failed") eqn:E2.
  { left. split; [right; now apply includes_spec | reflexivity]. }
  assert (Hnf : ~ ((exists t, m = "ERROR:" +:+ t)
                   \/ (exists a b, m = a +:+ "failed" +:+ b))).
  { intros [H|H]; [apply startsWith_spec in H | apply includes_spec in H];
      congruence. }
  right. simpl.
  destruct (JsString.includes m "completed successfully") eqn:E3.
  { left. repeat split; [exact Hnf | left; now apply includes_spec]. }
  destruct (JsString.includes m "No migration required") eqn:E4.
  { left. repeat split; [exact Hnf | right; now apply includes_spec]. }
  right. repeat split; [exact Hnf |].
  intros [H|H]; apply includes_spec in H; congruence.
Qed.

(** C4.  The status that [batchStatusCallback] stores for a message [m] is
    [failed] exactly when [m] starts with "ERROR:" or contains "failed";
    [completed] exactly when it is not [failed] and [m] contains "completed
    successfully" or "No migration required"; [in_progress] in every other
    case (never [pending]).  It is stored with [m] as the message.
    "ERROR: timeout" is [failed], "Migration completed successfully" is
    [completed], "retrying, attempt 2" is [in_progress]. *)
Theorem classifier_spec :
  forall m : string,
    (finalStatus m = failed <-> says_failed m)
    /\ (finalStatus m = completed <-> ~ says_failed m /\ says_completed m)
    /\ (finalStatus m = in_progress <-> ~ says_failed m /\ ~ says_completed m)
    /\ (forall customerId st,
          statusMap (batchStatusCallback customerId m st) !! customerId
          = Some {| status := finalStatus m; message := Some m |})
    /\ finalStatus "ERROR: timeout" = failed
    /\ finalStatus "Migration completed successfully" = completed
    /\ finalStatus "retrying, attempt 2" = in_progress.
Proof.
  intros m.
  destruct (finalStatus_cases m) as [[Hf E] | [[Hnf [Hc E]] | [Hnf [Hnc E]]]];
    rewrite E; repeat split; try tauto; try congruence; try reflexivity;
    intros; unfold batchStatusCallback;
    rewrite statusMap_update_status, lookup_insert_eq; now rewrite E.
Qed.

(** ** C10: credit amounts *)

Lemma credit_amount_nonneg (credit : option Feature) (d : Num) :
  (forall f b, credit = Some f -> balance f = Some b -> is_finite b = true) ->
  truthy d = true ->
  geb (credit_amount credit d) zero = true.
Proof.
  intros Hb Hd. destruct credit as [f|]; simpl; [|reflexivity].
  apply geb_zero_max, div_not_NaN; [|exact Hd].
  destruct (balance f) as [b|] eqn:E; simpl; [|reflexivity].
  specialize (Hb f b eq_refl E). now destruct b.
Qed.

Lemma sum_amounts_nonneg (l : list CreditAmount) :
  Forall (fun sc => geb (amount sc) zero = true) l ->
  geb (sum_amounts l) zero = true.
Proof.
  unfold sum_amounts.
  assert (G : forall acc, geb acc zero = true ->
              Forall (fun sc => geb (amount sc) zero = true) l ->
              geb (fold_left (fun sum sc => add sum (amount sc)) l acc) zero
              = true).
  { induction l as [|sc l IH]; intros acc Hacc Hl; simpl; [exact Hacc|].
    inversion Hl; subst. apply IH; [|assumption].
    now apply geb_zero_add. }
  apply G. reflexivity.
Qed.

(** The amount of a feature without a balance is [0], of a missing feature
    too. *)
Lemma credit_amount_no_balance (d : Num) :
  truthy d = true ->
  eqb (credit_amount (Some {| balance := None |}) d) zero = true.
Proof.
  destruct d as [q| | |]; simpl; try easy.
  intros Hq. apply negb_true_iff in Hq. rewrite Hq.
  assert (E : (- 0 / q == 0)%Q) by (unfold Qdiv; ring).
  destruct (Qle_bool 0 (- 0 / q)) eqn:L; simpl.
  - apply Qeq_bool_iff. exact E.
  - reflexivity.
Qed.

Lemma finite_balances_lookup (c : Customer) :
  finite_balances c = true ->
  forall k f b,
    feature_of c k = Some f -> balance f = Some b -> is_finite b = true.
Proof.
  unfold finite_balances, feature_of. intros H k f b Hk Hbal.
  destruct (features c) as [fs|]; [|discriminate].
  rewrite forallb_forall in H.
  specialize (H (k, f)). simpl in H. unfold finite_balance in H.
  rewrite Hbal in H. apply H.
  now apply list_elem_of_In, elem_of_map_to_list.
Qed.

(** C10, as the code has it.  For a customer whose balances are finite
    numbers and a configuration whose divisors are numbers other than [0],
    [getCustomerCredits] returns a primary amount [>= 0], secondary amounts
    [>= 0] and a total [>= 0]; the total is the primary amount plus the sum
    of the secondary ones; each amount is [max(0, -balance / divisor)], [0]
    for a missing feature and for a feature without balance.
    [getCreditBalance] is [>= 0] as well. *)
Theorem getCustomerCredits_nonneg (c : Customer) (cfg : CreditSystemConfig) :
  finite_balances c = true ->
  nonzero_divisors cfg = true ->
  let r := getCustomerCredits c cfg in
  credits_nonneg r
  /\ total r = add (amount (credits_primary r)) (sum_amounts (credits_secondary r))
  /\ Forall (fun sc =>
               amount sc
               = credit_amount (feature_of c (key (credit_config sc)))
                   (divisor (credit_config sc)))
       (credits_primary r :: credits_secondary r)
  /\ (forall d, credit_amount None d = zero)
  /\ Forall (fun cc =>
               eqb (credit_amount (Some {| balance := None |}) (divisor cc)) zero
               = true)
       (credit_configs cfg)
  /\ (forall creditKey d,
        truthy (default (Fin 100) d) = true ->
        geb (getCreditBalance c creditKey d) zero = true).
Proof.
  intros Hb Hd r.
  pose proof (finite_balances_lookup c Hb) as Hfin.
  unfold nonzero_divisors in Hd. rewrite forallb_forall in Hd.
  assert (Hd' : Forall (fun cc => truthy (divisor cc) = true)
                  (credit_configs cfg)).
  { apply Forall_forall. intros cc Hcc. now apply Hd, list_elem_of_In. }
  clear Hd. unfold credit_configs in Hd'.
  inversion Hd' as [|? ? Hp Hs]; subst.
  assert (Hsec : Forall (fun sc => geb (amount sc) zero = true)
                   (credits_secondary r)).
  { subst r. unfold getCustomerCredits. simpl.
    destruct (secondary cfg) as [l|]; simpl in *; [|constructor].
    clear Hd' Hp. induction Hs as [|cc l Hcc Hl IH]; simpl; [constructor|].
    constructor; [|exact IH].
    simpl. apply credit_amount_nonneg.
    + intros f b Hf Hbal. exact (Hfin _ f b Hf Hbal).
    + exact Hcc. }
  assert (Hprim : geb (amount (credits_primary r)) zero = true).
  { subst r. simpl. apply credit_amount_nonneg; [|assumption].
    intros f b Hf Hbal. exact (Hfin _ f b Hf Hbal). }
  repeat split.
  - exact Hprim.
  - exact Hsec.
  - subst r. simpl. apply geb_zero_add; [exact Hprim|].
    now apply sum_amounts_nonneg.
  - subst r. unfold getCustomerCredits. simpl. constructor; [reflexivity|].
    destruct (secondary cfg) as [l|]; [|constructor].
    clear. induction l; simpl; constructor; [reflexivity | assumption].
  - unfold credit_configs.
    eapply Forall_impl; [exact Hd'|].
    intros cc Hcc. now apply credit_amount_no_balance.
  - intros creditKey d Ht. unfold getCreditBalance.
    apply credit_amount_nonneg; [|exact Ht].
    intros f b Hf Hbal. exact (Hfin _ f b Hf Hbal).
Qed.

Lemma getCustomerCredits_nonneg_witness :
  credits_nonneg
    (getCustomerCredits (sample_customer "c1" None (owes 250))
       credits_with_storage).
Proof.
  apply (getCustomerCredits_nonneg (sample_customer "c1" None (owes 250))
           credits_with_storage); reflexivity.
Defined.

(** C10 as stated fails: with a divisor [0], a feature without balance has
    the amount [-0 / 0], which is [NaN], and [NaN >= 0] is false; the total
    is [NaN] too. *)
Lemma getCustomerCredits_zero_divisor :
  amount (credits_primary
            (getCustomerCredits
               (sample_customer "c1" None (Some {| balance := None |}))
               (credits_by (Fin 0)))) = NaN
  /\ total (getCustomerCredits
              (sample_customer "c1" None (Some {| balance := None |}))
              (credits_by (Fin 0))) = NaN
  /\ ~ credits_nonneg
         (getCustomerCredits
            (sample_customer "c1" None (Some {| balance := None |}))
            (credits_by (Fin 0))).
Proof.
  repeat split. intros [H _]. discriminate H.
Qed.

(** ** C8: the filter/sort pipeline *)

Arguments gtb : simpl never.
Arguments geb : simpl never.

Section SortFacts.
Context {A : Type} (compare : A -> A -> Num).

Lemma sort_insert_perm (x : A) (l : list A) :
  sort_insert compare x l ≡ₚ x :: l.
Proof.
  induction l as [|y l IH]; simpl; [reflexivity|].
  destruct (gtb (compare x y) zero); [|reflexivity].
  rewrite IH. apply Permutation_swap.
Qed.

Lemma js_sort_perm (l : list A) : js_sort compare l ≡ₚ l.
Proof.
  induction l as [|x l IH]; simpl; [reflexivity|].
  now rewrite sort_insert_perm, IH.
Qed.

(** When [compare] orders by a relation [R] that is total and transitive
    on the elements at hand, the result is sorted. *)
Variable R : A -> A -> Prop.
Variable ok : A -> Prop.
Hypothesis R_trans :
  forall a b c, ok a -> ok b -> ok c -> R a b -> R b c -> R a c.
Hypothesis compare_gt : forall a b, ok a -> ok b ->
  gtb (compare a b) zero = true -> R b a.
Hypothesis compare_le : forall a b, ok a -> ok b ->
  gtb (compare a b) zero = false -> R a b.

Lemma sort_insert_sorted (x : A) (l : list A) :
  ok x -> Forall ok l -> StronglySorted R l ->
  StronglySorted R (sort_insert compare x l).
Proof.
  intros Hx Hl Hs. induction Hs as [|y l Hs IH Hy]; simpl.
  - repeat constructor.
  - inversion Hl as [|? ? Hoy Hol]; subst.
    destruct (gtb (compare x y) zero) eqn:E.
    + constructor; [now apply IH|].
      rewrite sort_insert_perm. constructor; [|exact Hy].
      now apply compare_gt.
    + constructor; [now constructor|].
      constructor; [now apply compare_le|].
      rewrite Forall_forall in Hy, Hol. apply Forall_forall.
      intros z Hz. apply (R_trans x y z); auto.
  Qed.

Lemma js_sort_sorted (l : list A) :
  Forall ok l -> StronglySorted R (js_sort compare l).
Proof.
  induction l as [|x l IH]; intros Hl; simpl; [constructor|].
  inversion Hl; subst. apply sort_insert_sorted; auto.
  now rewrite js_sort_perm.
Qed.
End SortFacts.

Lemma gtb_sub (x y : Num) :
  is_NaN x = false -> is_NaN y = false -> gtb (sub y x) zero = ltb x y.
Proof.
  unfold gtb, sub.
  destruct x as [a| | |], y as [b| | |]; simpl; try easy.
  intros _ _. apply eq_true_iff_eq. rewrite !Qltb_lt. split; intros; lra.
Qed.

Lemma ltb_geb (x y : Num) : ltb x y = true -> geb y x = true.
Proof.
  unfold geb. destruct x as [a| | |], y as [b| | |]; simpl; try easy.
  rewrite Qltb_lt, Qle_bool_iff. intros; lra.
Qed.

Lemma not_ltb_geb (x y : Num) :
  is_NaN x = false -> is_NaN y = false -> ltb x y = false -> geb x y = true.
Proof.
  unfold geb. destruct x as [a| | |], y as [b| | |]; simpl; try easy.
  intros _ _. now rewrite Qltb_ge, Qle_bool_iff.
Qed.

Lemma geb_trans (x y z : Num) :
  geb x y = true -> geb y z = true -> geb x z = true.
Proof.
  unfold geb. destruct x as [a| | |], y as [b| | |], z as [c| | |];
    simpl; try easy.
  rewrite !Qle_bool_iff. intros; lra.
Qed.

Lemma gtb_add_pos (p c : Num) :
  geb p zero = true -> gtb c zero = true -> gtb (add p c) zero = true.
Proof.
  unfold geb, gtb. destruct p as [a| | |], c as [b| | |]; simpl; try easy.
  rewrite Qle_bool_iff, !Qltb_lt. intros; lra.
Qed.

(** The entries of the view are entries of source customers that pass both
    filters. *)
Lemma sortedCustomers_elem fz prices cs hideZero query source (e : Entry) :
  e ∈ sortedCustomers fz prices cs hideZero query source ->
  (exists c, c ∈ source /\ e = mk_entry prices cs c)
  /\ keep_by_credits hideZero e = true
  /\ keep_by_query fz query e = true.
Proof.
  unfold sortedCustomers. rewrite js_sort_perm.
  rewrite !list_elem_of_In, !filter_In, in_map_iff.
  intros [[[c [Hc Hin]] Hk] Hq]. repeat split; try assumption.
  exists c. split; [now apply list_elem_of_In | now symmetry].
Qed.

Lemma filter_length_le {A} (f : A -> bool) (l : list A) :
  (List.length (List.filter f l) <= List.length l)%nat.
Proof.
  induction l as [|x l IH]; simpl; [lia|]. destruct (f x); simpl; lia.
Qed.

(** C8, as the code has it.  The view is never longer than the source list.
    With [hideZero], every entry has [creditsUsed > 0] (the credit total is
    what the filter tests), hence [totalValue > 0] when its plan price is
    [>= 0].  With a blank query and no [NaN] total, the view is ordered by
    descending [totalValue].  Every entry is computed from a source
    customer, with [totalValue = planPrice + creditsUsed]. *)
Theorem sortedCustomers_postconditions
    fz prices cs (hideZero : bool) (query : string) (source : list Customer) :
  let view := sortedCustomers fz prices cs hideZero query source in
  (List.length view <= List.length source)%nat
  /\ (hideZero = true ->
      Forall (fun e => gtb (creditsUsed e) zero = true
                       /\ (geb (planPrice e) zero = true ->
                           gtb (totalValue e) zero = true)) view)
  /\ (JsString.trim_is_empty query = true ->
      Forall (fun e => is_NaN (totalValue e) = false) view ->
      descending totalValue view)
  /\ Forall (fun e => (exists c, c ∈ source /\ e = mk_entry prices cs c)
                      /\ totalValue e = add (planPrice e) (creditsUsed e))
       view.
Proof.
  intros view.
  assert (Hel : Forall (fun e =>
                   (exists c, c ∈ source /\ e = mk_entry prices cs c)
                   /\ keep_by_credits hideZero e = true) view).
  { apply Forall_forall. intros e He.
    apply sortedCustomers_elem in He. tauto. }
  repeat split.
  - subst view. unfold sortedCustomers.
    rewrite (Permutation_length (js_sort_perm _ _)).
    etransitivity; [apply filter_length_le|].
    etransitivity; [apply filter_length_le|].
    now rewrite length_map.
  - intros ->. eapply Forall_impl; [exact Hel|].
    intros e [[c [_ ->]] Hk]. unfold keep_by_credits in Hk. simpl in Hk.
    split; [exact Hk|]. simpl. intros Hp. now apply gtb_add_pos.
  - intros Hq Hnan. subst view. unfold sortedCustomers in *.
    set (l := List.filter _ _) in *.
    apply (js_sort_sorted _ _ (fun e => is_NaN (totalValue e) = false)).
    + intros a b c _ _ _. apply geb_trans.
    + intros a b Ha Hb. unfold compare_entries. rewrite Hq. simpl.
      rewrite gtb_sub by assumption. apply ltb_geb.
    + intros a b Ha Hb. unfold compare_entries. rewrite Hq. simpl.
      rewrite gtb_sub by assumption. now apply not_ltb_geb.
    + now rewrite js_sort_perm in Hnan.
  - eapply Forall_impl; [exact Hel|].
    intros e [[c [Hc ->]] _]. split; [now exists c | reflexivity].
Qed.

Lemma sortedCustomers_postconditions_witness :
  Forall (fun e => gtb (creditsUsed e) zero = true
                   /\ (geb (planPrice e) zero = true ->
                       gtb (totalValue e) zero = true))
    (sortedCustomers no_match sample_prices (credits_by (Fin 100)) true ""
       sample_source)
  /\ descending totalValue
       (sortedCustomers no_match sample_prices (credits_by (Fin 100)) true ""
          sample_source).
Proof.
  destruct (sortedCustomers_postconditions no_match sample_prices
              (credits_by (Fin 100)) true "" sample_source)
    as (_ & H2 & H3 & _).
  split.
  - apply H2. reflexivity.
  - apply H3; [reflexivity|]. vm_compute. repeat constructor.
Defined.

(** C8 as stated fails for either value the code computes per record.  With
    [totalValue] as the computed value: a plan price of [-5] and 1 credit
    used pass the zero filter with a total of [-4].  With [creditsUsed] as
    the computed value: the view is ordered by [totalValue], so a customer
    with a plan and no credits used comes before one with 5 credits used
    and no plan.  With [creditsUsed] for the filter and [totalValue] for the
    order: under a divisor [0] a balance of [0] gives the total [NaN] and a
    negative balance the total [+Infinity], and no order of the two is
    descending, since every comparison with [NaN] is false. *)
Lemma view_postconditions_fail :
  ~ view_postconditions totalValue totalValue
      [sample_customer "c1" (Some "pro") (owes 100)] true ""
      (sortedCustomers no_match refund_prices (credits_by (Fin 100)) true ""
         [sample_customer "c1" (Some "pro") (owes 100)])
  /\ ~ view_postconditions creditsUsed creditsUsed sample_source false ""
         (sortedCustomers no_match sample_prices (credits_by (Fin 100)) false
            "" sample_source)
  /\ ~ view_postconditions creditsUsed totalValue
         [sample_customer "c1" None (owes 0);
          sample_customer "c2" None (owes 100)] false ""
         (sortedCustomers no_match sample_prices (credits_by (Fin 0)) false ""
            [sample_customer "c1" None (owes 0);
             sample_customer "c2" None (owes 100)]).
Proof.
  split; [|split].
  - intros (_ & H & _). specialize (H eq_refl).
    vm_compute in H. inversion H as [|? ? Hhd _]. discriminate Hhd.
  - intros (_ & _ & H). specialize (H eq_refl). unfold descending in H.
    vm_compute in H.
    apply StronglySorted_inv in H as [H _].
    apply StronglySorted_inv in H as [_ H].
    inversion H as [|? ? Hhd _]. discriminate Hhd.
  - intros (_ & _ & H). specialize (H eq_refl). unfold descending in H.
    vm_compute in H.
    apply StronglySorted_inv in H as [_ H].
    inversion H as [|? ? Hhd _]. discriminate Hhd.
Qed.

(** ** C7: the batch progress view owns the input *)

(** C7.  While the batch progress view is open, the input handler of
    [CustomerTable] starts no call; a key other than escape leaves the whole
    state as it is; escape makes the status map empty, turns multi-select
    mode off, empties [selectedCustomerIds], closes the view, and changes no
    other cell and no existing [Map] object. *)
Theorem batch_progress_owns_input
    (p : Props) (st : State) (input : string) (key : Key) :
  isBatchMigrationInProgress st = true ->
  snd (useInput_handler p st input key) = NoCall
  /\ (escape key = false -> fst (useInput_handler p st input key) = st)
  /\ (escape key = true ->
      let st' := fst (useInput_handler p st input key) in
      statusMap st' = ∅
      /\ isMultiSelectMode st' = false
      /\ selectedCustomerIds st' = ∅
      /\ isBatchMigrationInProgress st' = false
      /\ same_other_cells st st'
      /\ (forall r, r <> nextRef st -> heap st' !! r = heap st !! r)).
Proof.
  intros Hb. unfold useInput_handler. rewrite Hb.
  split; [reflexivity|]. split; intros Hk; rewrite Hk; simpl; [reflexivity|].
  destruct st. unfold close_batch_view, new_Map, statusMap, deref,
    same_other_cells. unfold_setters. simpl.
  rewrite lookup_insert_eq. repeat split.
  intros r Hr. now rewrite lookup_insert_ne.
Qed.

Lemma batch_progress_owns_input_witness :
  fst (useInput_handler (sample_props None) batch_view_state "q" plain_key)
  = batch_view_state
  /\ statusMap
       (fst (useInput_handler (sample_props None) batch_view_state ""
               key_escape)) = ∅.
Proof.
  split.
  - apply (batch_progress_owns_input (sample_props None) batch_view_state "q"
             plain_key); vm_compute; reflexivity.
  - apply (batch_progress_owns_input (sample_props None) batch_view_state ""
             key_escape); vm_compute; reflexivity.
Defined.

(** The effects do nothing when neither the filter nor the page changed. *)
Lemma run_effects_same (before after : State) :
  hideZeroCreditUsers before = hideZeroCreditUsers after ->
  currentPage before = currentPage after ->
  run_effects before after = after.
Proof.
  intros H1 H2. unfold run_effects.
  rewrite (bool_decide_eq_true_2 _ H1). now rewrite (bool_decide_eq_true_2 _ H2).
Qed.

(** The same with the handler that the progress view itself registers
    ([FullScreenDetails]) and the effects, when no other full-screen view is
    open. *)
Lemma batch_progress_key_event
    (p : Props) (st : State) (input : string) (key : Key) :
  isBatchMigrationInProgress st = true ->
  isHelpOpen st = false -> isFullScreenDetailsOpen st = false ->
  isComponentDialogOpen st = false ->
  (escape key = false -> key_event p st input key = (st, NoCall))
  /\ (escape key = true ->
      let st' := fst (key_event p st input key) in
      statusMap st' = ∅
      /\ isMultiSelectMode st' = false
      /\ selectedCustomerIds st' = ∅
      /\ isBatchMigrationInProgress st' = false
      /\ same_other_cells st st').
Proof.
  intros Hb Hh Hd Hc.
  unfold key_event, useInput_handler, overlay_handlers,
    FullScreenDetails_handler.
  rewrite Hb, Hh, Hd, Hc. simpl.
  split; intros Hk; rewrite Hk; simpl.
  - now rewrite run_effects_same.
  - destruct st. unfold close_batch_view, new_Map. unfold_setters. simpl.
    rewrite run_effects_same by reflexivity.
    unfold statusMap, deref, same_other_cells. simpl.
    rewrite lookup_insert_eq. repeat split.
Qed.

(** ** C9: toggle all visible *)

#[local] Set Warnings "-clear-no-such-hyp".

Lemma fold_remove (l : list string) (sel : gset string) :
  fold_left (fun acc i => acc ∖ {[ i ]}) l sel = sel ∖ list_to_set l.
Proof.
  revert sel; induction l as [|x l IH]; intros sel; simpl.
  - set_solver.
  - rewrite IH. set_solver.
Qed.

Lemma fold_add (l : list string) (sel : gset string) :
  fold_left (fun acc i => acc ∪ {[ i ]}) l sel = sel ∪ list_to_set l.
Proof.
  revert sel; induction l as [|x l IH]; intros sel; simpl.
  - set_solver.
  - rewrite IH. set_solver.
Qed.

Lemma forallb_selected (l : list string) (sel : gset string) :
  forallb (fun i => bool_decide (i ∈ sel)) l = true <-> (forall i, i ∈ l -> i ∈ sel).
Proof.
  rewrite forallb_forall. split; intros H i Hi.
  - apply list_elem_of_In in Hi. apply H in Hi. now apply bool_decide_eq_true in Hi.
  - apply bool_decide_eq_true, H, list_elem_of_In, Hi.
Qed.

Lemma toggleAllVisible_eq (p : Props) (st : State) :
  base_navigation st = true -> isMultiSelectMode st = true ->
  toggleAllVisible p st
  = setSelectedCustomerIds (toggled (page_ids p st) (selectedCustomerIds st)) st.
Proof.
  unfold base_navigation. rewrite !andb_true_iff, !negb_true_iff.
  intros [[[[[Hb Hh] Hc] Hd] Hs] Hm] Hmulti.
  unfold toggleAllVisible, key_event, useInput_handler, overlay_handlers,
    FullScreenDetails_handler.
  rewrite Hb, Hh, Hc, Hd, Hs, Hm. simpl.
  unfold multi_select_commands, table_navigation. rewrite Hmulti. simpl.
  rewrite fold_remove, fold_add. fold (page_ids p st). unfold toggled.
  destruct (forallb _ (page_ids p st));
    (rewrite run_effects_same; [reflexivity | |]; now destruct st).
Qed.

Lemma toggle_frame (p : Props) (st : State) (sel : gset string) :
  page_ids p (setSelectedCustomerIds sel st) = page_ids p st
  /\ base_navigation (setSelectedCustomerIds sel st) = base_navigation st
  /\ isMultiSelectMode (setSelectedCustomerIds sel st) = isMultiSelectMode st
  /\ selectedCustomerIds (setSelectedCustomerIds sel st) = sel.
Proof. now destruct st. Qed.

(** C9, as the code has it.  In multi-select mode with no overlay open, the
    toggle-all-visible command leaves the page and the membership of every
    identifier outside the page as they are.  When the identifiers of the
    page are all selected, or none of them is, two toggles in a row give
    [selectedCustomerIds] back.  When some but not all of them are selected,
    the first toggle selects the whole page and the second one unselects
    it: no identifier of the page is selected afterwards. *)
Theorem toggleAllVisible_twice (p : Props) (st : State) :
  base_navigation st = true ->
  isMultiSelectMode st = true ->
  let pg := page_ids p st in
  let sel := selectedCustomerIds st in
  let st1 := toggleAllVisible p st in
  let st2 := toggleAllVisible p st1 in
  (page_ids p st1 = pg /\ page_ids p st2 = pg)
  /\ (forall i, i ∉ pg ->
        (i ∈ selectedCustomerIds st1 <-> i ∈ sel)
        /\ (i ∈ selectedCustomerIds st2 <-> i ∈ sel))
  /\ ((forall i, i ∈ pg -> i ∈ sel) \/ (forall i, i ∈ pg -> i ∉ sel) ->
      selectedCustomerIds st2 = sel)
  /\ ((exists i, i ∈ pg /\ i ∈ sel) -> (exists j, j ∈ pg /\ j ∉ sel) ->
      (forall i, i ∈ pg -> i ∈ selectedCustomerIds st1)
      /\ (forall i, i ∈ pg -> i ∉ selectedCustomerIds st2)).
Proof.
  intros Hbase Hmulti pg sel st1 st2.
  assert (E1 : st1 = setSelectedCustomerIds (toggled pg sel) st)
    by now apply toggleAllVisible_eq.
  destruct (toggle_frame p st (toggled pg sel)) as (Fp & Fb & Fm & Fs).
  assert (E2 : st2 = setSelectedCustomerIds (toggled pg (toggled pg sel)) st1).
  { subst st2. rewrite toggleAllVisible_eq; rewrite E1; try congruence.
    now rewrite Fp, Fs. }
  destruct (toggle_frame p st1 (toggled pg (toggled pg sel))) as (Gp & _ & _ & Gs).
  assert (Hp1 : page_ids p st1 = pg) by (rewrite E1; exact Fp).
  assert (Hs1 : selectedCustomerIds st1 = toggled pg sel) by (rewrite E1; exact Fs).
  assert (Hs2 : selectedCustomerIds st2 = toggled pg (toggled pg sel))
    by (rewrite E2; exact Gs).
  assert (Hp2 : page_ids p st2 = pg) by (rewrite E2, Gp; exact Hp1).
  rewrite Hs1, Hs2. clear E1 E2 Fp Fb Fm Fs Gp Gs Hs1 Hs2.
  unfold toggled.
  destruct (forallb (fun i => bool_decide (i ∈ sel)) pg) eqn:B1.
  - pose proof (proj1 (forallb_selected _ _) B1) as A1. clear B1.
    destruct (forallb (fun i => bool_decide (i ∈ sel ∖ list_to_set pg)) pg) eqn:B2.
    + pose proof (proj1 (forallb_selected _ _) B2) as A2. clear B2.
      assert (Hempty : forall i, i ∉ pg) by (intros i Hi; set_solver).
      repeat split; try assumption; try set_solver.
    + repeat split; try assumption; try set_solver.
      intros _. apply set_eq. intros i. destruct (decide (i ∈ pg)); set_solver.
  - assert (Hsome : exists j, j ∈ pg /\ j ∉ sel).
    { apply not_true_iff_false in B1. rewrite forallb_selected in B1.
      destruct (decide (Exists (fun j => j ∉ sel) pg)) as [Hex|Hnex].
      - apply Exists_exists in Hex. exact Hex.
      - exfalso. apply B1. intros i Hi.
        destruct (decide (i ∈ sel)) as [|Hni]; [assumption|].
        exfalso. apply Hnex, Exists_exists. now exists i. }
    assert (B2 : forallb (fun i => bool_decide (i ∈ sel ∪ list_to_set pg)) pg = true).
    { apply forallb_selected. set_solver. }
    rewrite B2. destruct Hsome as [j [Hj HjS]].
    repeat split; try assumption; try set_solver.
Qed.

Lemma toggleAllVisible_twice_witness :
  selectedCustomerIds
    (toggleAllVisible (sample_props None)
       (toggleAllVisible (sample_props None) multi_select_state))
  = selectedCustomerIds multi_select_state.
Proof.
  destruct (toggleAllVisible_twice (sample_props None) multi_select_state)
    as (_ & _ & H & _); [vm_compute; reflexivity .. |].
  apply H. right. intros i _.
  replace (selectedCustomerIds multi_select_state) with (∅ : gset string)
    by (vm_compute; reflexivity).
  apply not_elem_of_empty.
Defined.

(** C9 as stated fails: with [c1] alone selected on the page [c1] .. [c5],
    the first toggle selects the page, the second one unselects it, and
    [c1] is no longer selected. *)
Lemma toggle_pair_loses_selection :
  ~ toggle_pair_restores (sample_props None) one_selected_state.
Proof.
  intros H. specialize (H "c1").
  assert (Hpage : "c1" ∈ page_ids (sample_props None) one_selected_state)
    by (vm_compute; apply list_elem_of_here).
  assert (Hbefore : bool_decide ("c1" ∈ selectedCustomerIds one_selected_state)
                    = true) by (vm_compute; reflexivity).
  assert (Hafter :
            bool_decide
              ("c1" ∈ selectedCustomerIds
                 (toggleAllVisible (sample_props None)
                    (toggleAllVisible (sample_props None) one_selected_state)))
            = false) by (vm_compute; reflexivity).
  apply bool_decide_eq_true in Hbefore. apply bool_decide_eq_false in Hafter.
  apply Hafter, H; assumption.
Qed.

(** ** C5: the sequential fallback *)

Section FallbackLoop.
Variable action : ActionOption.
Variable withCallback : bool.
Variable customers : list (option Customer).

(** One turn of the loop. *)
Lemma fallback_loop_cons (i0 : nat) (cid : option string)
    (rest : list (option string)) :
  fallback_loop action withCallback i0 (cid :: rest) customers
  = let next := fallback_loop action withCallback (S i0) rest customers in
    match valid_pair cid (mjoin (customers !! i0)) with
    | None => (InvalidCustomerData i0 :: fst next, snd next)
    | Some x =>
        if settles action x
        then (HandlerCalled i0 (fst x) (snd x)
                :: statuses_of action withCallback x ++ HandlerSettled i0 :: fst next,
              snd next)
        else (HandlerCalled i0 (fst x) (snd x)
                :: statuses_of action withCallback x ++ fst (stop_at action i0 x),
              snd (stop_at action i0 x))
    end.
Proof.
  simpl. destruct (valid_pair cid (mjoin (customers !! i0))) as [[c x]|].
  - unfold settles, stop_at, statuses_of. simpl.
    destruct (handler_end (handler action c x));
      destruct (fallback_loop action withCallback (S i0) rest customers);
      simpl; try reflexivity; now rewrite ?app_nil_r.
  - now destruct (fallback_loop action withCallback (S i0) rest customers).
Qed.

Lemma statuses_of_calls (x : string * Customer) (t : list TraceEvent) :
  handler_calls (statuses_of action withCallback x ++ t) = handler_calls t
  /\ diagnostics (statuses_of action withCallback x ++ t) = diagnostics t
  /\ forall s, sequential s (statuses_of action withCallback x ++ t) = sequential s t.
Proof.
  unfold statuses_of. destruct withCallback; [|now repeat split].
  induction (reported (handler action (fst x) (snd x))) as [|m l IH];
    [now repeat split|].
  destruct IH as (IH1 & IH2 & IH3). simpl. now repeat split.
Qed.

Lemma stop_at_calls (i : nat) (x : string * Customer) :
  handler_calls (fst (stop_at action i x)) = []
  /\ diagnostics (fst (stop_at action i x)) = []
  /\ sequential (Some i) (fst (stop_at action i x)) = true.
Proof.
  unfold stop_at. destruct (handler_end _); simpl;
    rewrite ?Nat.eqb_refl; now repeat split.
Qed.

Lemma pair_at_0 (i0 : nat) cid rest :
  pair_at i0 (cid :: rest) customers 0
  = Some (valid_pair cid (mjoin (customers !! i0))).
Proof. unfold pair_at. simpl. now rewrite Nat.add_0_r. Qed.

Lemma pair_at_S (i0 : nat) cid rest (n : nat) :
  pair_at i0 (cid :: rest) customers (S n) = pair_at (S i0) rest customers n.
Proof. unfold pair_at. simpl. now rewrite Nat.add_succ_r. Qed.

Lemma settle_before_S (i0 : nat) cid rest (n : nat) :
  settle_before action i0 (cid :: rest) customers (S n)
  <-> (forall x, valid_pair cid (mjoin (customers !! i0)) = Some x ->
                 settles action x = true)
      /\ settle_before action (S i0) rest customers n.
Proof.
  unfold settle_before. split.
  - intros H. split.
    + intros x Hx. apply (H 0%nat x); [lia|]. now rewrite pair_at_0, Hx.
    + intros m x Hm Hp. apply (H (S m) x); [lia|]. now rewrite pair_at_S.
  - intros [H0 HS] m x Hm Hp. destruct m as [|m].
    + rewrite pair_at_0 in Hp. apply H0. congruence.
    + rewrite pair_at_S in Hp. apply (HS m x); [lia | assumption].
Qed.

Lemma settle_before_0 (i0 : nat) ids :
  settle_before action i0 ids customers 0.
Proof. intros m x Hm. lia. Qed.

(** The loop is sequential. *)
Lemma fallback_loop_sequential (ids : list (option string)) (i0 : nat) :
  sequential None (fst (fallback_loop action withCallback i0 ids customers))
  = true.
Proof.
  revert i0; induction ids as [|cid rest IH]; intros i0; [reflexivity|].
  rewrite fallback_loop_cons. cbv zeta.
  destruct (valid_pair cid (mjoin (customers !! i0))) as [x|]; simpl;
    [|apply IH].
  destruct (settles action x); simpl.
  - destruct (statuses_of_calls x
                (HandlerSettled i0
                   :: fst (fallback_loop action withCallback (S i0) rest
                             customers))) as (_ & _ & ->).
    simpl. rewrite Nat.eqb_refl. apply IH.
  - destruct (statuses_of_calls x (fst (stop_at action i0 x))) as (_ & _ & ->).
    apply stop_at_calls.
Qed.

(** A position is called exactly when its pair is valid and the calls
    for all valid pairs before it settled. *)
Lemma fallback_loop_calls (ids : list (option string)) (i0 k : nat)
    (cid : string) :
  (k, cid) ∈ handler_calls
               (fst (fallback_loop action withCallback i0 ids customers))
  <-> exists n c,
        k = (i0 + n)%nat
        /\ pair_at i0 ids customers n = Some (Some (cid, c))
        /\ settle_before action i0 ids customers n.
Proof.
  revert i0; induction ids as [|cid0 rest IH]; intros i0.
  { simpl. split; [intros H; inversion H|].
    intros (n & c & _ & H & _). unfold pair_at in H.
    now rewrite lookup_nil in H. }
  rewrite fallback_loop_cons. cbv zeta.
  destruct (valid_pair cid0 (mjoin (customers !! i0))) as [x|] eqn:V; simpl.
  - destruct (settles action x) eqn:St; simpl.
    + destruct (statuses_of_calls x
                  (HandlerSettled i0
                     :: fst (fallback_loop action withCallback (S i0) rest
                               customers))) as (-> & _ & _).
      simpl. rewrite elem_of_cons, IH. split.
      * intros [E | (n & c & -> & Hp & Hs)].
        -- inversion E; subst. exists 0%nat, (snd x).
           rewrite pair_at_0, V, Nat.add_0_r. destruct x.
           repeat split. apply settle_before_0.
        -- exists (S n), c. rewrite pair_at_S, settle_before_S.
           repeat split; [lia | assumption | | assumption].
           intros y Hy. congruence.
      * intros (n & c & -> & Hp & Hs). destruct n as [|n].
        -- left. rewrite pair_at_0, V in Hp. inversion Hp; subst.
           now rewrite Nat.add_0_r.
        -- right. rewrite pair_at_S in Hp. apply settle_before_S in Hs.
           exists n, c. repeat split; [lia | assumption | tauto].
    + destruct (statuses_of_calls x (fst (stop_at action i0 x))) as (-> & _ & _).
      destruct (stop_at_calls i0 x) as (-> & _ & _).
      rewrite elem_of_cons. split.
      * intros [E | H]; [|inversion H]. inversion E; subst.
        exists 0%nat, (snd x). rewrite pair_at_0, V, Nat.add_0_r.
        destruct x. repeat split. apply settle_before_0.
      * intros (n & c & -> & Hp & Hs). destruct n as [|n].
        -- left. rewrite pair_at_0, V in Hp. inversion Hp; subst.
           now rewrite Nat.add_0_r.
        -- apply settle_before_S in Hs. destruct Hs as [Hs _].
           specialize (Hs x V). congruence.
  - rewrite IH. split.
    + intros (n & c & -> & Hp & Hs). exists (S n), c.
      rewrite pair_at_S, settle_before_S.
      repeat split; [lia | assumption | | assumption]. intros y Hy. congruence.
    + intros (n & c & -> & Hp & Hs). destruct n as [|n].
      * rewrite pair_at_0, V in Hp. discriminate.
      * rewrite pair_at_S in Hp. apply settle_before_S in Hs.
        exists n, c. repeat split; [lia | assumption | tauto].
Qed.

(** A position is reported as invalid exactly when its id or record is
    missing and the calls for all valid pairs before it settled. *)
Lemma fallback_loop_diagnostics (ids : list (option string)) (i0 k : nat) :
  k ∈ diagnostics (fst (fallback_loop action withCallback i0 ids customers))
  <-> exists n,
        k = (i0 + n)%nat
        /\ pair_at i0 ids customers n = Some None
        /\ settle_before action i0 ids customers n.
Proof.
  revert i0; induction ids as [|cid0 rest IH]; intros i0.
  { simpl. split; [intros H; inversion H|].
    intros (n & _ & H & _). unfold pair_at in H.
    now rewrite lookup_nil in H. }
  rewrite fallback_loop_cons. cbv zeta.
  destruct (valid_pair cid0 (mjoin (customers !! i0))) as [x|] eqn:V; simpl.
  - destruct (settles action x) eqn:St; simpl.
    + destruct (statuses_of_calls x
                  (HandlerSettled i0
                     :: fst (fallback_loop action withCallback (S i0) rest
                               customers))) as (_ & -> & _).
      simpl. rewrite IH. split.
      * intros (n & -> & Hp & Hs). exists (S n).
        rewrite pair_at_S, settle_before_S.
        repeat split; [lia | assumption | | assumption].
        intros y Hy. congruence.
      * intros (n & -> & Hp & Hs). destruct n as [|n].
        -- rewrite pair_at_0, V in Hp. discriminate.
        -- rewrite pair_at_S in Hp. apply settle_before_S in Hs.
           exists n. repeat split; [lia | assumption | tauto].
    + destruct (statuses_of_calls x (fst (stop_at action i0 x))) as (_ & -> & _).
      destruct (stop_at_calls i0 x) as (_ & -> & _).
      split; [intros H; inversion H|].
      intros (n & -> & Hp & Hs). destruct n as [|n].
      * rewrite pair_at_0, V in Hp. discriminate.
      * apply settle_before_S in Hs. destruct Hs as [Hs _].
        specialize (Hs x V). congruence.
  - rewrite elem_of_cons, IH. split.
    + intros [-> | (n & -> & Hp & Hs)].
      * exists 0%nat. rewrite pair_at_0, V, Nat.add_0_r.
        repeat split. apply settle_before_0.
      * exists (S n). rewrite pair_at_S, settle_before_S.
        repeat split; [lia | assumption | | assumption].
        intros y Hy. congruence.
    + intros (n & -> & Hp & Hs). destruct n as [|n].
      * left. lia.
      * right. rewrite pair_at_S in Hp. apply settle_before_S in Hs.
        exists n. repeat split; [lia | assumption | tauto].
Qed.

(** The first call that throws ends the loop with what it threw. *)
Lemma fallback_loop_throws (ids : list (option string)) (i0 n : nat)
    (x : string * Customer) (e : Thrown) :
  pair_at i0 ids customers n = Some (Some x) ->
  settle_before action i0 ids customers n ->
  throws action x e ->
  snd (fallback_loop action withCallback i0 ids customers) = Rejected e.
Proof.
  revert i0 n; induction ids as [|cid0 rest IH]; intros i0 n Hp Hs Hx.
  { unfold pair_at in Hp. now rewrite lookup_nil in Hp. }
  rewrite fallback_loop_cons. cbv zeta. destruct n as [|n].
  - rewrite pair_at_0 in Hp. inversion Hp as [V]. rewrite V.
    assert (St : settles action x = false).
    { unfold settles. destruct Hx as [-> | ->]; reflexivity. }
    rewrite St. unfold stop_at. destruct Hx as [-> | ->]; reflexivity.
  - rewrite pair_at_S in Hp. apply settle_before_S in Hs.
    destruct Hs as [H0 Hs].
    destruct (valid_pair cid0 (mjoin (customers !! i0))) as [y|] eqn:V;
      simpl; [rewrite (H0 y eq_refl); simpl|]; now apply (IH (S i0) n).
Qed.

(** When every call settles, the loop runs to its end. *)
Lemma fallback_loop_resolves (ids : list (option string)) (i0 : nat) :
  (forall n x, pair_at i0 ids customers n = Some (Some x) ->
               settles action x = true) ->
  snd (fallback_loop action withCallback i0 ids customers) = Resolved.
Proof.
  revert i0; induction ids as [|cid0 rest IH]; intros i0 H; [reflexivity|].
  rewrite fallback_loop_cons. cbv zeta.
  assert (Hrest : snd (fallback_loop action withCallback (S i0) rest
                         customers) = Resolved).
  { apply IH. intros n x Hp. apply (H (S n) x). now rewrite pair_at_S. }
  destruct (valid_pair cid0 (mjoin (customers !! i0))) as [y|] eqn:V; simpl;
    [|exact Hrest].
  rewrite (H 0%nat y); [exact Hrest|]. now rewrite pair_at_0, V.
Qed.

(** The calls are made by increasing position. *)
Lemma fallback_loop_order (ids : list (option string)) (i0 : nat) :
  StronglySorted lt
    (map fst
       (handler_calls
          (fst (fallback_loop action withCallback i0 ids customers)))).
Proof.
  revert i0; induction ids as [|cid0 rest IH]; intros i0; [constructor|].
  rewrite fallback_loop_cons. cbv zeta.
  destruct (valid_pair cid0 (mjoin (customers !! i0))) as [x|] eqn:V; simpl;
    [|apply IH].
  destruct (settles action x) eqn:St; simpl.
  - destruct (statuses_of_calls x
                (HandlerSettled i0
                   :: fst (fallback_loop action withCallback (S i0) rest
                             customers))) as (-> & _ & _).
    simpl. constructor; [apply IH|].
    apply Forall_forall. intros k Hk.
    apply list_elem_of_In, in_map_iff in Hk. destruct Hk as [[k' c] [<- Hk]].
    apply list_elem_of_In, fallback_loop_calls in Hk.
    destruct Hk as (n & _ & -> & _). simpl. lia.
  - destruct (statuses_of_calls x (fst (stop_at action i0 x))) as (-> & _ & _).
    destruct (stop_at_calls i0 x) as (-> & _ & _).
    simpl. repeat constructor.
Qed.
End FallbackLoop.

Lemma trace_app_failed (t : list TraceEvent) (e : Thrown) :
  handler_calls (t ++ [BatchActionFailed e]) = handler_calls t
  /\ diagnostics (t ++ [BatchActionFailed e]) = diagnostics t
  /\ forall s, sequential s (t ++ [BatchActionFailed e]) = sequential s t.
Proof.
  induction t as [|ev t (IH1 & IH2 & IH3)]; [now repeat split|].
  destruct ev; simpl; rewrite ?IH1, ?IH2; repeat split; intros s;
    destruct s; now rewrite ?IH3.
Qed.

(** Without a batch handler, [executeBatchAction] is the loop, with a log
    line when it is rejected. *)
Lemma executeBatchAction_fallback action customerIds customers withCallback :
  batchHandler action = None ->
  executeBatchAction action customerIds customers withCallback
  = let loop := fallback_loop action withCallback 0 customerIds customers in
    match snd loop with
    | Rejected e => (fst loop ++ [BatchActionFailed e], Rejected e)
    | r => (fst loop, r)
    end.
Proof.
  intros H. unfold executeBatchAction. rewrite H.
  now destruct (fallback_loop action withCallback 0 customerIds customers)
    as [t [|e|]].
Qed.

(** C5.  For an action without batch handler, [executeBatchAction] calls
    the handler by increasing position with at most one call in flight.
    The position [k] is called exactly when its id and record are present
    and the calls for all valid pairs before it settled; it is reported as
    invalid exactly when its id or record is missing and the calls before
    it settled, so an invalid pair does not end the batch.  When the call
    at [k] is the first one that throws, the promise is rejected with what
    was thrown, the trace ends with the failure log and no position after
    [k] is called.  When every call settles, the promise resolves. *)
Theorem fallback_is_sequential
    (action : ActionOption) (customerIds : list (option string))
    (customers : list (option Customer)) (withCallback : bool) :
  batchHandler action = None ->
  let t := fst (executeBatchAction action customerIds customers withCallback) in
  let r := snd (executeBatchAction action customerIds customers withCallback) in
  sequential None t = true
  /\ StronglySorted lt (map fst (handler_calls t))
  /\ (forall k cid,
        (k, cid) ∈ handler_calls t
        <-> exists c, pair_at 0 customerIds customers k = Some (Some (cid, c))
                      /\ settle_before action 0 customerIds customers k)
  /\ (forall k,
        k ∈ diagnostics t
        <-> pair_at 0 customerIds customers k = Some None
            /\ settle_before action 0 customerIds customers k)
  /\ (forall k x e,
        pair_at 0 customerIds customers k = Some (Some x) ->
        settle_before action 0 customerIds customers k ->
        throws action x e ->
        r = Rejected e
        /\ last t = Some (BatchActionFailed e)
        /\ forall j cid, (j, cid) ∈ handler_calls t -> (j <= k)%nat)
  /\ ((forall k x, pair_at 0 customerIds customers k = Some (Some x) ->
                   settles action x = true) ->
      r = Resolved).
Proof.
  intros Hnone t r.
  pose proof (executeBatchAction_fallback action customerIds customers
                withCallback Hnone) as E.
  cbv zeta in E.
  set (loop := fallback_loop action withCallback 0 customerIds customers) in E.
  assert (Hc : handler_calls t = handler_calls (fst loop)
               /\ diagnostics t = diagnostics (fst loop)
               /\ sequential None t = sequential None (fst loop)
               /\ r = snd loop).
  { subst t r. rewrite E. destruct (snd loop) as [|e|]; simpl;
      try now repeat split.
    destruct (trace_app_failed (fst loop) e) as (-> & -> & ->).
    now repeat split. }
  destruct Hc as (Hcalls & Hdiag & Hseq & Hres).
  assert (Hiff : forall k cid,
            (k, cid) ∈ handler_calls t
            <-> exists c, pair_at 0 customerIds customers k
                          = Some (Some (cid, c))
                          /\ settle_before action 0 customerIds customers k).
  { intros k cid. rewrite Hcalls. subst loop. rewrite fallback_loop_calls.
    split.
    - intros (n & c & -> & H1 & H2). now exists c.
    - intros (c & H1 & H2). now exists k, c. }
  split; [rewrite Hseq; apply fallback_loop_sequential|].
  split; [rewrite Hcalls; apply fallback_loop_order|].
  split; [exact Hiff|].
  split.
  { intros k. rewrite Hdiag. subst loop. rewrite fallback_loop_diagnostics.
    split.
    - intros (n & -> & H1 & H2). now split.
    - intros (H1 & H2). now exists k. }
  split.
  - intros k x e Hp Hs Hx.
    assert (Hr : snd loop = Rejected e)
      by (subst loop; now apply (fallback_loop_throws _ _ _ _ 0%nat k x e)).
    split; [now rewrite Hres|]. split.
    + subst t. rewrite E, Hr. simpl. apply last_snoc.
    + intros j cid Hj. apply Hiff in Hj. destruct Hj as (c & _ & Hsj).
      destruct (Nat.le_gt_cases j k) as [|Hlt]; [assumption|].
      specialize (Hsj k x Hlt Hp).
      unfold settles in Hsj. destruct Hx as [Hx|Hx]; rewrite Hx in Hsj;
        discriminate.
  - intros Hall. rewrite Hres. subst loop. now apply fallback_loop_resolves.
Qed.

Lemma fallback_is_sequential_witness :
  snd (executeBatchAction migrate_action
         [Some "c1"; None; Some "c3"; Some "c4"] (map Some five_source) true)
  = Rejected (ErrorObj "boom")
  /\ sequential None
       (fst (executeBatchAction migrate_action
               [Some "c1"; None; Some "c3"; Some "c4"] (map Some five_source)
               true)) = true.
Proof.
  destruct (fallback_is_sequential migrate_action
              [Some "c1"; None; Some "c3"; Some "c4"] (map Some five_source)
              true eq_refl) as (H1 & _ & _ & _ & H5 & _).
  split; [|exact H1].
  apply (H5 2%nat ("c3", sample_customer "c3" None (owes 300))
           (ErrorObj "boom")).
  - reflexivity.
  - intros m x Hm Hp. destruct m as [|[|m]]; [| |lia].
    + vm_compute in Hp. inversion Hp. reflexivity.
    + vm_compute in Hp. discriminate Hp.
  - right. reflexivity.
Defined.

(** ** C3: the keys of the status map *)

Lemma deref_Map_set (r : Ref) (k : string) (v : StatusEntry) (st : State) :
  deref (Map_set r k v st) r = <[k := v]> (deref st r).
Proof.
  destruct st. unfold Map_set, deref. unfold_setters. simpl.
  now rewrite lookup_insert_eq.
Qed.

Lemma deref_fill_pending (r : Ref) (sel : list Entry) (st : State) :
  deref (fill_pending r sel st) r
  = fold_left (fun m c => <[id (customer c) := pending_entry]> m) sel
      (deref st r).
Proof.
  unfold fill_pending. revert st; induction sel as [|c sel IH]; intros st;
    simpl; [reflexivity|].
  now rewrite IH, deref_Map_set.
Qed.

Lemma fill_pending_cells (r : Ref) (sel : list Entry) (st : State) :
  isBatchMigrationInProgress (fill_pending r sel st)
  = isBatchMigrationInProgress st.
Proof.
  unfold fill_pending. revert st; induction sel as [|c sel IH]; intros st;
    simpl; [reflexivity|].
  rewrite IH. now destruct st.
Qed.

Lemma pending_map_spec (sel : list Entry) (m : gmap string StatusEntry) :
  let m' := fold_left (fun m c => <[id (customer c) := pending_entry]> m)
              sel m in
  dom m' = dom m ∪ list_to_set (map (fun c => id (customer c)) sel)
  /\ forall i, i ∈ map (fun c => id (customer c)) sel ->
               m' !! i = Some pending_entry.
Proof.
  revert m; induction sel as [|c sel IH]; intros m; simpl.
  - split; [set_solver | intros i Hi; inversion Hi].
  - destruct (IH (<[id (customer c) := pending_entry]> m)) as [Hd Hl].
    split.
    + rewrite Hd, dom_insert_L. set_solver.
    + intros i Hi.
      destruct (decide (i ∈ map (fun c => id (customer c)) sel)) as [Hin|Hnin];
        [now apply Hl|].
      apply elem_of_cons in Hi. destruct Hi as [-> | Hi]; [|contradiction].
      clear Hd Hl IH. revert m Hnin. induction sel as [|d sel IH]; intros m Hnin;
        simpl; [apply lookup_insert_eq|].
      rewrite insert_insert_ne.
      * apply IH. set_solver.
      * simpl in Hnin. set_solver.
Qed.

Lemma dom_apply_callbacks (callbacks : list (string * string)) (st : State) :
  dom (statusMap (apply_callbacks callbacks st))
  = dom (statusMap st) ∪ list_to_set (map fst callbacks).
Proof.
  unfold apply_callbacks. revert st; induction callbacks as [|cb l IH];
    intros st; simpl; [set_solver|].
  rewrite IH. unfold batchStatusCallback.
  rewrite statusMap_update_status, dom_insert_L. set_solver.
Qed.

(** The [catch] block only writes keys of the run. *)
Lemma dom_catch (r : BatchRun) (e : Thrown) (sel : list Entry) (st : State) :
  list_to_set (map (fun c => id (customer c)) sel) ⊆ dom (statusMap st) ->
  dom (statusMap (fold_left (catch_step r e) sel st)) = dom (statusMap st).
Proof.
  revert st; induction sel as [|c sel IH]; intros st Hsub; simpl;
    [reflexivity|].
  assert (Hstep : dom (statusMap (catch_step r e st c)) = dom (statusMap st)).
  { unfold catch_step.
    destruct (deref st (run_statuses r) !! id (customer c)) as [cur|];
      [destruct (status cur)|]; try reflexivity;
      rewrite statusMap_update_status, dom_insert_L; set_solver. }
  rewrite IH; [exact Hstep|]. rewrite Hstep. set_solver.
Qed.

Lemma statusMap_setMigrationStatuses (r : Ref) (st : State) :
  statusMap (setMigrationStatuses r st) = deref st r.
Proof. now destruct st. Qed.

(** The status map right after the start of a migration run. *)
Lemma statusMap_started (p : Props) (st : State) :
  selectedCustomers p st <> [] ->
  is_migrate (actions (config p) !! selectedActionIndex st) = true ->
  handleBatchAction p st
  = (fst (handleBatchAction p st), CallBatch (batch_closure p st))
  /\ statusMap (fst (handleBatchAction p st))
     = fold_left (fun m c => <[id (customer c) := pending_entry]> m)
         (selectedCustomers p st) ∅.
Proof.
  intros Hsel Hmig. unfold handleBatchAction.
  assert (Hlen : (List.length (run_selected (batch_closure p st)) =? 0)%nat
                 = false).
  { simpl. destruct (selectedCustomers p st); [contradiction | reflexivity]. }
  rewrite Hlen. simpl run_migrate. rewrite Hmig.
  unfold new_Map. simpl. split; [reflexivity|].
  rewrite statusMap_setMigrationStatuses, deref_fill_pending. f_equal.
  destruct st. unfold deref. unfold_setters. simpl.
  now rewrite lookup_insert_eq.
Qed.

(** The [catch] block removes no key and adds only identifiers of its
    run, in whatever state it runs. *)
Lemma dom_catch_bounds (r : BatchRun) (e : Thrown) (sel : list Entry)
    (st : State) :
  dom (statusMap st) ⊆ dom (statusMap (fold_left (catch_step r e) sel st))
  /\ dom (statusMap (fold_left (catch_step r e) sel st))
     ⊆ dom (statusMap st) ∪ list_to_set (map (fun c => id (customer c)) sel).
Proof.
  revert st; induction sel as [|c sel IH]; intros st; simpl;
    [split; set_solver|].
  assert (Hstep : dom (statusMap (catch_step r e st c)) = dom (statusMap st)
                  \/ dom (statusMap (catch_step r e st c))
                     = {[ id (customer c) ]} ∪ dom (statusMap st)).
  { unfold catch_step.
    destruct (deref st (run_statuses r) !! id (customer c)) as [cur|];
      [destruct (status cur)|]; try (now left);
      right; now rewrite statusMap_update_status, dom_insert_L. }
  destruct (IH (catch_step r e st c)) as [H1 H2].
  destruct Hstep as [E|E]; rewrite E in H1, H2; split; set_solver.
Qed.

(** C3, as the code has it.  A migration run started for the selected
    customers of the page initialises the status map with exactly their
    identifiers, all [pending].  Every status callback writes the key it is
    called with, so after a sequence of callbacks the keys are the
    identifiers of the run together with the identifiers the callbacks were
    called with, and after these callbacks the abort path adds no key.  When
    the callbacks are only called with identifiers of the run, the key set
    stays the one of the start.  In whatever state the abort path runs, it
    removes no key of the map of that state and adds only identifiers of its
    run. *)
Theorem status_keys (p : Props) (st : State) :
  selectedCustomers p st <> [] ->
  is_migrate (actions (config p) !! selectedActionIndex st) = true ->
  let r := batch_closure p st in
  let started := fst (handleBatchAction p st) in
  let ids : gset string := list_to_set (run_customerIds r) in
  snd (handleBatchAction p st) = CallBatch r
  /\ dom (statusMap started) = ids
  /\ (forall i, i ∈ ids -> statusMap started !! i = Some pending_entry)
  /\ (forall callbacks,
        dom (statusMap (apply_callbacks callbacks started))
        = ids ∪ list_to_set (map fst callbacks)
        /\ (forall e,
              dom (statusMap
                     (batch_rejected r e (apply_callbacks callbacks started)))
              = ids ∪ list_to_set (map fst callbacks))
        /\ ((forall i, i ∈ map fst callbacks -> i ∈ ids) ->
            keys_stay r started callbacks))
  /\ (forall (now : State) e,
        dom (statusMap now) ⊆ dom (statusMap (batch_rejected r e now))
        /\ dom (statusMap (batch_rejected r e now))
           ⊆ dom (statusMap now) ∪ ids).
Proof.
  intros Hsel Hmig r started ids.
  destruct (statusMap_started p st Hsel Hmig) as [Hcall Hmap].
  destruct (pending_map_spec (selectedCustomers p st) ∅) as [Hdom Hpend].
  cbv zeta in Hdom, Hpend. rewrite <- Hmap in Hdom, Hpend.
  fold started in Hdom, Hpend.
  assert (Hd : dom (statusMap started) = ids).
  { rewrite Hdom, dom_empty_L. subst ids r. unfold run_customerIds. simpl.
    set_solver. }
  split; [now rewrite Hcall|]. split; [exact Hd|]. split.
  { intros i Hi. apply Hpend. subst ids r. unfold run_customerIds in Hi.
    simpl in Hi. now apply elem_of_list_to_set in Hi. }
  split.
  - intros callbacks.
    assert (Hcb : dom (statusMap (apply_callbacks callbacks started))
                  = ids ∪ list_to_set (map fst callbacks))
      by (now rewrite dom_apply_callbacks, Hd).
    assert (Hab : forall e,
              dom (statusMap
                     (batch_rejected r e (apply_callbacks callbacks started)))
              = ids ∪ list_to_set (map fst callbacks)).
    { intros e. unfold batch_rejected.
      destruct (run_migrate r); [|exact Hcb].
      rewrite dom_catch; [exact Hcb|]. rewrite Hcb. subst ids.
      unfold run_customerIds. set_solver. }
    split; [exact Hcb|]. split; [exact Hab|].
    intros Hin. unfold keys_stay. fold ids.
    assert (Hsub : ids ∪ list_to_set (map fst callbacks) = ids) by set_solver.
    split; [now rewrite Hcb | intros e; now rewrite Hab].
  - intros now e. unfold batch_rejected.
    destruct (run_migrate r); [|split; set_solver].
    apply dom_catch_bounds.
Qed.

Lemma status_keys_witness :
  dom (statusMap batch_view_state) = list_to_set (run_customerIds first_run)
  /\ keys_stay first_run batch_view_state
       [("c2", "Migrating"); ("c2", "Migration completed successfully")].
Proof.
  destruct (status_keys (sample_props None) menu_open_state)
    as (_ & Hd & _ & H & _); [vm_compute; discriminate | reflexivity |].
  split; [exact Hd|].
  apply (H [("c2", "Migrating"); ("c2", "Migration completed successfully")]).
  clear. intros i Hi. simpl in Hi.
  assert (E : i = "c2").
  { repeat (apply elem_of_cons in Hi; destruct Hi as [Hi|Hi];
            [exact Hi|]).
    inversion Hi. }
  subst i. apply elem_of_list_to_set. vm_compute.
  apply list_elem_of_further, list_elem_of_here.
Defined.

(** Where the map was replaced since the start, the abort path does add
    keys: after escape has closed the view of the first run with a new,
    empty map, and after a second run has started for [c2] alone, the
    [catch] block of the first run puts [c1] .. [c5] into the map of the
    moment. *)
Lemma abort_after_escape_adds_keys (e : Thrown) :
  dom (statusMap closed_view_state) = ∅
  /\ dom (statusMap (batch_rejected first_run e closed_view_state))
     = list_to_set (run_customerIds first_run)
  /\ dom (statusMap second_run_state) = {[ "c2" ]}
  /\ dom (statusMap (batch_rejected first_run e second_run_state))
     = list_to_set (run_customerIds first_run).
Proof.
  destruct e as [m|]; repeat split; vm_compute; reflexivity.
Qed.

(** C3 as stated fails: a callback called with an identifier that is not in
    the run ([zz]) adds that key to the status map. *)
Lemma status_keys_grow :
  ~ keys_stay first_run batch_view_state [("zz", "Migrating")].
Proof.
  intros [H _].
  assert (Hin : "zz" ∈ dom (statusMap
                              (apply_callbacks [("zz", "Migrating")]
                                 batch_view_state))).
  { rewrite dom_apply_callbacks. set_solver. }
  rewrite H in Hin. apply elem_of_list_to_set in Hin.
  vm_compute in Hin.
  repeat (apply elem_of_cons in Hin; destruct Hin as [Hin|Hin];
          [discriminate Hin|]).
  inversion Hin.
Qed.

(** ** C6: status callbacks of a superseded run *)

(** C6, as the code has it.  A batch run carries no session token: the
    status callback of every run is the same function of the identifier and
    the message.  Whenever it is called, also after its run was superseded
    by a new run or by closing the progress view, it sets the entry of its
    identifier in the current status map to the classified status and the
    message, adds the identifier when it is absent, and leaves the other
    entries alone.  The map stays as it is only when it already holds that
    entry. *)
Theorem stale_callback_is_applied (st : State) (customerId msg : string) :
  apply_trace_event (StatusReported customerId msg) st
  = batchStatusCallback customerId msg st
  /\ statusMap (batchStatusCallback customerId msg st)
     = <[customerId := entry (finalStatus msg) msg]> (statusMap st)
  /\ statusMap (batchStatusCallback customerId msg st) !! customerId
     = Some (entry (finalStatus msg) msg)
  /\ (forall i, i <> customerId ->
        statusMap (batchStatusCallback customerId msg st) !! i
        = statusMap st !! i)
  /\ (stale_update_discarded st customerId msg
      <-> statusMap st !! customerId = Some (entry (finalStatus msg) msg)).
Proof.
  assert (E : statusMap (batchStatusCallback customerId msg st)
              = <[customerId := entry (finalStatus msg) msg]> (statusMap st))
    by apply statusMap_update_status.
  split; [reflexivity|]. split; [exact E|]. rewrite E.
  split; [apply lookup_insert_eq|].
  split; [intros i Hi; now apply lookup_insert_ne|].
  unfold stale_update_discarded. rewrite E. split.
  - intros H. rewrite <- H. apply lookup_insert_eq.
  - apply insert_id.
Qed.

(** C6 as stated fails.  The first run, over [c1] .. [c5], reports
    "Migration completed successfully" for [c1].  When that callback fires
    after the second run (over [c2] alone) has started, the status map of
    the second run gets the key [c1]; when it fires after the progress view
    was closed, the emptied map gets it. *)
Lemma stale_callback_reaches_new_run :
  StatusReported "c1" "Migration completed successfully" ∈ fst first_run_trace
  /\ statusMap second_run_state = {[ "c2" := pending_entry ]}
  /\ ~ stale_update_discarded second_run_state "c1"
         "Migration completed successfully"
  /\ statusMap closed_view_state = ∅
  /\ ~ stale_update_discarded closed_view_state "c1"
         "Migration completed successfully".
Proof.
  assert (H2 : statusMap second_run_state = {[ "c2" := pending_entry ]})
    by (vm_compute; reflexivity).
  assert (H0 : statusMap closed_view_state = ∅) by (vm_compute; reflexivity).
  split.
  { vm_compute. apply list_elem_of_further, list_elem_of_here. }
  split; [exact H2|]. split; [|split; [exact H0|]].
  - unfold stale_update_discarded, batchStatusCallback.
    rewrite statusMap_update_status, H2. intros H.
    apply (f_equal (fun m => m !! "c1")) in H.
    rewrite lookup_insert_eq in H. discriminate H.
  - unfold stale_update_discarded, batchStatusCallback.
    rewrite statusMap_update_status, H0. intros H.
    apply (f_equal (fun m => m !! "c1")) in H.
    rewrite lookup_insert_eq in H. discriminate H.
Qed.

(** ** C1: the abort rule *)

(** C1 on the batch of five of the specification: the handler of the third
    customer throws "boom" after the first two were reported completed.  At
    the throw, [c1] and [c2] are [completed]; the [catch] block then reads
    the status map of the render that started the run, which is empty, and
    marks all five customers [failed], the completed ones included. *)
Theorem batch_abort_overwrites_completed :
  snd first_run_trace = Rejected (ErrorObj "boom")
  /\ statusMap state_at_throw
     = {[ "c1" := entry completed "Migration completed successfully";
          "c2" := entry completed "Migration completed successfully";
          "c3" := entry in_progress "Migrating";
          "c4" := pending_entry;
          "c5" := pending_entry ]}
  /\ deref state_at_throw (run_statuses first_run) = ∅
  /\ statusMap state_after_abort
     = {[ "c1" := entry failed "boom";
          "c2" := entry failed "boom";
          "c3" := entry failed "boom";
          "c4" := entry failed "boom";
          "c5" := entry failed "boom" ]}.
Proof. repeat split; vm_compute; reflexivity. Qed.

(** ** C2: what a confirm in the menu runs *)

(** C2 on two customers per page with [c1] (first page) and [c3] (second
    page) selected: a confirm on the first page runs the batch for [c1]
    alone, a confirm on the third page runs nothing, while the menu
    announces two selected customers. *)
Theorem confirm_runs_current_page_only :
  isMultiSelectMode cross_page_state = true
  /\ selectedCustomerIds cross_page_state = {[ "c1"; "c3" ]}
  /\ page_ids (sample_props (Some (Fin 2))) cross_page_state = ["c1"; "c2"]
  /\ dispatched_ids
       (snd (key_event (sample_props (Some (Fin 2))) cross_page_state ""
               key_return)) = Some ["c1"]
  /\ selectedCustomerIds off_page_state = {[ "c1"; "c3" ]}
  /\ page_ids (sample_props (Some (Fin 2))) off_page_state = ["c5"]
  /\ snd (key_event (sample_props (Some (Fin 2))) off_page_state "" key_return)
     = NoCall.
Proof. repeat split; vm_compute; reflexivity. Qed.

(** What holds of a confirm in general.  In multi-select mode with a
    non-empty selection, the batch gets the selected identifiers of the
    current page, in page order, and nothing is run when there is none. *)
Lemma handleOptionSelect_batch (p : Props) (st : State) :
  isMultiSelectMode st = true ->
  selectedCustomerIds st <> ∅ ->
  dispatched_ids (snd (handleOptionSelect p st))
  = match selectedCustomers p st with
    | [] => None
    | sel => Some (map (fun c => id (customer c)) sel)
    end.
Proof.
  intros Hm Hne. unfold handleOptionSelect. rewrite Hm.
  assert (Hs : (0 <? size (selectedCustomerIds st))%nat = true).
  { apply Nat.ltb_lt. destruct (size (selectedCustomerIds st)) eqn:E; [|lia].
    apply size_empty_inv in E. apply leibniz_equiv in E. contradiction. }
  rewrite Hs. simpl. unfold handleBatchAction. simpl run_selected.
  destruct (selectedCustomers p st) as [|c sel] eqn:E; [reflexivity|].
  simpl List.length. simpl Nat.eqb. cbv iota.
  destruct (run_migrate (batch_closure p st)) eqn:Mg.
  - unfold new_Map. simpl. unfold run_customerIds. simpl. now rewrite E.
  - simpl. unfold run_customerIds. simpl. now rewrite E.
Qed.

(** Outside multi-select mode, or with nothing selected, the handler of the
    highlighted action is called with the record under the cursor. *)
Lemma handleOptionSelect_single (p : Props) (st : State) (e : Entry)
    (a : ActionOption) :
  isMultiSelectMode st = false \/ selectedCustomerIds st = ∅ ->
  currentCustomers p st !! selectedCustomerIndex st = Some e ->
  actions (config p) !! selectedActionIndex st = Some a ->
  snd (handleOptionSelect p st) = CallSingle a (id (customer e)) (customer e).
Proof.
  intros Hoff He Ha. unfold handleOptionSelect.
  assert (Hc : isMultiSelectMode st
               && (0 <? size (selectedCustomerIds st))%nat = false).
  { destruct Hoff as [-> | ->]; [reflexivity|].
    rewrite size_empty. apply andb_false_r. }
  rewrite Hc, He. unfold executeSelectedAction. now rewrite Ha.
Qed.

(** The abort rule in general.  [update_status] writes the object in the
    state cell and a fresh one; an older object is not touched. *)
Lemma update_status_refs (k : string) (v : StatusEntry) (st : State) :
  migrationStatuses (update_status k v st) = nextRef st
  /\ nextRef (update_status k v st) = S (nextRef st)
  /\ forall r, r <> migrationStatuses st -> r <> nextRef st ->
               deref (update_status k v st) r = deref st r.
Proof.
  destruct st. unfold update_status, new_Map, Map_set, deref. unfold_setters.
  simpl. repeat split. intros r H1 H2. now rewrite !lookup_insert_ne.
Qed.

Lemma update_status_old (r : BatchRun) (k : string) (v : StatusEntry)
    (st : State) :
  closure_map_is_old r st ->
  closure_map_is_old r (update_status k v st)
  /\ deref (update_status k v st) (run_statuses r) = deref st (run_statuses r).
Proof.
  intros [H1 H2]. destruct (update_status_refs k v st) as (E1 & E2 & E3).
  unfold closure_map_is_old. rewrite E1, E2, E3; [|assumption|lia].
  repeat split; lia.
Qed.

Lemma apply_callbacks_old (r : BatchRun) (callbacks : list (string * string))
    (st : State) :
  closure_map_is_old r st ->
  closure_map_is_old r (apply_callbacks callbacks st)
  /\ deref (apply_callbacks callbacks st) (run_statuses r)
     = deref st (run_statuses r).
Proof.
  unfold apply_callbacks. revert st; induction callbacks as [|cb l IH];
    intros st Hold; simpl; [now split|].
  destruct (update_status_old r (fst cb)
              (entry (finalStatus (snd cb)) (snd cb)) st Hold) as [H1 H2].
  destruct (IH _ H1) as [H3 H4]. split; [exact H3|].
  unfold batchStatusCallback, entry in *. now rewrite H4.
Qed.

(** When the closure's map has no entry for the customers of the run, the
    [catch] block marks every one of them [failed], whatever its status in
    the current map. *)
Lemma catch_marks_all_failed (r : BatchRun) (e : Thrown) (sel : list Entry)
    (st : State) :
  closure_map_is_old r st ->
  (forall i, i ∈ map (fun c => id (customer c)) sel ->
             deref st (run_statuses r) !! i = None) ->
  forall i, i ∈ map (fun c => id (customer c)) sel ->
    statusMap (fold_left (catch_step r e) sel st) !! i
    = Some (entry failed (thrown_message e)).
Proof.
  revert st; induction sel as [|d sel IH]; intros st Hold Hnone i Hi;
    [inversion Hi|].
  simpl in *.
  assert (Hstep : catch_step r e st d
                  = update_status (id (customer d))
                      (entry failed (thrown_message e)) st).
  { unfold catch_step.
    rewrite (Hnone (id (customer d))); [reflexivity | apply list_elem_of_here]. }
  rewrite Hstep.
  destruct (update_status_old r (id (customer d))
              (entry failed (thrown_message e)) st Hold) as [Hold' Hsame].
  destruct (decide (i ∈ map (fun c => id (customer c)) sel)) as [Hin|Hnin].
  - apply IH; [exact Hold' | | exact Hin].
    intros j Hj. rewrite Hsame. apply Hnone. now apply list_elem_of_further.
  - apply elem_of_cons in Hi. destruct Hi as [-> | Hi]; [|contradiction].
    clear IH Hstep Hnone.
    set (st1 := update_status (id (customer d))
                  (entry failed (thrown_message e)) st).
    assert (H1 : statusMap st1 !! id (customer d)
                 = Some (entry failed (thrown_message e))).
    { subst st1. rewrite statusMap_update_status. apply lookup_insert_eq. }
    clearbody st1. clear Hold Hsame Hold'.
    revert st1 H1. induction sel as [|d' sel IH]; intros st1 H1; simpl;
      [exact H1|].
    simpl in Hnin. apply not_elem_of_cons in Hnin. destruct Hnin as [Hne Hnin].
    apply IH; [exact Hnin|].
    unfold catch_step.
    destruct (deref st1 (run_statuses r) !! id (customer d')) as [cur|];
      [destruct (status cur)|]; try exact H1;
      rewrite statusMap_update_status, lookup_insert_ne; try exact H1;
      congruence.
Qed.

Lemma fill_pending_frame (r : Ref) (sel : list Entry) (st : State) :
  nextRef (fill_pending r sel st) = nextRef st
  /\ forall r', r' <> r -> deref (fill_pending r sel st) r' = deref st r'.
Proof.
  unfold fill_pending. revert st; induction sel as [|c sel IH]; intros st;
    simpl; [now split|].
  destruct (IH (Map_set r (id (customer c)) pending_entry st)) as [H1 H2].
  unfold pending_entry in *. rewrite H1. split; [now destruct st|].
  intros r' Hr. rewrite (H2 r' Hr). destruct st. unfold Map_set, deref.
  unfold_setters. simpl. now rewrite lookup_insert_ne.
Qed.

(** After the start of a migration run, the closure holds the map of the
    render that started it. *)
Lemma started_closure_map (p : Props) (st : State) :
  selectedCustomers p st <> [] ->
  is_migrate (actions (config p) !! selectedActionIndex st) = true ->
  (migrationStatuses st < nextRef st)%nat ->
  closure_map_is_old (batch_closure p st) (fst (handleBatchAction p st))
  /\ deref (fst (handleBatchAction p st)) (run_statuses (batch_closure p st))
     = statusMap st.
Proof.
  intros Hsel Hmig Hlt. unfold handleBatchAction.
  assert (Hlen : (List.length (run_selected (batch_closure p st)) =? 0)%nat
                 = false).
  { simpl. destruct (selectedCustomers p st); [contradiction | reflexivity]. }
  rewrite Hlen. simpl run_migrate. rewrite Hmig.
  unfold new_Map. simpl fst. simpl run_statuses. simpl run_selected.
  set (st2 := setNextRef _ _).
  destruct (fill_pending_frame (nextRef (setIsBatchMigrationInProgress true st))
              (selectedCustomers p st) st2) as [Hn Hd].
  assert (E1 : nextRef (setIsBatchMigrationInProgress true st) = nextRef st)
    by now destruct st.
  rewrite E1 in *.
  unfold closure_map_is_old. simpl run_statuses.
  assert (E2 : forall f s, migrationStatuses (setMigrationStatuses f s) = f)
    by (intros f s; now destruct s).
  assert (E3 : forall f s, nextRef (setMigrationStatuses f s) = nextRef s)
    by (intros f s; now destruct s).
  assert (E4 : forall f s r, deref (setMigrationStatuses f s) r = deref s r)
    by (intros f s r; now destruct s).
  rewrite E2, E3, E4, Hn, Hd by lia.
  assert (E5 : nextRef st2 = S (nextRef st)) by (subst st2; now destruct st).
  rewrite E5. repeat split; try lia.
  subst st2. destruct st. unfold deref, statusMap, deref. unfold_setters.
  simpl in *. rewrite lookup_insert_ne by lia. reflexivity.
Qed.

(** The abort rule as the code has it: when the status map of the render
    that starts a migration run has no entry for the customers of the run
    (it is empty after the first render and after the progress view was
    closed), every customer of the run is [failed] with the message of what
    was thrown after the [catch] block, whatever the callbacks reported
    before. *)
Lemma abort_marks_all_failed (p : Props) (st : State)
    (callbacks : list (string * string)) (e : Thrown) :
  selectedCustomers p st <> [] ->
  is_migrate (actions (config p) !! selectedActionIndex st) = true ->
  (migrationStatuses st < nextRef st)%nat ->
  (forall i, i ∈ run_customerIds (batch_closure p st) ->
             statusMap st !! i = None) ->
  forall i, i ∈ run_customerIds (batch_closure p st) ->
    statusMap
      (batch_rejected (batch_closure p st) e
         (apply_callbacks callbacks (fst (handleBatchAction p st)))) !! i
    = Some (entry failed (thrown_message e)).
Proof.
  intros Hsel Hmig Hlt Hnone i Hi.
  destruct (started_closure_map p st Hsel Hmig Hlt) as [Hold Hmap].
  destruct (apply_callbacks_old (batch_closure p st) callbacks _ Hold)
    as [Hold' Hmap'].
  unfold batch_rejected. simpl run_migrate. rewrite Hmig.
  apply catch_marks_all_failed; [exact Hold' | | exact Hi].
  intros j Hj. rewrite Hmap', Hmap. now apply Hnone.
Qed.

(** On the fallback path the callbacks are only called with identifiers of
    the batch, so there the key set of the status map stays the one of the
    start. *)
Lemma fallback_reports_own_ids (action : ActionOption) (withCallback : bool)
    (customers : list (option Customer)) (ids : list (option string))
    (i0 : nat) (i : string) :
  i ∈ map fst
        (reported_statuses
           (fst (fallback_loop action withCallback i0 ids customers))) ->
  Some i ∈ ids.
Proof.
  assert (Hst : forall x t,
            reported_statuses (statuses_of action withCallback x ++ t)
            = map (fun m => (fst x, m))
                (if withCallback
                 then reported (handler action (fst x) (snd x)) else [])
              ++ reported_statuses t).
  { intros x t. unfold statuses_of. destruct withCallback; [|reflexivity].
    induction (reported (handler action (fst x) (snd x))) as [|m l IH];
      [reflexivity|]. simpl. now rewrite IH. }
  assert (Hown : forall (x : string * Customer) (l : list string),
            i ∈ map fst (map (fun m => (fst x, m)) l) -> i = fst x).
  { intros x l. induction l as [|m l IH]; simpl; intros H; [inversion H|].
    apply elem_of_cons in H. destruct H as [H|H]; [exact H | now apply IH]. }
  revert i0; induction ids as [|cid rest IH]; intros i0 H;
    [simpl in H; inversion H|].
  rewrite fallback_loop_cons in H. cbv zeta in H.
  destruct (valid_pair cid (mjoin (customers !! i0))) as [x|] eqn:V.
  - assert (Hx : cid = Some (fst x)).
    { unfold valid_pair in V. destruct cid as [c|]; [|discriminate].
      destruct (mjoin (customers !! i0)); [|discriminate].
      destruct (String.eqb c ""); [discriminate|]. now inversion V. }
    destruct (settles action x); simpl fst in H; simpl reported_statuses in H;
      rewrite Hst, map_app, elem_of_app in H; destruct H as [H|H].
    + apply Hown in H. subst i. rewrite Hx. apply list_elem_of_here.
    + apply list_elem_of_further. simpl in H. now apply (IH (S i0)).
    + apply Hown in H. subst i. rewrite Hx. apply list_elem_of_here.
    + unfold stop_at in H. destruct (handler_end _); simpl in H;
        inversion H.
  - simpl in H. apply list_elem_of_further. now apply (IH (S i0)).
Qed.

(** The scenario of two selected customers, [c1] and [c3]: a confirm calls
    the handler for [c1], then for [c3]. *)
Example fallback_selected_in_order :
  dispatched_ids
    (snd (key_event (sample_props None) two_selected_state "" key_return))
  = Some ["c1"; "c3"]
  /\ handler_calls
       (fst (executeBatchAction migrate_action [Some "c1"; Some "c3"]
               (map Some
                  [sample_customer "c1" None (owes 500);
                   sample_customer "c3" None (owes 300)]) true))
     = [(0%nat, "c1"); (1%nat, "c3")].
Proof. split; vm_compute; reflexivity. Qed.

(** ** Paging *)

Arguments currentCustomers : simpl never.
Arguments totalPages : simpl never.
Arguments sortedCustomersOf : simpl never.
Arguments itemsPerPage : simpl never.

(** The view, the pages and the number of pages only depend on the filter,
    the query and the page number. *)
Lemma view_cells (p : Props) (st st' : State) :
  hideZeroCreditUsers st' = hideZeroCreditUsers st ->
  fuzzySearchQuery st' = fuzzySearchQuery st ->
  sortedCustomersOf p st' = sortedCustomersOf p st
  /\ totalPages p st' = totalPages p st
  /\ (currentPage st' = currentPage st ->
      currentCustomers p st' = currentCustomers p st).
Proof.
  intros H1 H2. unfold totalPages, currentCustomers, sortedCustomersOf.
  rewrite H1, H2. repeat split. now intros ->.
Qed.

(** *** Bounds of [slice] *)

Lemma truncate_comp (q q' : Q) : (q == q')%Q -> truncate q = truncate q'.
Proof.
  intros H. unfold truncate.
  rewrite (Qfloor_comp _ _ H), (Qceiling_comp _ _ H).
  now rewrite (Qleb_comp 0%Q 0%Q (Qeq_refl 0%Q) q q' H).
Qed.

Lemma truncate_inject_Z (z : Z) : truncate (inject_Z z) = z.
Proof.
  unfold truncate. rewrite Qfloor_Z, Qceiling_Z. now destruct (Qle_bool _ _).
Qed.

Lemma truncate_le (a b : Q) : (a <= b)%Q -> (truncate a <= truncate b)%Z.
Proof.
  intros H. unfold truncate.
  destruct (Qle_bool 0 a) eqn:Ea, (Qle_bool 0 b) eqn:Eb.
  - now apply Qfloor_resp_le.
  - apply Qle_bool_iff in Ea.
    assert (Hb : ~ (0 <= b)%Q) by (rewrite <- Qle_bool_iff; congruence).
    exfalso. apply Hb. now apply Qle_trans with a.
  - assert (Ha : ~ (0 <= a)%Q) by (rewrite <- Qle_bool_iff; congruence).
    apply Qle_bool_iff in Eb.
    apply Z.le_trans with 0%Z.
    + change 0%Z with (Qceiling 0). apply Qceiling_resp_le.
      apply Qlt_le_weak. now apply Qnot_le_lt.
    + change 0%Z with (Qfloor 0). now apply Qfloor_resp_le.
  - now apply Qceiling_resp_le.
Qed.

Lemma slice_index_le (len : nat) (x : Num) : (slice_index len x <= len)%nat.
Proof.
  destruct x as [q| | |]; simpl; try lia.
  destruct (truncate q <? 0)%Z eqn:E; lia.
Qed.

Lemma length_js_slice {A} (l : list A) (s e : Num) :
  List.length (js_slice l s e)
  = (slice_index (List.length l) e - slice_index (List.length l) s)%nat.
Proof.
  unfold js_slice. rewrite length_take, length_drop.
  pose proof (slice_index_le (List.length l) e). lia.
Qed.

Lemma js_slice_elem_of {A} (l : list A) (s e : Num) (x : A) :
  x ∈ js_slice l s e -> x ∈ l.
Proof.
  unfold js_slice. intros H.
  apply elem_of_take in H. destruct H as (i & H & _).
  rewrite lookup_drop in H. now apply list_elem_of_lookup_2 in H.
Qed.

(** The two bounds of a page are on the same side of [0], the start nearer
    to it. *)
Lemma page_bounds_order (k : nat) (q : Q) :
  let zs := truncate (inject_Z (Z.of_nat k) * q) in
  let ze := truncate (inject_Z (Z.of_nat (k + 1)) * q) in
  (0 <= zs <= ze)%Z \/ (ze <= zs <= 0)%Z.
Proof.
  intros zs ze.
  assert (Hk : (0 <= inject_Z (Z.of_nat k))%Q)
    by (rewrite <- (Zle_Qle 0); lia).
  assert (Hk1 : (inject_Z (Z.of_nat k) <= inject_Z (Z.of_nat (k + 1)))%Q)
    by (rewrite <- Zle_Qle; lia).
  assert (H0 : truncate 0 = 0%Z) by reflexivity.
  set (a := inject_Z (Z.of_nat k)) in *.
  set (b := inject_Z (Z.of_nat (k + 1))) in *.
  destruct (Qlt_le_dec q 0) as [Hq|Hq].
  - right. subst zs ze. rewrite <- H0. split; apply truncate_le; nra.
  - left. subst zs ze. rewrite <- H0. split; apply truncate_le; nra.
Qed.

Lemma index_of_mono (len len' : nat) (zs ze : Z) :
  (0 <= zs <= ze)%Z \/ (ze <= zs <= 0)%Z -> (len <= len')%nat ->
  (index_of len ze - index_of len zs
   <= index_of len' ze - index_of len' zs)%nat.
Proof.
  intros H Hl. unfold index_of.
  destruct (ze <? 0)%Z eqn:Ee, (zs <? 0)%Z eqn:Es;
    rewrite ?Z.ltb_lt, ?Z.ltb_ge in *; lia.
Qed.

Lemma of_nat_nonneg (k : nat) : Qltb (inject_Z (Z.of_nat k)) 0 = false.
Proof. apply Qltb_ge. rewrite <- (Zle_Qle 0). lia. Qed.

Lemma mul_of_nat_PosInf (k : nat) :
  mul (of_nat k) PosInf = match k with O => NaN | S _ => PosInf end.
Proof. now destruct k. Qed.

Lemma mul_of_nat_NegInf (k : nat) :
  mul (of_nat k) NegInf = match k with O => NaN | S _ => NegInf end.
Proof. now destruct k. Qed.

(** A page of a longer view is not shorter, whatever the page size is. *)
Lemma page_of_length_mono (p : Props) (v v' : list Entry) (k : nat) :
  (List.length v <= List.length v')%nat ->
  (List.length (page_of p v k) <= List.length (page_of p v' k))%nat.
Proof.
  intros Hl. unfold page_of. rewrite !length_js_slice.
  destruct (itemsPerPage p) as [q| | |].
  - apply (index_of_mono _ _ _ _ (page_bounds_order k q) Hl).
  - replace (k + 1)%nat with (S k) by lia. rewrite !mul_of_nat_PosInf.
    destruct k; simpl; lia.
  - replace (k + 1)%nat with (S k) by lia. rewrite !mul_of_nat_NegInf.
    destruct k; simpl; lia.
  - simpl. lia.
Qed.

(** With more entries there are not fewer pages. *)
Lemma pages_of_mono (p : Props) (v v' : list Entry) (k : nat) :
  (List.length v <= List.length v')%nat ->
  ltb (of_nat k) (pages_of p v) = true ->
  ltb (of_nat k) (pages_of p v') = true.
Proof.
  intros Hl. unfold pages_of, of_nat.
  set (a := inject_Z (Z.of_nat (List.length v))).
  set (a' := inject_Z (Z.of_nat (List.length v'))).
  assert (Ha : (0 <= a)%Q) by (subst a; rewrite <- (Zle_Qle 0); lia).
  assert (Haa : (a <= a')%Q) by (subst a a'; rewrite <- Zle_Qle; lia).
  assert (Hk : (0 <= inject_Z (Z.of_nat k))%Q)
    by (rewrite <- (Zle_Qle 0); lia).
  destruct (itemsPerPage p) as [q| | |]; simpl; try easy.
  - destruct (Qeq_bool q 0) eqn:E0.
    + destruct (Qltb 0 a) eqn:E1.
      * apply Qltb_lt in E1.
        assert (E2 : Qltb 0 a' = true) by (apply Qltb_lt; lra).
        now rewrite E2.
      * destruct (Qltb a 0); simpl; [now destruct (Qltb _ _)|discriminate].
    + simpl. rewrite !Qltb_lt. intros H.
      apply Qeq_bool_neq in E0.
      assert (H1 : (0 < inject_Z (Qceiling (a / q)))%Q) by lra.
      rewrite <- (Zlt_Qlt 0) in H1.
      assert (Hq : (0 < q)%Q).
      { destruct (Qlt_le_dec 0 q) as [|Hq]; [assumption|]. exfalso.
        assert (Hle : (a / q <= 0)%Q).
        { assert (Hq0 : (q < 0)%Q).
          { destruct (Qle_lt_or_eq _ _ Hq); [assumption | contradiction]. }
          assert (Hn : (0 <= a / (- q))%Q) by (apply Qle_shift_div_l; lra).
          assert (Heq : (a / q == - (a / (- q)))%Q) by (field; lra).
          rewrite Heq. lra. }
        apply Qceiling_resp_le in Hle. change (Qceiling 0) with 0%Z in Hle.
        lia. }
      assert (Hle : (a / q <= a' / q)%Q).
      { apply Qle_shift_div_l; [exact Hq|].
        setoid_replace (a / q * q)%Q with a using relation Qeq; [exact Haa|].
        field. lra. }
      apply Qceiling_resp_le in Hle.
      eapply Qlt_le_trans; [exact H|]. now rewrite <- Zle_Qle.
Qed.

(** *** A page size that is a natural number *)

Lemma take_drop_min {A} (l : list A) (a b : nat) :
  (a <= b)%nat ->
  take (Nat.min b (List.length l) - Nat.min a (List.length l))
    (drop (Nat.min a (List.length l)) l)
  = take (b - a) (drop a l).
Proof.
  intros Hab. destruct (Nat.le_gt_cases (List.length l) a) as [H|H].
  - rewrite !drop_ge by lia. now rewrite !take_nil.
  - rewrite (Nat.min_l a) by lia.
    destruct (Nat.le_gt_cases b (List.length l)) as [Hb|Hb].
    + now rewrite Nat.min_l by lia.
    + rewrite Nat.min_r by lia.
      rewrite !take_ge; [reflexivity|rewrite length_drop; lia..].
Qed.

Lemma slice_index_count (len k n : nat) (q : Q) :
  (q == inject_Z (Z.of_nat n))%Q ->
  slice_index len (mul (of_nat k) (Fin q)) = Nat.min (k * n) len.
Proof.
  intros Hq. unfold mul, of_nat, slice_index.
  assert (E : truncate (inject_Z (Z.of_nat k) * q) = Z.of_nat (k * n)).
  { rewrite <- truncate_inject_Z. apply truncate_comp.
    rewrite Hq, <- inject_Z_mult. now rewrite Nat2Z.inj_mul. }
  rewrite E. destruct (Z.of_nat (k * n) <? 0)%Z eqn:E0;
    [apply Z.ltb_lt in E0; lia | lia].
Qed.

(** With a page size [n >= 1] the pages are the chunks of [n] entries ... *)
Lemma page_of_count (p : Props) (v : list Entry) (k n : nat) :
  is_count (itemsPerPage p) n ->
  page_of p v k = take n (drop (k * n) v).
Proof.
  unfold is_count, page_of, js_slice.
  destruct (itemsPerPage p) as [q| | |]; try contradiction. intros Hq.
  rewrite !(slice_index_count _ _ n q Hq).
  rewrite take_drop_min by lia. f_equal. lia.
Qed.

Lemma ceil_div_Z (a b : Z) :
  (0 <= a)%Z -> (0 < b)%Z -> (- (- a / b) = (a + b - 1) / b)%Z.
Proof. intros Ha Hb. Z.div_mod_to_equations. nia. Qed.

(** ... and their number is the length divided by [n], rounded up. *)
Lemma pages_of_count (p : Props) (v : list Entry) (n : nat) :
  (1 <= n)%nat -> is_count (itemsPerPage p) n ->
  pages_of p v = of_nat ((List.length v + n - 1) / n).
Proof.
  unfold is_count, pages_of.
  destruct (itemsPerPage p) as [q| | |]; try contradiction. intros Hn Hq.
  unfold div, of_nat.
  assert (Hpos : (0 < inject_Z (Z.of_nat n))%Q)
    by (rewrite <- (Zlt_Qlt 0); lia).
  assert (E0 : Qeq_bool q 0 = false).
  { apply not_true_is_false. intros H. apply Qeq_bool_eq in H. lra. }
  rewrite E0. unfold ceil. do 2 f_equal.
  set (len := List.length v).
  assert (Ediv : (inject_Z (Z.of_nat len) / q
                  == Z.of_nat len # Z.to_pos (Z.of_nat n))%Q).
  { rewrite Hq. unfold Qeq, Qdiv, Qmult, Qinv, inject_Z. simpl.
    destruct (Z.of_nat n) eqn:En; try lia. simpl. lia. }
  rewrite (Qceiling_comp _ _ Ediv). unfold Qceiling, Qfloor, Qopp. simpl.
  rewrite Z2Pos.id by lia.
  rewrite Nat2Z.inj_div, Nat2Z.inj_sub, Nat2Z.inj_add by lia.
  change (Z.of_nat 1) with 1%Z.
  apply ceil_div_Z; lia.
Qed.

(** Cutting a list into chunks of [n] and gluing them gives the list. *)
Lemma chunks_concat {A} (n : nat) (l : list A) (m : nat) :
  (1 <= n)%nat -> (List.length l <= m * n)%nat ->
  List.concat (map (fun k => take n (drop (k * n) l)) (seq 0 m)) = l.
Proof.
  intros Hn. revert l. induction m as [|m IH]; intros l Hl.
  - simpl in *. destruct l; [reflexivity | simpl in Hl; lia].
  - simpl. rewrite drop_0.
    transitivity (take n l ++ drop n l); [|apply take_drop]. f_equal.
    rewrite <- (IH (drop n l)).
    + rewrite <- seq_shift, map_map. f_equal. apply map_ext. intros k.
      rewrite drop_drop. reflexivity.
    + rewrite length_drop. lia.
Qed.

Lemma pages_enough (len n : nat) :
  (1 <= n)%nat -> (len <= (len + n - 1) / n * n)%nat.
Proof.
  intros Hn.
  pose proof (Nat.div_mod (len + n - 1) n ltac:(lia)) as E.
  pose proof (Nat.mod_upper_bound (len + n - 1) n ltac:(lia)) as B.
  nia.
Qed.

Lemma page_count_spec (len n k : nat) :
  (1 <= n)%nat -> (k < (len + n - 1) / n)%nat <-> (k * n < len)%nat.
Proof.
  intros Hn.
  pose proof (Nat.div_mod (len + n - 1) n ltac:(lia)) as E.
  pose proof (Nat.mod_upper_bound (len + n - 1) n ltac:(lia)) as B.
  split; intros H; nia.
Qed.

Lemma page_at_eq (p : Props) (st : State) (k : nat) :
  page_at p st k = page_of p (sortedCustomersOf p st) k.
Proof.
  unfold page_at, currentCustomers, page_of.
  assert (E : sortedCustomersOf p (setCurrentPage k st)
              = sortedCustomersOf p st)
    by (apply view_cells; now destruct st).
  rewrite E. now destruct st.
Qed.

(** A missing setting, [0] and [NaN] mean pages of 8. *)
Lemma itemsPerPage_default (p : Props) :
  match ui_itemsPerPage (config p) with
  | None => True
  | Some x => truthy x = false
  end ->
  is_count (itemsPerPage p) 8.
Proof.
  unfold itemsPerPage.
  destruct (ui_itemsPerPage (config p)) as [x|]; simpl.
  - now intros ->.
  - reflexivity.
Qed.

(** X1.  When the page size [itemsPerPage] is a natural number [n >= 1],
    the pages cut the view without loss: [totalPages] is the length of the
    view divided by [n] and rounded up, the pages [0 .. totalPages - 1]
    glued together are the whole view in its order, no page is longer than
    [n], and a page is non-empty exactly when its number is below
    [totalPages]. *)
Theorem pages_partition_view (p : Props) (st : State) (n : nat) :
  (1 <= n)%nat ->
  is_count (itemsPerPage p) n ->
  let pages := ((List.length (sortedCustomersOf p st) + n - 1) / n)%nat in
  totalPages p st = of_nat pages
  /\ List.concat (map (page_at p st) (seq 0 pages)) = sortedCustomersOf p st
  /\ (forall k, (List.length (page_at p st k) <= n)%nat)
  /\ (forall k, (k < pages)%nat <-> page_at p st k <> []).
Proof.
  intros Hn Hc pages.
  assert (Hpage : forall k,
            page_at p st k = take n (drop (k * n) (sortedCustomersOf p st))).
  { intros k. rewrite page_at_eq. now apply page_of_count. }
  split; [|split; [|split]].
  - apply (pages_of_count p (sortedCustomersOf p st) n Hn Hc).
  - rewrite (map_ext _ _ Hpage).
    apply chunks_concat; [exact Hn|]. now apply pages_enough.
  - intros k. rewrite Hpage, length_take. lia.
  - intros k. rewrite Hpage. unfold pages.
    rewrite page_count_spec by exact Hn.
    split.
    + intros H E. apply (f_equal List.length) in E.
      rewrite length_take, length_drop in E. simpl in E. lia.
    + intros H. destruct (Nat.lt_ge_cases (k * n)
                            (List.length (sortedCustomersOf p st)))
        as [|Hge]; [assumption|].
      exfalso. apply H. rewrite drop_ge by exact Hge. apply take_nil.
Qed.

(** The five sample customers on pages of 2. *)
Lemma pages_partition_view_witness :
  totalPages (sample_props (Some (Fin 2))) initial_state = of_nat 3
  /\ List.concat
       (map (page_at (sample_props (Some (Fin 2))) initial_state) (seq 0 3))
     = sortedCustomersOf (sample_props (Some (Fin 2))) initial_state.
Proof.
  destruct (pages_partition_view (sample_props (Some (Fin 2))) initial_state 2)
    as (Ht & Hc & _).
  - lia.
  - vm_compute. reflexivity.
  - split; [exact Ht | exact Hc].
Defined.

(** The page size is a number, and the setting is taken as it is: with
    2.5 the second page of the five sample customers has three rows; with
    0.5 there are ten pages, the first of them empty; with -2 the number of
    pages is -2 and the only page shows the first three customers. *)
Lemma pages_of_other_sizes :
  let five (size : Q) := sample_props (Some (Fin size)) in
  List.length (page_at (five (5 # 2)%Q) initial_state 1) = 3%nat
  /\ totalPages (five (1 # 2)%Q) initial_state = of_nat 10
  /\ page_at (five (1 # 2)%Q) initial_state 0 = []
  /\ totalPages (five (- 2)%Q) initial_state = Fin (- 2)
  /\ List.length (page_at (five (- 2)%Q) initial_state 0) = 3%nat.
Proof. repeat split; vm_compute; reflexivity. Qed.

(** ** The cursor and the page stay in range *)

Lemma key_event_fst (p : Props) (st : State) (input : string) (key : Key) :
  fst (key_event p st input key)
  = run_effects st
      (overlay_handlers p st key (fst (useInput_handler p st input key))).
Proof.
  unfold key_event. now destruct (useInput_handler p st input key).
Qed.

Lemma key_event_snd (p : Props) (st : State) (input : string) (key : Key) :
  snd (key_event p st input key) = snd (useInput_handler p st input key).
Proof.
  unfold key_event. now destruct (useInput_handler p st input key).
Qed.

(** [fill_pending] only writes the heap. *)
Lemma fill_pending_setHeap (r : Ref) (sel : list Entry) (st : State) :
  fill_pending r sel st
  = setHeap
      (fold_left
         (fun h c =>
            <[r := <[id (customer c) := pending_entry]> (default ∅ (h !! r))]> h)
         sel (heap st))
      st.
Proof.
  unfold fill_pending. revert st; induction sel as [|c sel IH]; intros st;
    simpl; [now destruct st|].
  rewrite IH. now destruct st.
Qed.

(** The test of the keys that turn to the next page. *)
Lemma next_page_guard (k : nat) (pages : Num) :
  ltb (of_nat k) (sub pages (Fin 1)) = true ->
  ltb (of_nat (k + 1)) pages = true.
Proof.
  destruct pages as [q| | |]; simpl; try easy.
  rewrite !Qltb_lt, Nat2Z.inj_add, inject_Z_plus.
  change (inject_Z (Z.of_nat 1)) with 1%Q. lra.
Qed.

Lemma ltb_of_nat_lt (k k' : nat) (pages : Num) :
  (k' < k)%nat -> ltb (of_nat k) pages = true ->
  ltb (of_nat k') pages = true.
Proof.
  intros Hk. destruct pages as [q| | |]; simpl; try easy.
  rewrite !Qltb_lt. intros H.
  assert (Hq : (inject_Z (Z.of_nat k') < inject_Z (Z.of_nat k))%Q)
    by (rewrite <- Zlt_Qlt; lia).
  lra.
Qed.

Ltac cond_atom b :=
  lazymatch b with
  | andb ?x _ => cond_atom x
  | orb ?x _ => cond_atom x
  | negb ?x => cond_atom x
  | _ => constr:(b)
  end.

Ltac split_ifs :=
  repeat (match goal with
          | |- context [if ?b then _ else _] =>
              let a := cond_atom b in
              let E := fresh "E" in destruct a eqn:E
          | |- context [match ?x with Some _ => _ | None => _ end] =>
              let E := fresh "E" in destruct x eqn:E
          end; simpl).

Ltac unfold_handler :=
  unfold useInput_handler, overlay_handlers, FullScreenDetails_handler,
    multi_select_commands, table_navigation, handleOptionSelect,
    handleBatchAction, executeSelectedAction, close_batch_view, closeMenu,
    closeComponentDialog, navigateUp, navigateDown, openMenu, new_Map,
    batch_closure, selectedCustomers;
  rewrite ?fill_pending_setHeap.

Ltac nav_leaf :=
  first
    [ apply nav_same; reflexivity
    | apply nav_reset; reflexivity
    | apply nav_query; reflexivity
    | apply nav_filter; simpl;
      match goal with |- negb ?b <> ?b => now destruct b end
    | apply nav_cursor; try reflexivity; simpl;
      match goal with
      | E : (_ <? _)%nat = true |- _ => apply Nat.ltb_lt in E; simpl in E; lia
      end
    | apply nav_page; try reflexivity; simpl;
      first
        [ lia
        | match goal with
          | E : (_ <? _)%nat = true |- _ =>
              apply Nat.ltb_lt in E; simpl in E; first [lia | left; lia]
          end
        | match goal with
          | E : _ = true |- _ => right; exact (next_page_guard _ _ E)
          end ] ].

Lemma page_lookup_id (p : Props) (st : State) (i : nat) (c : Entry) :
  currentCustomers p st !! i = Some c -> id (customer c) ∈ page_ids p st.
Proof.
  intros H. unfold page_ids. apply list_elem_of_In, in_map_iff.
  exists c. split; [reflexivity|].
  apply list_elem_of_In, list_elem_of_lookup. now exists i.
Qed.

(** The multi-select commands only write the mode and the selection. *)
Lemma multi_select_commands_effect (p : Props) (st : State) (input : string) :
  exists sel mode,
    multi_select_commands p st input
    = setSelectedCustomerIds sel (setIsMultiSelectMode mode st)
    /\ SelChange p st (setSelectedCustomerIds sel (setIsMultiSelectMode mode st)).
Proof.
  assert (Hsame : forall mode,
            (isMultiSelectMode st = mode \/ mode = true) ->
            SelChange p st
              (setSelectedCustomerIds (selectedCustomerIds st)
                 (setIsMultiSelectMode mode st))).
  { intros mode Hm. right; left. destruct st; simpl in *. split; [reflexivity|].
    destruct Hm as [<- | ->]; [now left | now right]. }
  assert (Hid : forall mode, isMultiSelectMode st = mode ->
            st = setSelectedCustomerIds (selectedCustomerIds st)
                   (setIsMultiSelectMode mode st)).
  { intros mode <-. now destruct st. }
  assert (Hpage : forall sel,
            isMultiSelectMode st = true ->
            sel ⊆ selectedCustomerIds st ∪ list_to_set (page_ids p st) ->
            SelChange p st
              (setSelectedCustomerIds sel (setIsMultiSelectMode true st))).
  { intros sel Hm Hs. right; right. now destruct st. }
  assert (Hset : forall sel,
            isMultiSelectMode st = true ->
            setSelectedCustomerIds sel st
            = setSelectedCustomerIds sel (setIsMultiSelectMode true st)).
  { intros sel Hm. destruct st; simpl in *. now subst. }
  unfold multi_select_commands.
  destruct (input_is input "m" "M").
  { destruct (isMultiSelectMode st) eqn:M; simpl.
    - exists ∅, false. split; [now destruct st | left; now destruct st].
    - exists (selectedCustomerIds st), true.
      split; [now destruct st | apply Hsame; now right]. }
  destruct (isMultiSelectMode st) eqn:M; simpl;
    [|exists (selectedCustomerIds st), false;
      split; [now apply Hid | apply Hsame; now left]].
  destruct (input_is input "s" "S").
  { destruct (currentCustomers p st !! selectedCustomerIndex st) as [c|] eqn:E.
    - apply page_lookup_id in E.
      destruct (bool_decide _); eexists _, true;
        (split; [now apply Hset | apply Hpage; [reflexivity | set_solver]]).
    - exists (selectedCustomerIds st), true.
      split; [now apply Hid | apply Hsame; now right]. }
  destruct (input_is input "a" "A").
  { rewrite fold_remove, fold_add. fold (page_ids p st).
    destruct (forallb _ _); eexists _, true;
      (split; [now apply Hset | apply Hpage; [reflexivity | set_solver]]). }
  exists (selectedCustomerIds st), true.
  split; [now apply Hid | apply Hsame; now right].
Qed.

Ltac sel_leaf HS :=
  first
    [ left; reflexivity
    | right; left; split; [reflexivity | first [left; reflexivity
                                               | right; reflexivity]]
    | exact HS ].

Ltac menu_leaf :=
  unfold MenuChange; simpl;
  first
    [ left; reflexivity
    | right; left; lia
    | right; right;
      match goal with
      | E : (_ <? _)%nat = true |- _ => apply Nat.ltb_lt in E; simpl in E; lia
      end ].

Ltac unfold_handler_but_multi :=
  unfold useInput_handler, overlay_handlers, FullScreenDetails_handler,
    table_navigation, handleOptionSelect,
    handleBatchAction, executeSelectedAction, close_batch_view, closeMenu,
    closeComponentDialog, navigateUp, navigateDown, openMenu, new_Map,
    batch_closure, selectedCustomers;
  rewrite ?fill_pending_setHeap.

(** What a key press does to the page, the cursor, the filter and the
    query, to the selection and to the menu cursor. *)
Lemma key_press_effect (p : Props) (st : State) (input : string) (key : Key) :
  let st' :=
    overlay_handlers p st key (fst (useInput_handler p st input key)) in
  NavChange p st st' /\ SelChange p st st' /\ MenuChange p st st'.
Proof.
  destruct (multi_select_commands_effect p st input) as (sel & mode & EM & HS).
  unfold_handler_but_multi. rewrite EM. clear EM.
  unfold SelChange in *.
  destruct st. unfold_setters. simpl in *.
  split_ifs; simpl;
    (split; [nav_leaf | split; [sel_leaf HS | menu_leaf]]).
Qed.

Arguments view_of : simpl never.

Lemma in_range_cells (p : Props) (st : State) :
  in_range p st
  <-> cells_in_range p (currentPage st) (selectedCustomerIndex st)
        (hideZeroCreditUsers st) (fuzzySearchQuery st).
Proof. reflexivity. Qed.

(** With a blank query the view has all the entries that pass the zero
    filter, so it is at least as long as with any other query. *)
Lemma view_grows (p : Props) (hideZero : bool) (q q' : string) :
  JsString.trim_is_empty q' = true ->
  (List.length (view_of p hideZero q) <= List.length (view_of p hideZero q'))%nat.
Proof.
  intros Hq. unfold view_of, sortedCustomers.
  rewrite !(Permutation_length (js_sort_perm _ _)).
  set (l := List.filter _ (map _ _)).
  assert (E : List.filter
                (keep_by_query (fuzzysort_single p) q') l = l).
  { generalize l. intros l0. induction l0 as [|e l0 IH]; [reflexivity|].
    simpl. unfold keep_by_query at 1. rewrite Hq. now rewrite IH. }
  rewrite E. apply filter_length_le.
Qed.

Lemma run_effects_cases (before after : State) :
  let r := run_effects before after in
  forget_maps (setSelectedCustomerIndex 0 (setCurrentPage 0 r))
  = forget_maps (setSelectedCustomerIndex 0 (setCurrentPage 0 after))
  /\ heap r = heap after /\ nextRef r = nextRef after
  /\ migrationStatuses r = migrationStatuses after
  /\ ((hideZeroCreditUsers before = hideZeroCreditUsers after
       /\ currentPage before = currentPage after /\ r = after)
      \/ (hideZeroCreditUsers before = hideZeroCreditUsers after
          /\ currentPage before <> currentPage after
          /\ currentPage r = currentPage after
          /\ selectedCustomerIndex r = 0%nat)
      \/ (hideZeroCreditUsers before <> hideZeroCreditUsers after
          /\ currentPage r = 0%nat /\ selectedCustomerIndex r = 0%nat)).
Proof.
  unfold run_effects.
  destruct (bool_decide (hideZeroCreditUsers before = hideZeroCreditUsers after))
    eqn:E1.
  - apply bool_decide_eq_true in E1.
    destruct (bool_decide (currentPage before = currentPage after)) eqn:E2.
    + apply bool_decide_eq_true in E2. repeat split. now left.
    + apply bool_decide_eq_false in E2.
      repeat split; try now destruct after.
      right; left. repeat split; try assumption; now destruct after.
  - apply bool_decide_eq_false in E1.
    destruct (bool_decide _);
      (repeat split; try now destruct after);
      right; right; (repeat split; try assumption; now destruct after).
Qed.

Lemma run_effects_cells (before after : State) :
  hideZeroCreditUsers (run_effects before after) = hideZeroCreditUsers after
  /\ fuzzySearchQuery (run_effects before after) = fuzzySearchQuery after
  /\ isMultiSelectMode (run_effects before after) = isMultiSelectMode after
  /\ selectedCustomerIds (run_effects before after)
     = selectedCustomerIds after
  /\ selectedActionIndex (run_effects before after)
     = selectedActionIndex after.
Proof.
  unfold run_effects. repeat destruct (bool_decide _); now destruct after.
Qed.

(** A change of the kinds above, followed by the effects, keeps the cursor
    and the page in range. *)
Lemma nav_change_in_range (p : Props) (st st' : State) :
  NavChange p st st' -> in_range p st -> in_range p (run_effects st st').
Proof.
  intros Hc Hin.
  change (cells_in_range p (currentPage st) (selectedCustomerIndex st)
            (hideZeroCreditUsers st) (fuzzySearchQuery st)) in Hin.
  apply in_range_cells.
  change (cells_in_range p (currentPage (run_effects st st'))
            (selectedCustomerIndex (run_effects st st'))
            (hideZeroCreditUsers (run_effects st st'))
            (fuzzySearchQuery (run_effects st st'))).
  destruct (run_effects_cells st st') as (Ehz & Eq & _).
  destruct (run_effects_cases st st') as (_ & _ & _ & _ & Hcase).
  cbv zeta in Hcase. rewrite Ehz, Eq. clear Ehz Eq.
  unfold cells_in_range in *.
  destruct Hc as [Hp Hi Hh Hq | Hp Hh Hq Hi | Hh Hq Hp Hb | Hh | Hp Hi Hh Hq
                 | Hp Hi].
  - destruct Hcase as [(_ & _ & ->) | [(_ & Hne & _) | (Hne & _)]];
      [|congruence..].
    now rewrite Hp, Hi, Hh, Hq.
  - destruct Hcase as [(_ & _ & ->) | [(_ & Hne & _) | (Hne & _)]];
      [|congruence..].
    rewrite Hp, Hh, Hq. split; [|tauto].
    change (currentCustomers p st)
      with (page_of p (view_of p (hideZeroCreditUsers st)
                         (fuzzySearchQuery st)) (currentPage st)) in Hi.
    lia.
  - destruct Hcase as [(_ & He & _) | [(_ & _ & -> & ->) | (Hne & _)]];
      [congruence| |congruence].
    rewrite Hh, Hq. split; [now left|].
    change (totalPages p st)
      with (pages_of p (view_of p (hideZeroCreditUsers st)
                          (fuzzySearchQuery st))) in Hb.
    destruct Hb as [Hb|Hb]; [|now right].
    destruct Hin as [_ [H0|Hlt]]; [lia|]. right.
    now apply (ltb_of_nat_lt (currentPage st)).
  - destruct Hcase as [(He & _) | [(He & _) | (_ & -> & ->)]];
      [congruence..|]. split; now left.
  - destruct Hcase as [(_ & _ & ->) | [(_ & Hne & _) | (Hne & _)]];
      [|congruence..].
    rewrite Hp, Hi, Hh.
    pose proof (view_grows p (hideZeroCreditUsers st) (fuzzySearchQuery st)
                  (fuzzySearchQuery st') Hq) as Hg.
    destruct Hin as [H1 H2]. split.
    + destruct H1 as [H1|H1]; [now left | right].
      pose proof (page_of_length_mono p _ _ (currentPage st) Hg). lia.
    + destruct H2 as [H2|H2]; [now left | right].
      now apply (pages_of_mono p _ _ _ Hg).
  - destruct Hcase as [(_ & _ & ->) | [(_ & _ & -> & ->) | (_ & -> & ->)]];
      rewrite ?Hp, ?Hi; split; now left.
Qed.

(** ** Invariants of every transition *)

Lemma forget_maps_cells (a b : State) :
  forget_maps a = forget_maps b ->
  currentPage a = currentPage b
  /\ selectedCustomerIndex a = selectedCustomerIndex b
  /\ hideZeroCreditUsers a = hideZeroCreditUsers b
  /\ fuzzySearchQuery a = fuzzySearchQuery b
  /\ isMultiSelectMode a = isMultiSelectMode b
  /\ selectedCustomerIds a = selectedCustomerIds b
  /\ selectedActionIndex a = selectedActionIndex b.
Proof.
  destruct a, b. unfold forget_maps. simpl. intros [= -> -> -> -> -> -> -> ->].
  subst. repeat split.
Qed.

Lemma update_status_forget (k : string) (v : StatusEntry) (st : State) :
  forget_maps (update_status k v st) = forget_maps st.
Proof. now destruct st. Qed.

Lemma batch_rejected_forget (r : BatchRun) (e : Thrown) (st : State) :
  forget_maps (batch_rejected r e st) = forget_maps st.
Proof.
  unfold batch_rejected. destruct (run_migrate r); [|reflexivity].
  revert st. induction (run_selected r) as [|c l IH]; intros st;
    [reflexivity|].
  simpl. rewrite IH. unfold catch_step.
  destruct (deref st (run_statuses r) !! id (customer c)) as [cur|];
    [destruct (status cur)|]; auto using update_status_forget.
Qed.

(** The events other than a key press and the search box leave the page,
    the cursor, the filter and the query alone. *)
Lemma async_event_nav (p : Props) (st : State) (ev : Event) :
  match ev with
  | KeyPress _ _ | SearchChange _ | SearchSubmit _ => False
  | _ => True
  end ->
  currentPage (step p st ev) = currentPage st
  /\ selectedCustomerIndex (step p st ev) = selectedCustomerIndex st
  /\ hideZeroCreditUsers (step p st ev) = hideZeroCreditUsers st
  /\ fuzzySearchQuery (step p st ev) = fuzzySearchQuery st.
Proof.
  destruct ev as [| | |cid msg|r e|r|s|res|e|]; intros H; try contradiction;
    simpl.
  - destruct (forget_maps_cells _ _
                (update_status_forget cid
                   {| status := finalStatus msg; message := Some msg |} st))
      as (? & ? & ? & ? & _). now unfold batchStatusCallback.
  - destruct (forget_maps_cells _ _ (batch_rejected_forget r e st))
      as (? & ? & ? & ? & _). tauto.
  - unfold batch_resolved, closeMenu.
    destruct (run_migrate r), (run_isLoading r); now destruct st.
  - now destruct st.
  - destruct res; now destruct st.
  - now destruct st.
  - now destruct st.
Qed.

Lemma step_in_range (p : Props) (st : State) (ev : Event) :
  in_range p st -> in_range p (step p st ev).
Proof.
  intros Hin.
  assert (Hreset : forall st', currentPage st' = 0%nat ->
                     selectedCustomerIndex st' = 0%nat ->
                     in_range p (run_effects st st')).
  { intros st' H1 H2. apply nav_change_in_range; [now apply nav_reset|easy]. }
  destruct ev as [input key|q|q| | | | | | |];
    try (match goal with
         | |- in_range _ (step _ _ ?ev) =>
             destruct (async_event_nav p st ev I) as (E1 & E2 & E3 & E4)
         end;
         apply in_range_cells; rewrite E1, E2, E3, E4;
         now apply in_range_cells).
  - simpl. rewrite key_event_fst.
    apply nav_change_in_range; [|exact Hin].
    apply (key_press_effect p st input key).
  - simpl. destruct (isFuzzySearchMode st); [|exact Hin].
    apply Hreset; now destruct st.
  - simpl. destruct (isFuzzySearchMode st); [|exact Hin].
    apply Hreset; now destruct st.
Qed.

Lemma initial_in_range (p : Props) : in_range p initial_state.
Proof. split; now left. Qed.

Lemma run_events_snoc (p : Props) (evs : list Event) (ev : Event) :
  run_events p (evs ++ [ev]) = step p (run_events p evs) ev.
Proof. unfold run_events. now rewrite fold_left_app. Qed.

(** X2.  From the first render on, whatever keys are pressed, whatever the
    search box sends and whatever callbacks and results arrive, the cursor
    is [0] or on a row of the current page, and the page number is [0] or
    below [totalPages]: a change of the filter, of the query or of the page
    never leaves the cursor or the page beyond the view. *)
Theorem cursor_and_page_stay_in_range (p : Props) (evs : list Event) :
  let st := run_events p evs in
  (selectedCustomerIndex st = 0%nat
   \/ (selectedCustomerIndex st < List.length (currentCustomers p st))%nat)
  /\ (currentPage st = 0%nat
      \/ ltb (of_nat (currentPage st)) (totalPages p st) = true).
Proof.
  change (in_range p (run_events p evs)).
  induction evs as [|ev evs IH] using rev_ind; [apply initial_in_range|].
  rewrite run_events_snoc. now apply step_in_range.
Qed.

Lemma page_ids_source (p : Props) (st : State) :
  list_to_set (page_ids p st) ⊆ source_ids p.
Proof.
  intros i Hi. apply elem_of_list_to_set in Hi.
  apply elem_of_list_to_set.
  unfold page_ids in Hi. apply list_elem_of_In, in_map_iff in Hi.
  destruct Hi as (c & <- & Hc).
  apply list_elem_of_In in Hc. unfold currentCustomers in Hc.
  apply js_slice_elem_of in Hc.
  apply sortedCustomers_elem in Hc. destruct Hc as ((c0 & Hc0 & ->) & _).
  apply list_elem_of_In, in_map_iff. exists c0.
  split; [reflexivity | now apply list_elem_of_In].
Qed.

Lemma sel_change_ok (p : Props) (st st' : State) :
  SelChange p st st' -> selection_ok p st -> selection_ok p st'.
Proof.
  pose proof (page_ids_source p st) as Hp.
  unfold SelChange, selection_ok.
  intros [H | [(Hs & [Hm | Hm]) | (Hm & Hs)]] (H1 & H2).
  - rewrite H. split; [set_solver | reflexivity].
  - rewrite Hs, Hm. now split.
  - rewrite Hs, Hm. split; [assumption | discriminate].
  - rewrite Hm. split; [set_solver | discriminate].
Qed.

(** The events other than a key press leave the selection alone or empty
    it and leave multi-select mode. *)
Lemma async_event_selection (p : Props) (st : State) (ev : Event) :
  match ev with KeyPress _ _ => False | _ => True end ->
  (selectedCustomerIds (step p st ev) = selectedCustomerIds st
   /\ isMultiSelectMode (step p st ev) = isMultiSelectMode st)
  \/ selectedCustomerIds (step p st ev) = ∅.
Proof.
  destruct ev as [|q|q|cid msg|r e|r|s|res|e|]; intros H; try contradiction;
    simpl.
  - left. destruct (isFuzzySearchMode st); [|easy].
    destruct (run_effects_cells st (search_onChange q st))
      as (_ & _ & -> & -> & _). now destruct st.
  - left. destruct (isFuzzySearchMode st); [|easy].
    destruct (run_effects_cells st (search_onSubmit q st))
      as (_ & _ & -> & -> & _). now destruct st.
  - left.
    destruct (forget_maps_cells _ _
                (update_status_forget cid
                   {| status := finalStatus msg; message := Some msg |} st))
      as (_ & _ & _ & _ & ? & ? & _). now unfold batchStatusCallback.
  - left. destruct (forget_maps_cells _ _ (batch_rejected_forget r e st))
      as (_ & _ & _ & _ & ? & ? & _). tauto.
  - unfold batch_resolved, closeMenu.
    destruct (run_migrate r); [now left|].
    right. destruct (run_isLoading r); now destruct st.
  - left. now destruct st.
  - left. destruct res; now destruct st.
  - left. now destruct st.
  - left. now destruct st.
Qed.

Lemma step_selection_ok (p : Props) (st : State) (ev : Event) :
  selection_ok p st -> selection_ok p (step p st ev).
Proof.
  intros Hok.
  destruct ev as [input key| | | | | | | | |];
    try (match goal with
         | |- selection_ok _ (step _ _ ?ev) =>
             destruct (async_event_selection p st ev I) as [(E1 & E2) | E]
         end;
         unfold selection_ok in *;
         [rewrite E1, E2; exact Hok
         | rewrite E; split; [set_solver | reflexivity]]).
  simpl. rewrite key_event_fst.
  set (st' := overlay_handlers _ _ _ _).
  destruct (run_effects_cells st st') as (_ & _ & Em & Es & _).
  unfold selection_ok. rewrite Em, Es.
  apply (sel_change_ok p st st'); [|exact Hok].
  apply (key_press_effect p st input key).
Qed.

Lemma initial_selection_ok (p : Props) : selection_ok p initial_state.
Proof. split; [simpl; set_solver | reflexivity]. Qed.

(** X3.  From the first render on, after any sequence of events, only
    identifiers of customers of the source list are selected, and outside
    multi-select mode nothing is selected. *)
Theorem selection_stays_valid (p : Props) (evs : list Event) :
  let st := run_events p evs in
  selectedCustomerIds st ⊆ list_to_set (map id (customers p))
  /\ (isMultiSelectMode st = false -> selectedCustomerIds st = ∅).
Proof.
  change (selection_ok p (run_events p evs)).
  induction evs as [|ev evs IH] using rev_ind; [apply initial_selection_ok|].
  rewrite run_events_snoc. now apply step_selection_ok.
Qed.

(** The events other than a key press leave the menu cursor alone or put
    it on the first action. *)
Lemma async_event_menu (p : Props) (st : State) (ev : Event) :
  match ev with KeyPress _ _ => False | _ => True end ->
  selectedActionIndex (step p st ev) = selectedActionIndex st
  \/ selectedActionIndex (step p st ev) = 0%nat.
Proof.
  destruct ev as [|q|q|cid msg|r e|r|s|res|e|]; intros H; try contradiction;
    simpl.
  - left. destruct (isFuzzySearchMode st); [|easy].
    destruct (run_effects_cells st (search_onChange q st))
      as (_ & _ & _ & _ & ->). now destruct st.
  - left. destruct (isFuzzySearchMode st); [|easy].
    destruct (run_effects_cells st (search_onSubmit q st))
      as (_ & _ & _ & _ & ->). now destruct st.
  - left.
    destruct (forget_maps_cells _ _
                (update_status_forget cid
                   {| status := finalStatus msg; message := Some msg |} st))
      as (_ & _ & _ & _ & _ & _ & ?). now unfold batchStatusCallback.
  - left. destruct (forget_maps_cells _ _ (batch_rejected_forget r e st))
      as (_ & _ & _ & _ & _ & _ & ?). tauto.
  - unfold batch_resolved, closeMenu.
    destruct (run_migrate r); [now left|].
    destruct (run_isLoading r); [left | right]; now destruct st.
  - left. now destruct st.
  - right. destruct res; now destruct st.
  - left. now destruct st.
  - right. now destruct st.
Qed.

Lemma step_menu_cursor_ok (p : Props) (st : State) (ev : Event) :
  menu_cursor_ok p st -> menu_cursor_ok p (step p st ev).
Proof.
  intros Hok.
  destruct ev as [input key| | | | | | | | |];
    try (match goal with
         | |- menu_cursor_ok _ (step _ _ ?ev) =>
             destruct (async_event_menu p st ev I) as [E | E]
         end;
         unfold menu_cursor_ok in *; rewrite E; tauto).
  simpl. rewrite key_event_fst.
  set (st' := overlay_handlers _ _ _ _).
  destruct (run_effects_cells st st') as (_ & _ & _ & _ & Ea).
  unfold menu_cursor_ok in *. rewrite Ea.
  destruct (key_press_effect p st input key) as (_ & _ & Hm).
  fold st' in Hm. unfold MenuChange in Hm. lia.
Qed.

(** X4.  From the first render on, after any sequence of events, the menu
    cursor [selectedActionIndex] is [0] or the index of an action. *)
Theorem menu_cursor_stays_in_range (p : Props) (evs : list Event) :
  let st := run_events p evs in
  selectedActionIndex st = 0%nat
  \/ (selectedActionIndex st < List.length (actions (config p)))%nat.
Proof.
  change (menu_cursor_ok p (run_events p evs)).
  induction evs as [|ev evs IH] using rev_ind; [now left|].
  rewrite run_events_snoc. now apply step_menu_cursor_ok.
Qed.

(** ** What the key handler lets through *)

Lemma overlay_above_search_false (st : State) :
  overlay_above_search st = false ->
  isBatchMigrationInProgress st = false /\ isHelpOpen st = false
  /\ isComponentDialogOpen st = false /\ isFullScreenDetailsOpen st = false.
Proof.
  unfold overlay_above_search. intros H.
  repeat (apply orb_false_iff in H; destruct H as [H ?]). tauto.
Qed.

Lemma overlay_handlers_closed (p : Props) (st : State) (key : Key)
    (acc : State) :
  overlay_above_search st = false -> overlay_handlers p st key acc = acc.
Proof.
  intros H. apply overlay_above_search_false in H.
  destruct H as (Hb & Hh & Hd & Hf).
  unfold overlay_handlers, FullScreenDetails_handler.
  now rewrite Hb, Hh, Hd, Hf.
Qed.

(** X5.  In search mode, with no overlay above it, the key handler of
    [CustomerTable] does nothing on any key but escape: the state is kept
    and no call starts.  This includes the arrow keys, return and the
    letters that the handler lists as passed through: both branches
    return. *)
Theorem search_mode_swallows_keys (p : Props) (st : State) (input : string)
    (key : Key) :
  overlay_above_search st = false ->
  isFuzzySearchMode st = true ->
  escape key = false ->
  key_event p st input key = (st, NoCall).
Proof.
  intros Ho Hs Hk. unfold key_event, useInput_handler.
  destruct (overlay_above_search_false st Ho) as (Hb & Hh & Hd & Hf).
  rewrite Hb, Hh, Hd, Hf, Hs, Hk.
  rewrite (overlay_handlers_closed p st key st Ho).
  now rewrite run_effects_same.
Qed.

Lemma search_mode_swallows_keys_witness :
  key_event (sample_props None)
    (setIsFuzzySearchMode true initial_state) "" key_right
  = (setIsFuzzySearchMode true initial_state, NoCall).
Proof.
  apply (search_mode_swallows_keys (sample_props None)
           (setIsFuzzySearchMode true initial_state) "" key_right);
    reflexivity.
Defined.

(** The call of a key press is the call of [handleOptionSelect], made on
    return in the open, idle menu. *)
Lemma call_is_handleOptionSelect (p : Props) (st : State) (input : string)
    (key : Key) :
  snd (key_event p st input key) <> NoCall ->
  (overlay_above_search st = false /\ isFuzzySearchMode st = false
   /\ isMenuOpen st = true /\ isLoading st = false
   /\ upArrow key = false /\ downArrow key = false /\ return_ key = true)
  /\ key_event p st input key = handleOptionSelect p st.
Proof.
  unfold key_event at 2.
  rewrite key_event_snd. unfold useInput_handler, overlay_above_search.
  destruct (isBatchMigrationInProgress st) eqn:Hb; [now destruct (escape key)|].
  destruct (isHelpOpen st) eqn:Hh; [easy|].
  destruct (isComponentDialogOpen st) eqn:Hd; [easy|].
  destruct (isFullScreenDetailsOpen st) eqn:Hf; [easy|].
  destruct (isFuzzySearchMode st) eqn:Hs; [easy|].
  destruct (isMenuOpen st) eqn:Hm; [|easy].
  destruct (isLoading st) eqn:Hl; [easy|]. simpl negb. cbv iota.
  destruct (upArrow key); [easy|].
  destruct (downArrow key); [easy|].
  destruct (return_ key); [|now destruct (escape key)].
  intros Hne. split; [repeat split|].
  assert (Ho : overlay_above_search st = false)
    by (unfold overlay_above_search; now rewrite Hb, Hh, Hd, Hf).
  destruct (handleOptionSelect p st) as [st1 call] eqn:E.
  rewrite (overlay_handlers_closed p st key st1 Ho).
  f_equal. apply run_effects_same.
  - revert E. unfold handleOptionSelect, handleBatchAction,
      executeSelectedAction, new_Map.
    rewrite fill_pending_setHeap.
    destruct st. unfold_setters. simpl.
    split_ifs; intros [= <- <-]; reflexivity.
  - revert E. unfold handleOptionSelect, handleBatchAction,
      executeSelectedAction, new_Map.
    rewrite fill_pending_setHeap.
    destruct st. unfold_setters. simpl.
    split_ifs; intros [= <- <-]; reflexivity.
Qed.

(** X6.  A key press starts a call only when it is return in the open menu,
    with no action loading, no overlay and no search mode, and neither
    arrow flag set.  A single call is for the action under the menu cursor
    and the customer under the table cursor, outside multi-select mode or
    with nothing selected; a batch call is made in multi-select mode, with
    the closure of this render and a non-empty list of selected customers
    of the page. *)
Theorem call_starts_in_idle_menu (p : Props) (st st' : State)
    (input : string) (key : Key) (call : Dispatch) :
  key_event p st input key = (st', call) ->
  call <> NoCall ->
  (overlay_above_search st = false /\ isFuzzySearchMode st = false
   /\ isMenuOpen st = true /\ isLoading st = false
   /\ upArrow key = false /\ downArrow key = false /\ return_ key = true)
  /\ match call with
     | NoCall => False
     | CallSingle a cid c =>
         (isMultiSelectMode st = false \/ selectedCustomerIds st = ∅)
         /\ actions (config p) !! selectedActionIndex st = Some a
         /\ exists e,
              currentCustomers p st !! selectedCustomerIndex st = Some e
              /\ cid = id (customer e) /\ c = customer e
     | CallBatch r =>
         isMultiSelectMode st = true
         /\ r = batch_closure p st
         /\ run_selected r <> []
     end.
Proof.
  intros H Hne.
  destruct (call_is_handleOptionSelect p st input key) as (Hc & E);
    [now rewrite H|].
  split; [exact Hc|]. rewrite E in H. clear E Hc.
  revert H. unfold handleOptionSelect, handleBatchAction, executeSelectedAction.
  destruct (isMultiSelectMode st) eqn:Hm; simpl andb.
  - destruct (0 <? size (selectedCustomerIds st))%nat eqn:Hs.
    + destruct (List.length (run_selected (batch_closure p st)) =? 0)%nat
        eqn:Hl; [intros [= _ <-]; contradiction|].
      assert (Hsel : run_selected (batch_closure p st) <> []).
      { intros E0. rewrite E0 in Hl. discriminate. }
      destruct (run_migrate (batch_closure p st)).
      * unfold new_Map. simpl. intros [= _ <-]. now repeat split.
      * intros [= _ <-]. now repeat split.
    + apply Nat.ltb_ge in Hs.
      assert (He : selectedCustomerIds st = ∅).
      { apply leibniz_equiv, size_empty_inv. lia. }
      destruct (currentCustomers p st !! selectedCustomerIndex st) as [e|];
        [|intros [= _ <-]; contradiction].
      destruct (actions (config p) !! selectedActionIndex st) as [a|];
        [|intros [= _ <-]; contradiction].
      intros [= _ <-]. split; [now right|]. split; [reflexivity|].
      now exists e.
  - destruct (currentCustomers p st !! selectedCustomerIndex st) as [e|];
      [|intros [= _ <-]; contradiction].
    destruct (actions (config p) !! selectedActionIndex st) as [a|];
      [|intros [= _ <-]; contradiction].
    intros [= _ <-]. split; [now left|]. split; [reflexivity|].
    now exists e.
Qed.

Lemma call_starts_in_idle_menu_witness :
  let r := key_event (sample_props None) menu_open_state "" key_return in
  isMenuOpen menu_open_state = true /\ isLoading menu_open_state = false
  /\ snd r = CallBatch (batch_closure (sample_props None) menu_open_state).
Proof.
  intros r.
  destruct (call_starts_in_idle_menu (sample_props None) menu_open_state
              (fst r) "" key_return (snd r)) as ((_ & _ & Hm & Hl & _) & Hc).
  - vm_compute. reflexivity.
  - vm_compute. discriminate.
  - split; [exact Hm|]. split; [exact Hl|].
    destruct (snd r); [contradiction | | ].
    + exfalso. destruct Hc as ([Hc | Hc] & _);
        [vm_compute in Hc; discriminate|].
      assert (Hin : "c1" ∈ selectedCustomerIds menu_open_state)
        by (vm_compute; reflexivity).
      rewrite Hc in Hin. now apply not_elem_of_empty in Hin.
    + destruct Hc as (_ & -> & _). reflexivity.
Defined.







(** ** The status shown for a customer *)

Lemma apply_callbacks_last (callbacks : list (string * string)) (st : State)
    (i : string) :
  statusMap (apply_callbacks callbacks st) !! i
  = match last_report callbacks i with
    | Some m => Some (entry (finalStatus m) m)
    | None => statusMap st !! i
    end.
Proof.
  unfold apply_callbacks, last_report.
  induction callbacks as [|cb l IH] using rev_ind; [reflexivity|].
  rewrite !fold_left_app. simpl. unfold batchStatusCallback at 1.
  rewrite statusMap_update_status.
  destruct (String.eqb_spec (fst cb) i) as [->|Hne].
  - now rewrite lookup_insert_eq.
  - rewrite lookup_insert_ne by exact Hne. exact IH.
Qed.

(** A confirm that starts a migration run is [handleBatchAction] on a
    non-empty selection of the page, with the action [migrate]. *)
Lemma migration_press (p : Props) (st st' : State) (input : string)
    (key : Key) (r : BatchRun) :
  key_event p st input key = (st', CallBatch r) ->
  run_migrate r = true ->
  st' = fst (handleBatchAction p st)
  /\ r = batch_closure p st
  /\ selectedCustomers p st <> []
  /\ is_migrate (actions (config p) !! selectedActionIndex st) = true.
Proof.
  intros H Hmig.
  destruct (call_is_handleOptionSelect p st input key) as (_ & E);
    [now rewrite H|].
  rewrite E in H. clear E.
  revert H. unfold handleOptionSelect.
  destruct (isMultiSelectMode st && (0 <? size (selectedCustomerIds st))%nat).
  - intros H. rewrite H. simpl.
    revert H. unfold handleBatchAction.
    destruct (_ =? _)%nat eqn:Hl; [discriminate|].
    assert (Hsel : selectedCustomers p st <> []).
    { intros E0. simpl in Hl. rewrite E0 in Hl. discriminate. }
    destruct (run_migrate (batch_closure p st)) eqn:Hr.
    + simpl. intros [= _ <-]. now repeat split.
    + intros [= _ <-]. congruence.
  - unfold executeSelectedAction.
    destruct (currentCustomers p st !! _); [|discriminate].
    destruct (actions (config p) !! _); discriminate.
Qed.

(** X9.  After a key press has started a migration run, and after any
    sequence of status callbacks, the entry shown for a customer is that of
    the last message reported for it, classified by [finalStatus]; a
    customer of the run without a report is [pending], and any other
    customer has no entry.  So a later message replaces an earlier
    [completed] or [failed]. *)
Theorem last_report_wins (p : Props) (st st' : State) (input : string)
    (key : Key) (r : BatchRun) (callbacks : list (string * string))
    (i : string) :
  key_event p st input key = (st', CallBatch r) ->
  run_migrate r = true ->
  statusMap (apply_callbacks callbacks st') !! i
  = match last_report callbacks i with
    | Some m => Some {| status := finalStatus m; message := Some m |}
    | None =>
        if bool_decide (i ∈ run_customerIds r)
        then Some {| status := pending; message := None |}
        else None
    end.
Proof.
  intros H Hmig.
  destruct (migration_press p st st' input key r H Hmig)
    as (-> & -> & Hsel & Ha).
  rewrite apply_callbacks_last. destruct (last_report callbacks i);
    [reflexivity|].
  destruct (statusMap_started p st Hsel Ha) as (_ & ->).
  destruct (pending_map_spec (selectedCustomers p st) ∅) as (Hd & Hl).
  cbv zeta in Hd, Hl. unfold run_customerIds. simpl run_selected.
  destruct (bool_decide_reflect
              (i ∈ map (fun c => id (customer c)) (selectedCustomers p st)))
    as [Hin|Hnin].
  - now apply Hl.
  - apply not_elem_of_dom. rewrite Hd. set_solver.
Qed.

Lemma last_report_wins_witness :
  statusMap
    (apply_callbacks
       [("c1", "Migration completed successfully"); ("c1", "Cleaning up")]
       batch_view_state) !! "c1"
  = Some {| status := in_progress; message := Some "Cleaning up" |}.
Proof.
  apply (last_report_wins (sample_props None) menu_open_state batch_view_state
           "" key_return first_run
           [("c1", "Migration completed successfully"); ("c1", "Cleaning up")]
           "c1").
  - vm_compute. reflexivity.
  - reflexivity.
Defined.

(** ** The view: completeness, search order, the zero filter *)

(** X10.  The view holds the entries of the source customers that pass
    both filters, each as often as the customer is in the source list:
    sorting loses and adds nothing.  A customer that passes both filters is
    in the view; without the zero filter and with a blank query the
    customers of the view are those of the source list. *)
Theorem view_is_the_filtered_source
    fz prices cs (hideZero : bool) (query : string) (source : list Customer) :
  let view := sortedCustomers fz prices cs hideZero query source in
  view ≡ₚ List.filter
            (fun e => keep_by_credits hideZero e && keep_by_query fz query e)
            (map (mk_entry prices cs) source)
  /\ (forall c, c ∈ source ->
        keep_by_credits hideZero (mk_entry prices cs c) = true ->
        keep_by_query fz query (mk_entry prices cs c) = true ->
        mk_entry prices cs c ∈ view)
  /\ (hideZero = false -> JsString.trim_is_empty query = true ->
      map customer view ≡ₚ source).
Proof.
  intros view.
  assert (Hp : view ≡ₚ List.filter (keep_by_query fz query)
                         (List.filter (keep_by_credits hideZero)
                            (map (mk_entry prices cs) source)))
    by apply js_sort_perm.
  split; [|split].
  - rewrite Hp. clear. induction (map (mk_entry prices cs) source) as [|e l IH];
      [reflexivity|].
    simpl. destruct (keep_by_credits hideZero e); simpl; [|exact IH].
    destruct (keep_by_query fz query e); [now constructor | exact IH].
  - intros c Hc H1 H2. rewrite Hp.
    apply list_elem_of_In, filter_In. split; [|exact H2].
    apply filter_In. split; [|exact H1].
    apply in_map. now apply list_elem_of_In.
  - intros -> Hq. rewrite Hp. clear Hp view.
    induction source as [|c l IH]; [reflexivity|]. simpl.
    unfold keep_by_query at 1. rewrite Hq. simpl. now constructor.
Qed.

Lemma score_of_not_NaN fz (query : string) (e : Entry) :
  is_NaN (score_of fz query e) = false.
Proof.
  unfold score_of. destruct (fz query (searchableText e)) as [s|];
    [|reflexivity].
  destruct s as [q| | |]; try reflexivity. simpl.
  now destruct (negb (Qeq_bool q 0)).
Qed.

(** X11.  With a query that is not blank, the view is ordered by
    descending score, where a score of [0] or [NaN] counts as
    [-Infinity]; every entry of the view has a [fuzzysort] result. *)
Theorem search_orders_by_score
    fz prices cs (hideZero : bool) (query : string) (source : list Customer) :
  JsString.trim_is_empty query = false ->
  let view := sortedCustomers fz prices cs hideZero query source in
  descending (score_of fz query) view
  /\ Forall (fun e => exists s, fz query (searchableText e) = Some s
                                /\ score_of fz query e
                                   = if truthy s then s else NegInf) view.
Proof.
  intros Hq view. split.
  - subst view. unfold sortedCustomers.
    apply (js_sort_sorted _ _ (fun _ => True)).
    + intros a b c _ _ _. apply geb_trans.
    + intros a b _ _. unfold compare_entries. rewrite Hq. simpl.
      rewrite gtb_sub by apply score_of_not_NaN. apply ltb_geb.
    + intros a b _ _. unfold compare_entries. rewrite Hq. simpl.
      rewrite gtb_sub by apply score_of_not_NaN.
      apply not_ltb_geb; apply score_of_not_NaN.
    + apply Forall_forall. easy.
  - apply Forall_forall. intros e He.
    apply sortedCustomers_elem in He. destruct He as (_ & _ & Hk).
    unfold keep_by_query in Hk. rewrite Hq in Hk. unfold score_of.
    destruct (fz query (searchableText e)) as [s|]; [|discriminate].
    now exists s.
Qed.

Lemma gtb_add_inv (x y : Num) :
  gtb (add x y) zero = true -> gtb x zero = true \/ gtb y zero = true.
Proof.
  unfold gtb. destruct x as [a| | |], y as [b| | |]; simpl; try tauto;
    try easy.
  rewrite !Qltb_lt. intros H.
  destruct (Qlt_le_dec 0 a) as [Ha|Ha]; [now left|]. right. lra.
Qed.

Lemma gtb_sum_amounts_inv (l : list CreditAmount) :
  gtb (sum_amounts l) zero = true ->
  exists sc, sc ∈ l /\ gtb (amount sc) zero = true.
Proof.
  unfold sum_amounts.
  assert (G : forall acc,
            gtb (fold_left (fun sum sc => add sum (amount sc)) l acc) zero
            = true ->
            gtb acc zero = true
            \/ exists sc, sc ∈ l /\ gtb (amount sc) zero = true).
  { induction l as [|sc l IH]; intros acc H; simpl in H; [now left|].
    destruct (IH _ H) as [Ha | (sc' & Hin & Hsc)].
    - apply gtb_add_inv in Ha. destruct Ha as [Ha|Ha]; [now left|].
      right. exists sc. split; [apply list_elem_of_here | exact Ha].
    - right. exists sc'. split; [now apply list_elem_of_further | exact Hsc]. }
  intros H. destruct (G _ H) as [H0|H0]; [discriminate H0 | exact H0].
Qed.

(** An amount [> 0] under a divisor [> 0] comes from a negative balance. *)
Lemma credit_amount_pos (credit : option Feature) (d : Num) :
  gtb d zero = true ->
  gtb (credit_amount credit d) zero = true ->
  exists f b, credit = Some f /\ balance f = Some b /\ ltb b zero = true.
Proof.
  intros Hd H. destruct credit as [f|]; [|discriminate H].
  exists f. simpl in H.
  destruct (balance f) as [b|]; simpl in H.
  - exists b. repeat split. revert Hd H. unfold gtb.
    destruct b as [a| | |], d as [q| | |]; simpl; try easy.
    + rewrite Qltb_lt. intros Hq.
      assert (Hz : Qeq_bool q 0 = false).
      { apply not_true_iff_false. rewrite Qeq_bool_iff. lra. }
      rewrite Hz. destruct (Qle_bool 0 (- a / q)) eqn:L; simpl;
        rewrite !Qltb_lt; [|lra].
      intros H. destruct (Qlt_le_dec a 0) as [Ha|Ha]; [exact Ha|].
      exfalso. assert (Hi : (0 < / q)%Q) by now apply Qinv_lt_0_compat.
      unfold Qdiv in H. nra.
    + rewrite Qltb_lt. intros Hq.
      assert (Hz : Qltb q 0 = false) by (apply Qltb_ge; lra).
      rewrite Hz. discriminate.
  - exfalso. revert Hd H. unfold gtb.
    destruct d as [q| | |]; simpl; try easy.
    + rewrite Qltb_lt. intros Hq.
      assert (Hz : Qeq_bool q 0 = false).
      { apply not_true_iff_false. rewrite Qeq_bool_iff. lra. }
      rewrite Hz.
      assert (E : (- 0 / q == 0)%Q) by (unfold Qdiv; ring).
      destruct (Qle_bool 0 (- 0 / q)); simpl; rewrite Qltb_lt; lra.
Qed.

(** X12.  When every divisor of the credit configuration is [> 0], each
    entry that the zero filter keeps belongs to a customer of the source
    list with a negative balance under a configured credit key. *)
Theorem zero_filter_keeps_only_debtors
    fz prices cs (query : string) (source : list Customer) (e : Entry) :
  positive_divisors cs = true ->
  e ∈ sortedCustomers fz prices cs true query source ->
  customer e ∈ source /\ has_debt (customer e) cs.
Proof.
  intros Hd He. apply sortedCustomers_elem in He.
  destruct He as ((c & Hc & ->) & Hk & _). simpl. split; [exact Hc|].
  unfold keep_by_credits in Hk. simpl in Hk.
  unfold positive_divisors in Hd. rewrite forallb_forall in Hd.
  assert (Hone : forall cc, cc ∈ credit_configs cs ->
            gtb (credit_amount (feature_of c (key cc)) (divisor cc)) zero
            = true -> has_debt c cs).
  { intros cc Hcc Ha.
    destruct (credit_amount_pos _ _ (Hd cc (proj1 (list_elem_of_In _ _) Hcc)) Ha)
      as (f & b & Hf & Hb & Hlt).
    now exists cc, f, b. }
  apply gtb_add_inv in Hk. destruct Hk as [Hk|Hk].
  - apply (Hone (primary cs)); [apply list_elem_of_here | exact Hk].
  - apply gtb_sum_amounts_inv in Hk. destruct Hk as (sc & Hin & Hsc).
    unfold credit_configs in *. unfold getCustomerCredits in Hin.
    simpl in Hin.
    destruct (secondary cs) as [l|]; [|inversion Hin].
    apply list_elem_of_In, in_map_iff in Hin.
    destruct Hin as (cc & <- & Hcc). simpl in Hsc.
    apply (Hone cc); [|exact Hsc].
    apply list_elem_of_further. now apply list_elem_of_In.
Qed.

Lemma zero_filter_keeps_only_debtors_witness :
  has_debt (sample_customer "b2" None (owes 500)) (credits_by (Fin 100)).
Proof.
  apply (zero_filter_keeps_only_debtors no_match sample_prices
           (credits_by (Fin 100)) "" sample_source
           (mk_entry sample_prices (credits_by (Fin 100))
              (sample_customer "b2" None (owes 500)))).
  - reflexivity.
  - vm_compute. apply list_elem_of_further, list_elem_of_here.
Defined.

Lemma search_orders_by_score_witness :
  descending (score_of (fun _ _ => Some (Fin (-1))) "b")
    (sortedCustomers (fun _ _ => Some (Fin (-1))) sample_prices
       (credits_by (Fin 100)) false "b" sample_source).
Proof.
  apply (search_orders_by_score (fun _ _ => Some (Fin (-1))) sample_prices
           (credits_by (Fin 100)) false "b" sample_source).
  reflexivity.
Defined.

(** ** Table cells *)

Lemma length_slice_to (s : JsStr) (e : Z) :
  Z.of_nat (List.length (slice_to s e))
  = if (e <? 0)%Z then Z.max (Z.of_nat (List.length s) + e) 0
    else Z.min e (Z.of_nat (List.length s)).
Proof.
  unfold slice_to. rewrite length_take.
  destruct (e <? 0)%Z eqn:E; [apply Z.ltb_lt in E | apply Z.ltb_ge in E]; lia.
Qed.

Lemma length_padStart (s : JsStr) (t : Z) :
  Z.of_nat (List.length (padStart s t)) = Z.max t (Z.of_nat (List.length s)).
Proof. unfold padStart. rewrite length_app, length_replicate. lia. Qed.

Lemma length_padEnd (s : JsStr) (t : Z) :
  Z.of_nat (List.length (padEnd s t)) = Z.max t (Z.of_nat (List.length s)).
Proof. unfold padEnd. rewrite length_app, length_replicate. lia. Qed.

(** The text of the cell before padding. *)
Lemma formatCell_padding (value : CellValue) (width : Z)
    (align : option string) :
  let str := cell_str value in
  let content :=
    if (width <? Z.of_nat (List.length str))%Z
    then slice_to str (width - 3) ++ units_of "..."
    else str in
  exists l r : nat,
    formatCell value width align
    = replicate l space ++ content ++ replicate r space
    /\ (Z.of_nat l + Z.of_nat r
        = Z.max 0 (width - Z.of_nat (List.length content)))%Z
    /\ (default "left" align = "right" -> r = 0%nat)
    /\ (default "left" align = "center" ->
        Z.of_nat l
        = Z.max 0 ((width - Z.of_nat (List.length content)) / 2))%Z
    /\ (default "left" align <> "right" ->
        default "left" align <> "center" -> l = 0%nat).
Proof.
  intros str content. unfold formatCell. fold str. fold content.
  destruct (String.eqb_spec (default "left" align) "right") as [Er|Er].
  { eexists _, 0%nat. unfold padStart. rewrite app_nil_r.
    split; [reflexivity|]. repeat split; try congruence; try lia. }
  destruct (String.eqb_spec (default "left" align) "center") as [Ec|Ec].
  { unfold padEnd, padStart. eexists _, _. rewrite <- app_assoc.
    split; [reflexivity|].
    rewrite length_app, length_replicate.
    set (n := Z.of_nat (List.length content)).
    assert (Hn : (0 <= n)%Z) by lia.
    repeat split; try congruence.
    - destruct (Z.le_gt_cases n width) as [H|H].
      + assert (0 <= (width - n) / 2 <= width - n)%Z.
        { split; [apply Z.div_pos; lia|].
          apply Z.div_le_upper_bound; lia. }
        lia.
      + assert ((width - n) / 2 < 0)%Z by (apply Z.div_lt_upper_bound; lia).
        lia.
    - intros _. replace (n + (width - n) / 2 - n)%Z with ((width - n) / 2)%Z
        by lia. lia. }
  exists 0%nat. eexists. unfold padEnd. split; [reflexivity|].
  repeat split; try congruence. lia.
Qed.

(** A cell in a column at least 3 wide is as long as the column. *)
Lemma formatCell_length (value : CellValue) (width : Z)
    (align : option string) :
  (3 <= width)%Z ->
  Z.of_nat (List.length (formatCell value width align)) = width.
Proof.
  intros H.
  destruct (formatCell_padding value width align)
    as (l & r & -> & Hsum & _).
  cbv zeta in Hsum.
  destruct (width <? Z.of_nat (List.length (cell_str value)))%Z eqn:E;
    [apply Z.ltb_lt in E | apply Z.ltb_ge in E];
    rewrite !length_app, !length_replicate, ?length_app, !Nat2Z.inj_add;
    [|lia].
  rewrite length_app, Nat2Z.inj_add, length_slice_to in Hsum.
  rewrite length_slice_to.
  replace (width - 3 <? 0)%Z with false in *
    by (symmetry; apply Z.ltb_ge; lia).
  change (Z.of_nat (List.length (units_of "..."))) with 3%Z in *. lia.
Qed.

(** X13.  [formatCell] counts UTF-16 code units.  When the column is at
    least 3 wide or the text fits, the cell is exactly [width] long.  A
    text that fits is kept whole, padded with spaces on the right, on the
    left ([right]) or on both sides with the smaller half on the left
    ([center]).  A longer text in a column at least 3 wide is cut to
    [width - 3] code units followed by [...].  In a column narrower than 3,
    a longer text is cut from its end instead and the cell is wider than
    the column. *)
Theorem formatCell_fills_the_column (value : CellValue) (width : Z)
    (align : option string) :
  let str := cell_str value in
  let len := Z.of_nat (List.length str) in
  let out := formatCell value width align in
  ((3 <= width \/ len <= width)%Z -> Z.of_nat (List.length out) = width)
  /\ ((len <= width)%Z ->
      exists l r : nat,
        out = replicate l space ++ str ++ replicate r space
        /\ (Z.of_nat l + Z.of_nat r = width - len)%Z
        /\ (default "left" align = "right" -> r = 0%nat)
        /\ (default "left" align = "center" ->
            Z.of_nat l = (width - len) / 2)%Z
        /\ (default "left" align <> "right" ->
            default "left" align <> "center" -> l = 0%nat))
  /\ ((3 <= width < len)%Z ->
      out = take (Z.to_nat (width - 3)) str ++ units_of "...")
  /\ ((width < 3)%Z -> (width < len)%Z ->
      (Z.of_nat (List.length out) = Z.max (len + width - 3) 0 + 3
       /\ width < Z.of_nat (List.length out))%Z).
Proof.
  intros str len out.
  destruct (formatCell_padding value width align)
    as (l & r & Hout & Hsum & Hr & Hc & Hl).
  cbv zeta in Hout, Hsum, Hc. fold str in Hout, Hsum, Hc.
  fold out in Hout. fold len in Hout, Hsum, Hc.
  assert (Hlen0 : (0 <= len)%Z) by (subst len; lia).
  destruct (width <? len)%Z eqn:E;
    [apply Z.ltb_lt in E | apply Z.ltb_ge in E].
  - (* truncated *)
    assert (Hcl : (Z.of_nat (List.length (slice_to str (width - 3)
                                          ++ units_of "..."))
                   = (if width - 3 <? 0 then Z.max (len + (width - 3)) 0
                      else Z.min (width - 3) len) + 3)%Z).
    { rewrite length_app, Nat2Z.inj_add, length_slice_to. reflexivity. }
    rewrite Hcl in Hsum, Hc.
    assert (Ho : (Z.of_nat (List.length out)
                  = Z.of_nat l + Z.of_nat r
                    + ((if width - 3 <? 0 then Z.max (len + (width - 3)) 0
                        else Z.min (width - 3) len) + 3))%Z).
    { rewrite Hout, !length_app, !length_replicate, !Nat2Z.inj_add.
      rewrite <- Nat2Z.inj_add, <- length_app, Hcl. lia. }
    destruct (width - 3 <? 0)%Z eqn:E3;
      [apply Z.ltb_lt in E3 | apply Z.ltb_ge in E3].
    + repeat split; try lia.
    + split; [intros _; lia|]. split; [lia|]. split; [|lia].
      intros _. rewrite Hout.
      assert (l = 0%nat) by lia. assert (r = 0%nat) by lia. subst l r.
      simpl. rewrite app_nil_r. unfold slice_to.
      assert (Hb : (width - 3 <? 0)%Z = false) by now apply Z.ltb_ge.
      rewrite Hb. do 2 f_equal. fold len. lia.
  - (* fits *)
    fold len in Hsum. split.
    + intros _. rewrite Hout, !length_app, !length_replicate.
      fold len. lia.
    + split; [|split; intros; lia].
      intros _. exists l, r. split; [exact Hout|].
      split; [lia|]. split; [exact Hr|]. split; [|exact Hl].
      intros Hce. rewrite (Hc Hce). apply Z.max_r.
      apply Z.div_pos; lia.
Qed.

(** ** Table lines *)

Lemma length_table_line_from (k n : nat) (cols : list TableColumn)
    (text : TableColumn -> JsStr) (sep : JsStr) :
  n = (k + List.length cols)%nat ->
  Z.of_nat
    (List.length
       (List.concat
          (imap (fun index col =>
                   text col
                   ++ (if (Z.of_nat (k + index) <? Z.of_nat n - 1)%Z
                       then sep else []))
             cols)))
  = (fold_right (fun col acc => Z.of_nat (List.length (text col)) + acc) 0 cols
     + Z.of_nat (List.length sep) * Z.of_nat (List.length cols - 1))%Z.
Proof.
  revert k. induction cols as [|col cols IH]; intros k Hn; [simpl; lia|].
  cbn [imap List.concat fold_right]. rewrite !length_app, !Nat2Z.inj_add.
  rewrite (imap_ext _ (fun index col =>
                         text col
                         ++ (if (Z.of_nat (S k + index) <? Z.of_nat n - 1)%Z
                             then sep else []))).
  2:{ intros i x _. simpl. now rewrite Nat.add_succ_r. }
  rewrite (IH (S k)) by (simpl in Hn; lia).
  simpl List.length in *.
  change (Z.of_nat 0) with 0%Z. rewrite Z.add_0_r.
  destruct cols as [|col' cols'].
  - simpl in *. replace (Z.of_nat k <? Z.of_nat n - 1)%Z with false
      by (symmetry; apply Z.ltb_ge; lia).
    simpl. lia.
  - simpl List.length in *.
    replace (Z.of_nat k <? Z.of_nat n - 1)%Z with true
      by (symmetry; apply Z.ltb_lt; lia).
    replace (S (S (List.length cols')) - 1)%nat
      with (S (S (List.length cols') - 1)) by lia.
    rewrite (Nat2Z.inj_succ (S (List.length cols') - 1)). lia.
Qed.

Lemma length_table_line (cols : list TableColumn)
    (text : TableColumn -> JsStr) (sep : JsStr) :
  List.length sep = 3%nat ->
  Forall (fun col => Z.of_nat (List.length (text col)) = width_of col) cols ->
  Z.of_nat (List.length (table_line cols text sep)) = table_width cols.
Proof.
  intros Hsep Hw. unfold table_line, table_width.
  etransitivity;
    [exact (length_table_line_from 0 (List.length cols) cols text sep eq_refl)|].
  rewrite Hsep. f_equal.
  induction Hw as [|col cols Hc _ IH]; [reflexivity|].
  simpl. now rewrite Hc, IH.
Qed.

Lemma rule_of_wide (cols : list TableColumn) :
  Forall (fun col => (0 <= width_of col)%Z) cols ->
  exists rule,
    rule_of cols = Some rule
    /\ Z.of_nat (List.length rule) = table_width cols.
Proof.
  intros Hw. unfold rule_of.
  assert (Hall : forallb (fun col =>
                   bool_decide (is_Some (repeat_unit dash (width_of col))))
                   cols = true).
  { apply forallb_forall. intros col Hc.
    rewrite Forall_forall in Hw. apply list_elem_of_In, Hw in Hc.
    apply bool_decide_eq_true. unfold repeat_unit.
    replace (width_of col <? 0)%Z with false
      by (symmetry; apply Z.ltb_ge; lia).
    now eexists. }
  rewrite Hall. eexists. split; [reflexivity|].
  apply length_table_line; [reflexivity|].
  eapply Forall_impl; [exact Hw|]. intros col Hc. simpl in Hc.
  unfold repeat_unit.
  replace (width_of col <? 0)%Z with false
    by (symmetry; apply Z.ltb_ge; lia).
  simpl. rewrite length_replicate. lia.
Qed.

Lemma default_columns_wide (keep : JsStr -> bool) (data : list TableRow) :
  Forall (fun col => (3 <= width_of col)%Z) (default_columns keep data).
Proof.
  unfold default_columns. apply Forall_forall. intros col Hc.
  apply list_elem_of_In, in_map_iff in Hc. destruct Hc as (k & <- & _).
  unfold width_of. simpl.
  destruct (Z.max (Z.of_nat (List.length k)) 12) eqn:E; lia.
Qed.

Lemma prefixed_length (pre line : JsStr) (n : Z) :
  List.length pre = 2%nat ->
  Z.of_nat (List.length line) = n ->
  Z.of_nat (List.length (pre ++ line)) = (n + 2)%Z.
Proof. intros Hp Hl. rewrite length_app, Hp. lia. Qed.

Lemma row_prefix_length (row : TableRow) : List.length (row_prefix row) = 2%nat.
Proof.
  unfold row_prefix.
  destruct (cell_truthy (row_get row (units_of "_isMultiSelected")));
    destruct (cell_truthy (row_get row (units_of "_isSelected")));
    reflexivity.
Qed.

(** X14.  When every given column is at least 3 wide (a missing or zero
    width means 12; the default columns are at least 12 wide), the header,
    the rule and every data line of [CustomTable] have the same length, the
    widths of the columns plus 3 per separator; those of
    [CustomTableWithHighlight] are 2 longer, for the marker in front. *)
Theorem table_lines_are_aligned (data : list TableRow)
    (columns : option (list TableColumn)) :
  data <> [] ->
  (forall cols, columns = Some cols ->
                Forall (fun col => (3 <= width_of col)%Z) cols) ->
  lines_have_length
    (table_width (default (default_columns (fun _ => true) data) columns))
    (CustomTable data columns)
  /\ lines_have_length
       (table_width (default (default_columns no_underscore data) columns) + 2)
       (CustomTableWithHighlight data columns).
Proof.
  intros Hdata Hcols.
  assert (Hlen : (List.length data =? 0)%nat = false)
    by (destruct data; [contradiction | reflexivity]).
  assert (Hline : forall cols (cell : TableColumn -> CellValue),
            Forall (fun col => (3 <= width_of col)%Z) cols ->
            Z.of_nat
              (List.length
                 (table_line cols
                    (fun col => formatCell (cell col) (width_of col)
                                  (col_align col)) bar))
            = table_width cols).
  { intros cols cell Hw. apply length_table_line; [reflexivity|].
    eapply Forall_impl; [exact Hw|]. intros col Hc.
    now apply formatCell_length. }
  assert (Hrule : forall cols,
            Forall (fun col => (3 <= width_of col)%Z) cols ->
            exists rule, rule_of cols = Some rule
                         /\ Z.of_nat (List.length rule) = table_width cols).
  { intros cols Hw. apply rule_of_wide.
    eapply Forall_impl; [exact Hw|]. intros col Hc. simpl in *. lia. }
  split.
  - unfold CustomTable. rewrite Hlen.
    set (cols := match columns with Some cs => cs | None => _ end).
    assert (Hw : Forall (fun col => (3 <= width_of col)%Z) cols).
    { subst cols. destruct columns as [cs|];
        [now apply Hcols | apply default_columns_wide]. }
    replace (default (default_columns (fun _ => true) data) columns)
      with cols by (subst cols; now destruct columns).
    destruct (Hrule cols Hw) as (rule & -> & Hr). simpl.
    split; [now apply Hline|]. split; [exact Hr|].
    apply Forall_forall. intros l Hl.
    apply list_elem_of_In, in_map_iff in Hl. destruct Hl as (row & <- & _).
    now apply Hline.
  - unfold CustomTableWithHighlight. rewrite Hlen.
    set (cols := match columns with Some cs => cs | None => _ end).
    assert (Hw : Forall (fun col => (3 <= width_of col)%Z) cols).
    { subst cols. destruct columns as [cs|];
        [now apply Hcols | apply default_columns_wide]. }
    replace (default (default_columns no_underscore data) columns)
      with cols by (subst cols; now destruct columns).
    destruct (Hrule cols Hw) as (rule & -> & Hr).
    unfold lines_have_length. cbn [header_line rule_line data_lines].
    split; [apply prefixed_length; [reflexivity | now apply Hline]|].
    split; [now apply prefixed_length|].
    apply Forall_forall. intros l Hl.
    apply list_elem_of_In, in_map_iff in Hl. destruct Hl as (row & <- & _).
    apply prefixed_length; [apply row_prefix_length | now apply Hline].
Qed.

Lemma table_lines_are_aligned_witness :
  lines_have_length 51 (CustomTable sample_rows (Some sample_columns))
  /\ lines_have_length 53
       (CustomTableWithHighlight sample_rows (Some sample_columns)).
Proof.
  apply (table_lines_are_aligned sample_rows (Some sample_columns)).
  - discriminate.
  - intros cols [= <-]. repeat constructor; vm_compute; discriminate.
Defined.

(** ** [ConfigBuilder] *)

Lemma with_items_None (o : UiObject) : with_items None o = o.
Proof. now destruct o. Qed.

Lemma with_items_twice (a b : option Num) (o : UiObject) :
  with_items b (with_items a o)
  = with_items (match b with Some k => Some k | None => a end) o.
Proof. destruct a, b; reflexivity. Qed.

Lemma last_items_cons (call : BuilderCall) (calls : list BuilderCall) :
  last_items (call :: calls)
  = match last_items calls with
    | Some k => Some k
    | None => items_written call
    end.
Proof.
  unfold last_items.
  change (omap items_written (call :: calls))
    with (match items_written call with
          | Some y => y :: omap items_written calls
          | None => omap items_written calls
          end).
  generalize (omap items_written calls). intros l.
  destruct (items_written call) as [n|]; [|now destruct (last l)].
  destruct l as [|m l]; [reflexivity|].
  rewrite last_cons. now destruct (last (m :: l)).
Qed.

(** One call on a builder whose configuration has the [ui] object [u]. *)
Lemma builder_call_shared (b u : Ref) (call : BuilderCall) (s : Store)
    (cb : ConfigObject) :
  configs s !! b = Some cb -> obj_ui cb = Some u ->
  let s' := builder_call b s call in
  (exists cb', configs s' !! b = Some cb' /\ obj_ui cb' = Some u)
  /\ (forall r, r <> b -> configs s' !! r = configs s !! r)
  /\ uis s' = alter (with_items (items_written call)) u (uis s)
  /\ next s' = next s.
Proof.
  intros Hb Hu.
  assert (Hset : forall f, (forall c, obj_ui (f c) = obj_ui c) ->
            let s' := set_config b f s in
            (exists cb', configs s' !! b = Some cb' /\ obj_ui cb' = Some u)
            /\ (forall r, r <> b -> configs s' !! r = configs s !! r)
            /\ uis s' = alter (with_items None) u (uis s)
            /\ next s' = next s).
  { intros f Hf. simpl. split; [|split; [|split]].
    - rewrite lookup_alter_eq, Hb. simpl. eexists. split; [reflexivity|].
      now rewrite Hf.
    - intros r Hr. now rewrite lookup_alter_ne by congruence.
    - apply map_eq. intros r. destruct (decide (r = u)) as [->|Hne].
      + rewrite lookup_alter_eq. destruct (uis s !! u); [|reflexivity].
        simpl. now rewrite with_items_None.
      + now rewrite lookup_alter_ne by congruence.
    - reflexivity. }
  destruct call as [a|cs|d|n]; simpl; [apply Hset; reflexivity..|].
  unfold withItemsPerPage. rewrite Hb, Hu. simpl.
  split; [now exists cb|]. repeat split.
Qed.

Lemma builder_calls_shared (b u : Ref) (calls : list BuilderCall) (s : Store)
    (cb : ConfigObject) :
  configs s !! b = Some cb -> obj_ui cb = Some u ->
  let s' := fold_left (builder_call b) calls s in
  (exists cb', configs s' !! b = Some cb' /\ obj_ui cb' = Some u)
  /\ (forall r, r <> b -> configs s' !! r = configs s !! r)
  /\ uis s' = alter (with_items (last_items calls)) u (uis s)
  /\ next s' = next s.
Proof.
  revert s cb. induction calls as [|call calls IH]; intros s cb Hb Hu; simpl.
  - split; [now exists cb|]. repeat split.
    apply map_eq. intros r. destruct (decide (r = u)) as [->|Hne].
    + rewrite lookup_alter_eq. destruct (uis s !! u); [|reflexivity].
      simpl. now rewrite with_items_None.
    + now rewrite lookup_alter_ne by congruence.
  - destruct (builder_call_shared b u call s cb Hb Hu)
      as ((cb1 & Hb1 & Hu1) & Hc1 & Hui1 & Hn1).
    destruct (IH _ cb1 Hb1 Hu1) as (Hb2 & Hc2 & Hui2 & Hn2).
    split; [exact Hb2|]. split; [|split].
    + intros r Hr. now rewrite Hc2, Hc1.
    + rewrite Hui2, Hui1, last_items_cons.
      apply map_eq. intros r. destruct (decide (r = u)) as [->|Hne].
      * rewrite !lookup_alter_eq. destruct (uis s !! u); [|reflexivity].
        simpl. now rewrite with_items_twice.
      * now rewrite !lookup_alter_ne by congruence.
    + now rewrite Hn2, Hn1.
Qed.

(** A chain of calls on a builder whose configuration has no [ui] object
    yet: the objects that exist are left alone. *)
Lemma builder_calls_fresh (b : Ref) (calls : list BuilderCall) (s : Store)
    (cb : ConfigObject) :
  configs s !! b = Some cb -> obj_ui cb = None ->
  uis s !! next s = None ->
  let s' := fold_left (builder_call b) calls s in
  (forall r, r <> b -> configs s' !! r = configs s !! r)
  /\ (forall r, r <> next s -> uis s' !! r = uis s !! r).
Proof.
  revert s cb. induction calls as [|call calls IH]; intros s cb Hb Hu Hf; simpl;
    [now split|].
  assert (Hset : forall f, (forall c, obj_ui (f c) = obj_ui c) ->
            let s' := fold_left (builder_call b) calls (set_config b f s) in
            (forall r, r <> b -> configs s' !! r = configs s !! r)
            /\ (forall r, r <> next s -> uis s' !! r = uis s !! r)).
  { intros f Hf'. simpl.
    destruct (IH (set_config b f s) (f cb)) as (H1 & H2).
    - simpl. now rewrite lookup_alter_eq, Hb.
    - now rewrite Hf'.
    - exact Hf.
    - split; [|exact H2].
      intros r Hr. rewrite H1 by exact Hr. simpl.
      now rewrite lookup_alter_ne by congruence. }
  destruct call as [a|cs|d|n]; simpl; [apply Hset; reflexivity..|].
  unfold withItemsPerPage. rewrite Hb, Hu. simpl.
  set (s1 := {| configs := _; uis := _; next := _ |}).
  destruct (builder_calls_shared b (next s) calls s1
              {| obj_actions := obj_actions cb;
                 obj_creditSystem := obj_creditSystem cb;
                 obj_customerDetails := obj_customerDetails cb;
                 obj_ui := Some (next s) |})
    as (_ & Hc & Hui & _).
  - subst s1. simpl. now rewrite lookup_insert_eq.
  - reflexivity.
  - split.
    + intros r Hr. rewrite Hc by exact Hr. subst s1. simpl.
      now rewrite lookup_insert_ne by congruence.
    + intros r Hr. rewrite Hui. subst s1. simpl.
      now rewrite !lookup_alter_ne, lookup_insert_ne by congruence.
Qed.

(** The builder is a new object with the properties of the base. *)
Lemma new_ConfigBuilder_spec (base : Ref) (s : Store) (c : ConfigObject) :
  store_ok s -> configs s !! base = Some c ->
  let '(b, s1) := new_ConfigBuilder base s in
  b = next s /\ configs s !! b = None
  /\ configs s1 !! b = Some c
  /\ (forall r, r <> b -> configs s1 !! r = configs s !! r)
  /\ uis s1 = uis s /\ next s1 = S (next s).
Proof.
  intros (Hc & _) Hb. unfold new_ConfigBuilder. rewrite Hb.
  assert (Hfresh : configs s !! next s = None).
  { destruct (configs s !! next s) eqn:E; [|reflexivity].
    assert (next s < next s)%nat by (apply Hc; eexists; eassumption). lia. }
  split; [reflexivity|]. split; [exact Hfresh|]. simpl.
  split; [now rewrite lookup_insert_eq|]. split; [|now split].
  intros r Hr. now rewrite lookup_insert_ne by congruence.
Qed.

Lemma items_of_eq (s : Store) (r : Ref) :
  items_of s r
  = c ← configs s !! r; u ← obj_ui c; o ← uis s !! u; ui_items o.
Proof.
  unfold items_of, read_config. now destruct (configs s !! r).
Qed.

(** What a chain leaves behind, for a base with a [ui] object. *)
Lemma chain_shared (base u : Ref) (calls : list BuilderCall) (s : Store)
    (c : ConfigObject) :
  store_ok s -> configs s !! base = Some c -> obj_ui c = Some u ->
  let '(b, s') := createConfig_chain base calls s in
  b = next s
  /\ (exists cb', configs s' !! b = Some cb' /\ obj_ui cb' = Some u)
  /\ (forall r, r <> b -> configs s' !! r = configs s !! r)
  /\ uis s' = alter (with_items (last_items calls)) u (uis s).
Proof.
  intros Hok Hb Hu. unfold createConfig_chain.
  pose proof (new_ConfigBuilder_spec base s c Hok Hb) as Hnew.
  destruct (new_ConfigBuilder base s) as [b s1].
  destruct Hnew as (-> & Hfresh & Hb1 & Hc1 & Hui1 & Hn1).
  destruct (builder_calls_shared (next s) u calls s1 c Hb1 Hu)
    as (Hb2 & Hc2 & Hui2 & _).
  unfold build. split; [reflexivity|]. split; [exact Hb2|]. split.
  - intros r Hr. now rewrite Hc2, Hc1.
  - now rewrite Hui2, Hui1.
Qed.

(** X15.  [new ConfigBuilder(base)] copies the properties of [base], so the
    builder and [base] share one [ui] object.  When [base] has a [ui]
    object, the last [withItemsPerPage(n)] of a chain sets [itemsPerPage] to
    [n] for the built configuration, for [base] itself and for every
    configuration that shares the [ui] object of [base]. *)
Theorem withItemsPerPage_reaches_the_base (base u : Ref)
    (calls : list BuilderCall) (s : Store) (c : ConfigObject) (n : Num) :
  store_ok s ->
  configs s !! base = Some c -> obj_ui c = Some u ->
  last_items calls = Some n ->
  let '(built, s') := createConfig_chain base calls s in
  items_of s' built = Some n
  /\ items_of s' base = Some n
  /\ (forall r c', configs s !! r = Some c' -> obj_ui c' = Some u ->
                   items_of s' r = Some n).
Proof.
  intros Hok Hb Hu Hlast.
  pose proof (chain_shared base u calls s c Hok Hb Hu) as H.
  destruct (createConfig_chain base calls s) as [b s'].
  destruct H as (-> & (cb' & Hb' & Hu') & Hc & Hui).
  destruct Hok as (Hlt & _ & Hin).
  destruct (Hin base c u Hb Hu) as [o Ho].
  assert (Hitems : (o ← uis s' !! u; ui_items o) = Some n).
  { rewrite Hui, lookup_alter_eq, Ho, Hlast. reflexivity. }
  assert (Hold : forall r c', configs s !! r = Some c' -> obj_ui c' = Some u ->
                   items_of s' r = Some n).
  { intros r c' Hr Hcu. rewrite items_of_eq, Hc, Hr; [simpl|].
    - rewrite Hcu. exact Hitems.
    - assert (r < next s)%nat by (apply Hlt; eexists; eassumption). lia. }
  split; [|split; [now apply (Hold base c) | exact Hold]].
  rewrite items_of_eq, Hb'. simpl. rewrite Hu'. exact Hitems.
Qed.

Lemma module_store_ok : store_ok module_store.
Proof.
  split; [|split].
  - intros r [c Hr]. unfold module_store in Hr. simpl in Hr.
    repeat (apply lookup_insert_Some in Hr;
            destruct Hr as [[<- _]|[_ Hr]]; [vm_compute; lia|]).
    apply lookup_singleton_Some in Hr. destruct Hr as [<- _]. vm_compute. lia.
  - intros r [o Hr]. unfold module_store in Hr. simpl in Hr.
    repeat (apply lookup_insert_Some in Hr;
            destruct Hr as [[<- _]|[_ Hr]]; [vm_compute; lia|]).
    apply lookup_singleton_Some in Hr. destruct Hr as [<- _]. vm_compute. lia.
  - intros r c u Hr Hu. unfold module_store in Hr. simpl in Hr.
    repeat (apply lookup_insert_Some in Hr;
            destruct Hr as [[_ <-]|[_ Hr]];
            [injection Hu as <-; now eexists|]).
    apply lookup_singleton_Some in Hr. destruct Hr as [_ <-].
    injection Hu as <-. now eexists.
Qed.

Lemma withItemsPerPage_reaches_the_base_witness :
  items_of module_store defaultConfig = Some (Fin 10)
  /\ let '(built, s') :=
       createConfig_chain defaultConfig
         [WithCreditSystem tokens; WithItemsPerPage (Fin 15)] module_store in
     items_of s' defaultConfig = Some (Fin 15)
     /\ items_of s' tokenBased = Some (Fin 15).
Proof.
  split; [reflexivity|].
  pose proof (withItemsPerPage_reaches_the_base defaultConfig 4%nat
                [WithCreditSystem tokens; WithItemsPerPage (Fin 15)] module_store
                _ (Fin 15) module_store_ok eq_refl eq_refl eq_refl) as H.
  destruct (createConfig_chain _ _ _) as [built s'].
  destruct H as (_ & H0 & Hall). split; [exact H0|].
  apply (Hall tokenBased _ eq_refl eq_refl).
Defined.

(** X16.  The configuration that a builder chain returns is a new object.
    No existing configuration object is changed, and what is read from an
    existing configuration stays the same when the chain has no
    [withItemsPerPage], when [base] has no [ui] object, or when the
    configuration does not share the [ui] object of [base]. *)
Theorem builder_keeps_other_configs (base : Ref) (calls : list BuilderCall)
    (s : Store) (c : ConfigObject) :
  store_ok s ->
  configs s !! base = Some c ->
  let '(built, s') := createConfig_chain base calls s in
  configs s !! built = None
  /\ (forall r, r <> built -> configs s' !! r = configs s !! r)
  /\ (forall r c', configs s !! r = Some c' ->
        last_items calls = None \/ obj_ui c = None \/ obj_ui c' <> obj_ui c ->
        read_config s' r = read_config s r).
Proof.
  intros Hok Hb.
  assert (Hread : forall s' r c',
            configs s' !! r = Some c' -> configs s !! r = Some c' ->
            (forall u, obj_ui c' = Some u -> uis s' !! u = uis s !! u) ->
            read_config s' r = read_config s r).
  { intros s' r c' H1 H2 H3. unfold read_config. rewrite H1, H2. simpl.
    destruct (obj_ui c') as [u|]; [|reflexivity]. simpl.
    now rewrite (H3 u eq_refl). }
  destruct (obj_ui c) as [u|] eqn:Hu.
  - pose proof (chain_shared base u calls s c Hok Hb Hu) as H.
    destruct (createConfig_chain base calls s) as [b s'].
    destruct H as (-> & _ & Hc & Hui).
    destruct Hok as (Hlt & _ & _).
    assert (Hfresh : configs s !! next s = None).
    { destruct (configs s !! next s) eqn:E; [|first [reflexivity | exact E]].
      assert (next s < next s)%nat by (apply Hlt; eexists; eassumption).
      lia. }
    split; [exact Hfresh|]. split; [exact Hc|].
    intros r c' Hr Hcond.
    assert (Hrb : r <> next s) by congruence.
    apply (Hread s' r c'); [now rewrite Hc | exact Hr|].
    intros u' Hu'. rewrite Hui.
    destruct Hcond as [Hl | [Hn | Hne]]; [|discriminate|].
    + rewrite Hl. destruct (decide (u' = u)) as [->|Hneq].
      * rewrite lookup_alter_eq. destruct (uis s !! u); [|reflexivity].
        simpl. now rewrite with_items_None.
      * now rewrite lookup_alter_ne by congruence.
    + rewrite lookup_alter_ne; [reflexivity|]. congruence.
  - unfold createConfig_chain.
    pose proof (new_ConfigBuilder_spec base s c Hok Hb) as Hnew.
    destruct (new_ConfigBuilder base s) as [b s1].
    destruct Hnew as (-> & Hfresh & Hb1 & Hc1 & Hui1 & Hn1).
    destruct Hok as (Hlt & Hult & Hin).
    destruct (builder_calls_fresh (next s) calls s1 c Hb1 Hu) as (Hc2 & Hui2).
    { rewrite Hui1, Hn1. destruct (uis s !! S (next s)) eqn:E; [|first [reflexivity | exact E]].
      assert (S (next s) < next s)%nat by (apply Hult; eexists; eassumption).
      lia. }
    unfold build. split; [exact Hfresh|]. split.
    + intros r Hr. now rewrite Hc2, Hc1.
    + intros r c' Hr _.
      assert (Hrb : r <> next s) by congruence.
      apply (Hread _ r c'); [now rewrite Hc2, Hc1 | exact Hr|].
      intros u' Hu'. rewrite Hui2, Hui1; [reflexivity|].
      rewrite Hn1. destruct (Hin r c' u' Hr Hu') as [o Ho].
      assert (u' < next s)%nat by (apply Hult; eexists; eassumption). lia.
Qed.

Lemma builder_keeps_other_configs_witness :
  let '(built, s') :=
    createConfig_chain defaultConfig
      [WithCreditSystem tokens; WithItemsPerPage (Fin 15)] module_store in
  read_config s' compact = read_config module_store compact.
Proof.
  pose proof (builder_keeps_other_configs defaultConfig
                [WithCreditSystem tokens; WithItemsPerPage (Fin 15)] module_store
                _ module_store_ok eq_refl) as H.
  destruct (createConfig_chain _ _ _) as [built s'].
  destruct H as (_ & _ & H).
  apply (H compact _ eq_refl). right; right. discriminate.
Defined.

(** ** Fetching the customers *)

Lemma fetch_customers_serves (db : list Customer) (fuel : nat) :
  forall offset pageNum acc,
    (List.length db - offset < 100 * fuel)%nat ->
    fetch_customers (serves db) fuel offset pageNum acc
    = Some (Fetched (acc ++ drop offset db)
              (pageNum + (List.length db - offset) / 100)).
Proof.
  induction fuel as [|fuel IH]; intros offset pageNum acc Hfuel; [lia|].
  cbn -[Nat.div]. rewrite length_take, length_drop.
  remember (List.length db - offset)%nat as rest eqn:Hrest.
  destruct (Nat.min 100 rest =? 0)%nat eqn:E0.
  - apply Nat.eqb_eq in E0. assert (Hr : rest = 0%nat) by lia.
    rewrite drop_ge by lia. rewrite Hr.
    now rewrite app_nil_r, Nat.Div0.div_0_l, Nat.add_0_r.
  - apply Nat.eqb_neq in E0.
    destruct (Nat.min 100 rest =? 100)%nat eqn:E1.
    + apply Nat.eqb_eq in E1.
      rewrite IH by lia. rewrite <- app_assoc.
      replace (take 100 (drop offset db) ++ drop (offset + 100) db)
        with (drop offset db).
      2:{ rewrite <- (take_drop 100 (drop offset db)) at 1.
          now rewrite drop_drop. }
      do 2 f_equal.
      replace (List.length db - (offset + 100))%nat with (rest - 100)%nat
        by lia.
      assert (Hd : (rest / 100 = S ((rest - 100) / 100))%nat).
      { replace rest with ((rest - 100) + 1 * 100)%nat at 1 by lia.
        rewrite Nat.div_add by lia. lia. }
      lia.
    + apply Nat.eqb_neq in E1.
      rewrite take_ge by (rewrite length_drop; lia).
      rewrite Nat.div_small by lia. now rewrite Nat.add_0_r.
Qed.

(** X17.  When the API serves a fixed list of customers in slices of at
    most 100, the fetch loop ends and returns exactly that list, every
    customer once and in order, after one request more than the number of
    full pages: for a list whose length is a multiple of 100 (the empty
    list too) the last request returns an empty page. *)
Theorem fetch_gets_every_customer (db : list Customer) (fuel : nat) :
  (List.length db / 100 < fuel)%nat ->
  fetch_customers (serves db) fuel 0 1 []
  = Some (Fetched db (1 + List.length db / 100)).
Proof.
  intros Hfuel.
  rewrite fetch_customers_serves.
  - now rewrite Nat.sub_0_r.
  - rewrite Nat.sub_0_r.
    pose proof (Nat.div_mod_eq (List.length db) 100) as Hd.
    pose proof (Nat.mod_upper_bound (List.length db) 100) as Hm. lia.
Qed.

Lemma fetch_gets_every_customer_witness :
  fetch_customers (serves five_source) 1 0 1 []
  = Some (Fetched five_source 1).
Proof.
  apply (fetch_gets_every_customer five_source 1). vm_compute. lia.
Defined.

(** ** The price lookup *)

Lemma object_set_other (o : gmap string Num) (k k' : string) (v : Num) :
  k' <> k -> object_set o k v !! k' = o !! k'.
Proof.
  intros Hk. unfold object_set. destruct (String.eqb k "__proto__");
    [reflexivity|]. now apply lookup_insert_ne.
Qed.

Lemma object_set_same (o : gmap string Num) (k : string) (v : Num) :
  k <> "__proto__" -> object_set o k v !! k = Some v.
Proof.
  intros Hk. unfold object_set.
  destruct (String.eqb_spec k "__proto__"); [contradiction|].
  apply lookup_insert_eq.
Qed.

Lemma object_set_proto (o : gmap string Num) (k : string) (v : Num) :
  o !! "__proto__" = None -> object_set o k v !! "__proto__" = None.
Proof.
  intros Ho. unfold object_set.
  destruct (String.eqb_spec k "__proto__") as [->|Hk]; [exact Ho|].
  now rewrite lookup_insert_ne.
Qed.

Lemma add_product_other (m : gmap string Num) (product : ApiProduct)
    (k : string) :
  k ∉ written_keys product -> add_product m product !! k = m !! k.
Proof.
  unfold add_product, written_keys.
  destruct (price_item product) as [item|]; [|reflexivity].
  destruct (str_truthy (api_name product)); intros Hk.
  - rewrite !object_set_other; [reflexivity|..]; set_solver.
  - rewrite object_set_other; [reflexivity|]. set_solver.
Qed.

Lemma add_products_other (products : list ApiProduct) (m : gmap string Num)
    (k : string) :
  k ∉ List.concat (map written_keys products) ->
  fold_left add_product products m !! k = m !! k.
Proof.
  revert m. induction products as [|p l IH]; intros m Hk; [reflexivity|].
  simpl in *. rewrite not_elem_of_app in Hk. destruct Hk as [Hp Hl].
  rewrite IH by exact Hl. now apply add_product_other.
Qed.

Lemma add_product_keys (m : gmap string Num) (product : ApiProduct)
    (item : PriceItem) :
  price_item product = Some item ->
  (api_id product <> "__proto__" ->
   add_product m product !! api_id product = Some (monthly_price item))
  /\ (str_truthy (api_name product) = true ->
      default "" (api_name product) <> "__proto__" ->
      add_product m product !! default "" (api_name product)
      = Some (monthly_price item)).
Proof.
  intros Hi. unfold add_product. rewrite Hi.
  destruct (str_truthy (api_name product)).
  - split; [|intros _; apply object_set_same].
    intros Hid.
    destruct (decide (default "" (api_name product) = api_id product))
      as [->|Hne]; [now apply object_set_same|].
    rewrite object_set_other by congruence. now apply object_set_same.
  - split; [apply object_set_same | discriminate].
Qed.

(** Nothing is ever stored under [__proto__]. *)
Lemma add_products_proto (products : list ApiProduct) (m : gmap string Num) :
  m !! "__proto__" = None ->
  fold_left add_product products m !! "__proto__" = None.
Proof.
  revert m. induction products as [|p l IH]; intros m Hm; [exact Hm|].
  simpl. apply IH. unfold add_product.
  destruct (price_item p); [|exact Hm].
  destruct (str_truthy (api_name p)); now repeat apply object_set_proto.
Qed.

(** Where the lookup gives a number, it is the value of the map: on such
    plans [getPlanPrice] is the function of the own properties. *)
Lemma getPlanPrice_agrees (o : gmap string Num) (plan : option Product)
    (v : Num) :
  fetchData_getPlanPrice o plan = PriceIs v -> getPlanPrice o plan = v.
Proof.
  unfold fetchData_getPlanPrice, getPlanPrice, lookup_by, price_by, object_get.
  destruct plan as [p|]; [|now intros [= <-]].
  destruct (str_truthy (product_id p)).
  - destruct (o !! default "" (product_id p)) as [w|].
    + now intros [= <-].
    + destruct (bool_decide _); [discriminate|].
      destruct (str_truthy (product_name p));
        [|now intros [= <-]].
      destruct (o !! default "" (product_name p)) as [w|];
        [now intros [= <-]|].
      destruct (bool_decide _); [discriminate | now intros [= <-]].
  - destruct (str_truthy (product_name p)); [|now intros [= <-]].
    destruct (o !! default "" (product_name p)) as [w|];
      [now intros [= <-]|].
    destruct (bool_decide _); [discriminate | now intros [= <-]].
Qed.

(** X18.  The price lookup is a plain object whose own properties keep the
    last write per key.  A plan of the product list with a price item is
    found by its identifier (not empty, not [__proto__]), unless a later
    product writes that key, with [price || 0] per month: a yearly price is
    divided by 12.  It is found by its name (not empty, not [__proto__])
    when the lookup by identifier gives [undefined].  In both cases
    [getPlanPrice] of [CustomerTable] gives the same number.  Under a key
    that no product assigns, the lookup gives [undefined], but for the
    names inherited from [Object.prototype], where it gives the inherited
    member, which is no number; nothing is ever stored under [__proto__]. *)
Theorem listed_plan_has_its_monthly_price
    (before after : list ApiProduct) (p : ApiProduct) (item : PriceItem)
    (plan : Product) :
  price_item p = Some item ->
  let prices := build_pricesLookup (Some (before ++ p :: after)) in
  (api_id p ∉ List.concat (map written_keys after) ->
   api_id p <> "" -> api_id p <> "__proto__" ->
   product_id plan = Some (api_id p) ->
   fetchData_getPlanPrice prices (Some plan) = PriceIs (monthly_price item)
   /\ getPlanPrice prices (Some plan) = monthly_price item)
  /\ (forall n, api_name p = Some n -> n <> "" -> n <> "__proto__" ->
        n ∉ List.concat (map written_keys after) ->
        lookup_by prices (product_id plan) = Missing ->
        product_name plan = Some n ->
        fetchData_getPlanPrice prices (Some plan)
        = PriceIs (monthly_price item)
        /\ getPlanPrice prices (Some plan) = monthly_price item)
  /\ (forall k,
        k ∉ List.concat (map written_keys (before ++ p :: after)) ->
        object_get prices k
        = if bool_decide (k ∈ inherited_names) then Inherited else Missing)
  /\ object_get prices "__proto__" = Inherited.
Proof.
  intros Hi prices.
  assert (Hfold : forall k, k ∉ List.concat (map written_keys after) ->
            prices !! k
            = add_product (fold_left add_product before ∅) p !! k).
  { intros k Hk. subst prices. unfold build_pricesLookup. simpl.
    rewrite fold_left_app. simpl. now apply add_products_other. }
  destruct (add_product_keys (fold_left add_product before ∅) p item Hi)
    as (Hid & Hname).
  assert (Htruthy : forall k, k <> "" -> str_truthy (Some k) = true).
  { intros k Hk. simpl. apply negb_true_iff. now apply String.eqb_neq. }
  split; [|split; [|split]].
  - intros Hafter Hne Hproto Hplan.
    assert (E : fetchData_getPlanPrice prices (Some plan)
                = PriceIs (monthly_price item)).
    { unfold fetchData_getPlanPrice, lookup_by, object_get.
      rewrite Hplan, (Htruthy _ Hne). simpl.
      now rewrite (Hfold _ Hafter), (Hid Hproto). }
    split; [exact E | now apply getPlanPrice_agrees].
  - intros n Hn Hne Hproto Hafter Hnoid Hplan.
    assert (E : fetchData_getPlanPrice prices (Some plan)
                = PriceIs (monthly_price item)).
    { unfold fetchData_getPlanPrice. rewrite Hnoid.
      unfold lookup_by, object_get. rewrite Hplan, (Htruthy _ Hne). simpl.
      rewrite (Hfold _ Hafter). rewrite Hn in Hname.
      specialize (Hname (Htruthy _ Hne) Hproto). simpl in Hname.
      now rewrite Hname. }
    split; [exact E | now apply getPlanPrice_agrees].
  - intros k Hnot. unfold object_get.
    subst prices. unfold build_pricesLookup. simpl.
    now rewrite add_products_other by exact Hnot.
  - unfold object_get. subst prices. unfold build_pricesLookup.
    now rewrite add_products_proto.
Qed.

Lemma listed_plan_has_its_monthly_price_witness :
  fetchData_getPlanPrice (build_pricesLookup (Some [yearly_pro]))
    (Some (plan_product "pro"))
  = PriceIs (monthly_price
               {| item_type := Some "price"; item_price := Some (Fin 240);
                  item_interval := Some "year" |})
  /\ eqb (getPlanPrice (build_pricesLookup (Some [yearly_pro]))
            (Some (plan_product "pro")))
       (Fin 20)
     = true.
Proof.
  destruct (listed_plan_has_its_monthly_price [] [] yearly_pro _
              (plan_product "pro") eq_refl) as (H & _).
  assert (E := H (not_elem_of_nil _) ltac:(discriminate) ltac:(discriminate)
                 eq_refl).
  change ([] ++ [yearly_pro]) with [yearly_pro] in E.
  destruct E as [E1 E2]. split; [exact E1|]. rewrite E2. reflexivity.
Defined.

(** ** The plan analysis *)

Lemma has_group_keys (k : string) (a : PlanAnalysis) :
  has_group k a = true <-> k ∈ map fst a.
Proof.
  unfold has_group. rewrite existsb_exists, list_elem_of_In, in_map_iff.
  split; intros (kg & H1 & H2); exists kg.
  - apply String.eqb_eq in H2. now split.
  - split; [exact H2 | now apply String.eqb_eq].
Qed.

Lemma update_group_split (k : string) (f : PlanGroup -> PlanGroup)
    (a : PlanAnalysis) :
  k ∈ map fst a ->
  exists a1 g a2,
    a = a1 ++ (k, g) :: a2 /\ (k ∉ map fst a1)
    /\ update_group k f a = a1 ++ (k, f g) :: a2.
Proof.
  induction a as [|[k' g] a IH]; intros Hk; [inversion Hk|].
  simpl. destruct (String.eqb_spec k' k) as [->|Hne].
  - exists [], g, a. repeat split. apply not_elem_of_nil.
  - simpl in Hk. apply elem_of_cons in Hk. destruct Hk as [Hk|Hk]; [congruence|].
    destruct (IH Hk) as (a1 & g0 & a2 & -> & Hn & ->).
    exists ((k', g) :: a1), g0, a2. repeat split.
    simpl. rewrite not_elem_of_cons. split; [congruence | exact Hn].
Qed.

Lemma with_plan_snoc (k : string) (l : list Customer) (c : Customer) :
  with_plan k (l ++ [c])
  = with_plan k l ++ (if String.eqb (planName_of c) k then [c] else []).
Proof.
  unfold with_plan. rewrite List.filter_app. simpl.
  now destruct (String.eqb (planName_of c) k).
Qed.

Lemma with_plan_nil (k : string) (l : list Customer) :
  (forall c, c ∈ l -> planName_of c <> k) -> with_plan k l = [].
Proof.
  induction l as [|c l IH]; intros H; [reflexivity|]. simpl.
  destruct (String.eqb_spec (planName_of c) k) as [E|_].
  - exfalso. apply (H c); [apply list_elem_of_here | exact E].
  - apply IH. intros c' Hc'. apply H. now apply list_elem_of_further.
Qed.

Lemma add_customer_inv prices cs (done : list Customer) (a : PlanAnalysis)
    (c : Customer) :
  groups_inv done a ->
  match add_customer prices cs a c with
  | Some a' => groups_inv (done ++ [c]) a'
  | None => planName_of c ∈ inherited_names
  end.
Proof.
  intros (Hnd & Hkeys & Hall & Hperm & Hown). unfold add_customer.
  set (k := planName_of c).
  assert (Hkeys' : forall a' : PlanAnalysis,
            map fst a' = map fst a \/ map fst a' = map fst a ++ [k] ->
            (k ∈ map fst a') ->
            forall k', k' ∈ map fst a'
                       <-> exists c', c' ∈ done ++ [c] /\ planName_of c' = k').
  { intros a' Hm Hk k'. split.
    - intros Hk'. destruct (decide (k' = k)) as [->|Hne].
      + exists c. split; [|reflexivity].
        apply elem_of_app. right. apply list_elem_of_here.
      + assert (Hold : k' ∈ map fst a).
        { destruct Hm as [Hm|Hm]; rewrite Hm in Hk'; [exact Hk'|].
          apply elem_of_app in Hk'. destruct Hk' as [Hk'|Hk']; [exact Hk'|].
          apply list_elem_of_singleton in Hk'. congruence. }
        apply Hkeys in Hold. destruct Hold as (c' & Hc' & E).
        exists c'. split; [|exact E]. apply elem_of_app. now left.
    - intros (c' & Hc' & E). apply elem_of_app in Hc'.
      destruct Hc' as [Hc'|Hc'].
      + assert (Hold : k' ∈ map fst a) by (apply Hkeys; now exists c').
        destruct Hm as [Hm|Hm]; rewrite Hm; [exact Hold|].
        apply elem_of_app. now left.
      + apply list_elem_of_singleton in Hc'. subst c'. fold k in E.
        now subst k'. }
  destruct (has_group k a) eqn:Hg.
  - apply has_group_keys in Hg.
    destruct (update_group_split k
                (fun g =>
                   {| group_customers := group_customers g ++ [c];
                      totalCreditsUsed :=
                        add (totalCreditsUsed g)
                          (total (getCustomerCredits c cs));
                      customerCount := S (customerCount g);
                      group_planPrice := group_planPrice g;
                      totalSubscriptionRevenue :=
                        add (totalSubscriptionRevenue g)
                          (getPlanPrice prices (activePlan c)) |}) a Hg)
      as (a1 & g & a2 & -> & Hn1 & ->).
    assert (Hmap : map fst (a1 ++ (k, g) :: a2)
                   = map fst a1 ++ k :: map fst a2)
      by now rewrite map_app.
    rewrite Hmap in Hnd. apply NoDup_app in Hnd.
    destruct Hnd as (Hnd1 & Hdisj & Hnd2). apply NoDup_cons in Hnd2.
    destruct Hnd2 as (Hn2 & Hnd2).
    apply Forall_app in Hall. destruct Hall as (Hall1 & Hall2).
    apply Forall_cons in Hall2. destruct Hall2 as ((Hgc & Hgn) & Hall2).
    simpl in Hgc, Hgn.
    assert (Hother : forall l,
              Forall (fun kg =>
                        group_customers (snd kg) = with_plan (fst kg) done
                        /\ customerCount (snd kg)
                           = List.length (with_plan (fst kg) done)) l ->
              k ∉ map fst l ->
              Forall (fun kg =>
                        group_customers (snd kg)
                        = with_plan (fst kg) (done ++ [c])
                        /\ customerCount (snd kg)
                           = List.length (with_plan (fst kg) (done ++ [c])))
                l).
    { intros l Hl Hk. apply Forall_forall. intros kg Hin.
      rewrite Forall_forall in Hl. destruct (Hl kg Hin) as (E1 & E2).
      rewrite with_plan_snoc. fold k.
      destruct (String.eqb_spec k (fst kg)) as [E|_].
      - exfalso. apply Hk. rewrite E. apply list_elem_of_In, in_map.
        now apply list_elem_of_In.
      - now rewrite app_nil_r. }
    split; [|split; [|split; [|split]]].
    + rewrite map_app. simpl. apply NoDup_app.
      split; [exact Hnd1|]. split; [exact Hdisj|]. now apply NoDup_cons.
    + apply Hkeys'; [left; now rewrite !map_app | now rewrite map_app in *].
    + apply Forall_app. split; [now apply Hother|].
      apply Forall_cons. split; [|now apply Hother].
      simpl. rewrite with_plan_snoc. fold k. rewrite String.eqb_refl.
      rewrite Hgc, Hgn, length_app. simpl. split; [reflexivity | lia].
    + rewrite map_app, concat_app in *. simpl in *.
      rewrite <- Hperm. rewrite <- !app_assoc.
      do 2 apply Permutation_app_head. apply Permutation_app_comm.
    + intros k' Hk'. apply Hown. now rewrite !map_app in *.
  - assert (Hnk : k ∉ map fst a).
    { intros H. apply has_group_keys in H. congruence. }
    destruct (bool_decide_reflect (k ∈ inherited_names)) as [Hi|Hi];
      [exact Hi|].
    assert (Hnone : forall c', c' ∈ done -> planName_of c' <> k).
    { intros c' Hc' E. apply Hnk. apply Hkeys. now exists c'. }
    split; [|split; [|split; [|split]]].
    + rewrite map_app. simpl. apply NoDup_app. split; [exact Hnd|].
      split; [|apply NoDup_singleton].
      intros x Hx Hx'. apply list_elem_of_singleton in Hx'. congruence.
    + apply Hkeys'; [right; now rewrite map_app|].
      rewrite map_app. apply elem_of_app. right. apply list_elem_of_here.
    + apply Forall_app. split.
      * apply Forall_forall. intros kg Hin.
        rewrite Forall_forall in Hall. destruct (Hall kg Hin) as (E1 & E2).
        rewrite with_plan_snoc. fold k.
        destruct (String.eqb_spec k (fst kg)) as [E|_].
        -- exfalso. apply Hnk. rewrite E. apply list_elem_of_In, in_map.
           now apply list_elem_of_In.
        -- now rewrite app_nil_r.
      * apply Forall_singleton. simpl. rewrite with_plan_snoc. fold k.
        rewrite String.eqb_refl, (with_plan_nil k done Hnone). now split.
    + rewrite map_app, concat_app. simpl. rewrite ?app_nil_r.
      now apply Permutation_app_tail.
    + intros k' Hk'. rewrite map_app in Hk'. apply elem_of_app in Hk'.
      destruct Hk' as [Hk'|Hk']; [now apply Hown|].
      apply list_elem_of_singleton in Hk'. now subst k'.
Qed.

Lemma analyse_from_inv prices cs (rest done : list Customer)
    (a : PlanAnalysis) :
  groups_inv done a ->
  match analyse_from prices cs a rest with
  | Some a' => groups_inv (done ++ rest) a'
  | None => exists c, c ∈ rest /\ planName_of c ∈ inherited_names
  end.
Proof.
  revert done a. induction rest as [|c rest IH]; intros done a Hinv; simpl.
  - now rewrite app_nil_r.
  - pose proof (add_customer_inv prices cs done a c Hinv) as Hstep.
    destruct (add_customer prices cs a c) as [a1|] eqn:E.
    + specialize (IH (done ++ [c]) a1 Hstep).
      destruct (analyse_from prices cs a1 rest) as [a'|].
      * now rewrite <- app_assoc in IH.
      * destruct IH as (c' & Hc' & Hi). exists c'.
        split; [now apply list_elem_of_further | exact Hi].
    + exists c. split; [apply list_elem_of_here | exact Hstep].
Qed.

(** X19.  The plan analysis puts every customer into exactly one group,
    that of the name of its active plan ("No Active Plan" without one):
    the groups have distinct names, each holds the customers of its name in
    their order, [customerCount] is their number, and all groups together
    hold the customers of the list.  The analysis fails exactly when a plan
    is named like a property that every object inherits, for example
    "constructor". *)
Theorem analysis_groups_by_plan prices cs (allCustomers : list Customer) :
  match analyse prices cs allCustomers with
  | Some analysis =>
      groups_of allCustomers analysis
      /\ List.concat (map (fun kg => group_customers (snd kg)) analysis)
         ≡ₚ allCustomers
      /\ (forall c, c ∈ allCustomers -> planName_of c ∉ inherited_names)
  | None =>
      exists c, c ∈ allCustomers /\ planName_of c ∈ inherited_names
  end.
Proof.
  pose proof (analyse_from_inv prices cs allCustomers [] []) as H.
  unfold analyse. destruct (analyse_from prices cs [] allCustomers) as [a|].
  - destruct H as (Hnd & Hkeys & Hall & Hperm & Hown).
    { split; [constructor|]. split; [|split; [constructor|split]].
      - intros k. split; [intros Hk; inversion Hk|].
        intros (c & Hc & _). inversion Hc.
      - reflexivity.
      - intros k Hk. inversion Hk. }
    simpl in *. split; [|split; [exact Hperm|]].
    + split; [exact Hnd|]. split; [|exact Hall].
      intros k. rewrite has_group_keys. apply Hkeys.
    + intros c Hc. apply Hown, Hkeys. now exists c.
  - apply H. split; [constructor|]. split; [|split; [constructor|split]].
    + intros k. split; [intros Hk; inversion Hk|].
      intros (c & Hc & _). inversion Hc.
    + reflexivity.
    + intros k Hk. inversion Hk.
Qed.

(** ** The application and its table *)

Section AppFacts.
Variable plans : list Props.

Lemma sortedPlans_length (app : AppState) :
  (List.length (sortedPlans plans app) <= List.length plans)%nat.
Proof. unfold sortedPlans. destruct (loaded app); simpl; lia. Qed.

(** The handlers of the application never write the table or what the
    table reports; they change the view, the plan cursor or exit only when
    the help is closed and no modal is reported. *)
Lemma app_handler_effect (app : AppState) (input : string) (key : AppKey) :
  let app' := app_help_overlay app key (app_handler plans app input key) in
  table app' = table app
  /\ isAnyModalOpen app' = isAnyModalOpen app
  /\ isAnyMenuOpen app' = isAnyMenuOpen app
  /\ loaded app' = loaded app
  /\ ((app_view app' = app_view app
       /\ selectedPlanIndex app' = selectedPlanIndex app
       /\ exited app' = exited app)
      \/ (app_isHelpOpen app = false /\ isAnyModalOpen app = false))
  /\ (selectedPlanIndex app' = selectedPlanIndex app
      \/ (selectedPlanIndex app' < selectedPlanIndex app)%nat
      \/ (selectedPlanIndex app' < List.length plans)%nat)
  /\ (exited app' = true ->
      exited app = true
      \/ (escape (table_key key) = true /\ app_view app <> view_customers)).
Proof.
  pose proof (sortedPlans_length app) as Hlen.
  unfold app_help_overlay, app_handler, app_global_keys, app_plans_keys.
  destruct (app_isHelpOpen app) eqn:Hh.
  { destruct (escape (table_key key) || input_is input "h" "H");
      destruct (escape (table_key key)); simpl; repeat split; auto. }
  simpl. destruct (isAnyModalOpen app) eqn:Hm.
  { repeat split; auto. }
  destruct (bool_decide_reflect (app_view app = view_plans)) as [Hp|Hp];
    destruct (bool_decide_reflect (app_view app = view_customers)) as [Hc|Hc];
    try congruence;
    repeat match goal with
           | |- context [if ?b then _ else _] =>
               let E := fresh "E" in destruct b eqn:E; simpl
           end;
    repeat split; auto; try congruence;
    repeat match goal with
           | E : _ && _ = true |- _ =>
               apply andb_prop in E; destruct E
           end;
    repeat match goal with
           | E : (_ <? _)%nat = true |- _ => apply Nat.ltb_lt in E
           end;
    lia.
Qed.

Lemma render_table_cells (app : AppState) :
  app_view (render_table plans app) = app_view app
  /\ selectedPlanIndex (render_table plans app) = selectedPlanIndex app
  /\ app_isHelpOpen (render_table plans app) = app_isHelpOpen app
  /\ loaded (render_table plans app) = loaded app
  /\ exited (render_table plans app) = exited app.
Proof.
  unfold render_table. destruct (bool_decide _); [|now repeat split].
  destruct (sortedPlans plans app !! selectedPlanIndex app);
    now repeat split.
Qed.

Lemma render_table_plans (app : AppState) :
  sortedPlans plans (render_table plans app) = sortedPlans plans app.
Proof.
  unfold sortedPlans.
  now destruct (render_table_cells app) as (_ & _ & _ & -> & _).
Qed.

(** After a render the table is mounted exactly in the customers view of
    an existing plan. *)
Lemma render_table_mounted (app : AppState) :
  is_Some (table (render_table plans app))
  <-> app_view app = view_customers
      /\ is_Some (sortedPlans plans app !! selectedPlanIndex app).
Proof.
  unfold render_table.
  destruct (bool_decide_reflect (app_view app = view_customers)) as [Hv|Hv].
  - destruct (sortedPlans plans app !! selectedPlanIndex app) as [p|]; simpl.
    + split; [intros _; split; [exact Hv | now eexists] | now eexists].
    + split; [intros [x Hx]; discriminate | intros (_ & [x Hx]); discriminate].
  - simpl. split; [intros [x Hx]; discriminate | intros (H & _); contradiction].
Qed.

Lemma render_table_synced (app : AppState) :
  (is_Some (table (render_table plans app)) \/ isAnyModalOpen app = false) ->
  app_synced plans (render_table plans app).
Proof.
  intros H. unfold app_synced.
  destruct (table (render_table plans app)) as [st|] eqn:E.
  - assert (Hm : is_Some (table (render_table plans app)))
      by (rewrite E; now eexists).
    apply render_table_mounted in Hm. destruct Hm as (Hv & [p Hp]).
    destruct (render_table_cells app) as (-> & -> & _).
    rewrite render_table_plans.
    split; [exact Hv|]. split; [eexists; exact Hp|].
    revert E. unfold render_table.
    rewrite (bool_decide_eq_true_2 _ Hv), Hp. simpl.
    now intros [= <-].
  - destruct H as [[x Hx] | H]; [discriminate|].
    revert E. unfold render_table.
    destruct (bool_decide _); [|now simpl].
    destruct (sortedPlans plans app !! selectedPlanIndex app); [discriminate|].
    now simpl.
Qed.

(** A step leaves the state as it is, exits, or ends with a render. *)
Lemma app_step_cases (app : AppState) (ev : AppEvent) :
  app_step plans app ev = app
  \/ exited (app_step plans app ev) = true
  \/ exists a, app_step plans app ev = render_table plans a.
Proof.
  destruct ev as [input key|ev|]; simpl.
  - unfold app_key_event. destruct (exited app); [now left|].
    destruct (exited (app_help_overlay _ _ _)) eqn:Hx';
      [right; now left | right; right; now eexists].
  - unfold app_table_event. destruct (exited app); [now left|].
    destruct ev; try (now left);
      (destruct (table app) as [st|]; [|now left];
       destruct (sortedPlans plans app !! selectedPlanIndex app) as [p|];
       [|now left];
       right; right; now eexists).
  - unfold app_loaded. destruct (exited app); [now left|].
    destruct (loaded app); [now left|].
    right; right; now eexists.
Qed.

Lemma app_step_synced (app : AppState) (ev : AppEvent) :
  app_synced plans app -> app_synced plans (app_step plans app ev).
Proof.
  intros Hs. destruct ev as [input key|ev|]; simpl.
  - unfold app_key_event. destruct (exited app) eqn:Hx; [exact Hs|].
    set (table' := match table app,
                         sortedPlans plans app !! selectedPlanIndex app with
                   | Some st, Some p =>
                       Some (fst (key_event p st input (table_key key)))
                   | t, _ => t
                   end).
    destruct (app_handler_effect (setTable table' app) input key)
      as (Ht & Hm & _ & Hl & Hcase & _ & Hexit).
    cbv zeta in Ht, Hm, Hl, Hcase, Hexit.
    set (app' := app_help_overlay _ _ _) in *.
    simpl in Ht, Hm, Hl, Hcase, Hexit.
    assert (Hplans : sortedPlans plans app' = sortedPlans plans app)
      by (unfold sortedPlans; now rewrite Hl).
    unfold app_synced in Hs.
    destruct (table app) as [st|] eqn:E.
    + destruct Hs as (Hv & [p Hp] & Hmod & _).
      assert (Et : table' = Some (fst (key_event p st input (table_key key))))
        by (subst table'; now rewrite Hp).
      destruct (exited app') eqn:Hx'.
      * destruct (Hexit eq_refl) as [H|(_ & Hnv)]; congruence.
      * apply render_table_synced.
        destruct Hcase as [(Hv' & Hi' & _) | (_ & H)];
          [left | right; now rewrite Hm].
        apply render_table_mounted. rewrite Hv', Hplans, Hi'.
        split; [exact Hv | eexists; exact Hp].
    + assert (Et : table' = None) by now subst table'.
      destruct (exited app') eqn:Hx'.
      * unfold app_synced. now rewrite Ht, Et, Hm.
      * apply render_table_synced. right. now rewrite Hm.
  - unfold app_table_event. destruct (exited app); [exact Hs|].
    destruct ev; try exact Hs;
      (destruct (table app) as [st|] eqn:E; [|exact Hs];
       destruct (sortedPlans plans app !! selectedPlanIndex app) as [p|] eqn:Hp;
       [|exact Hs];
       apply render_table_synced; left; apply render_table_mounted;
       unfold app_synced in Hs; rewrite E in Hs;
       split; [apply Hs | unfold sortedPlans in *; simpl;
                          eexists; eassumption]).
  - unfold app_loaded. destruct (exited app) eqn:Hx; [exact Hs|].
    destruct (loaded app) eqn:El; [exact Hs|].
    apply render_table_synced. right. simpl.
    unfold app_synced in Hs. destruct (table app) as [st|] eqn:E;
      [|exact Hs].
    (* a table is only mounted once the plans are loaded *)
    destruct Hs as (_ & [p Hp] & _). unfold sortedPlans in Hp.
    rewrite El in Hp. discriminate.
Qed.

Lemma app_step_cursor (app : AppState) (ev : AppEvent) :
  (selectedPlanIndex app = 0%nat
   \/ (selectedPlanIndex app < List.length plans)%nat) ->
  selectedPlanIndex (app_step plans app ev) = 0%nat
  \/ (selectedPlanIndex (app_step plans app ev) < List.length plans)%nat.
Proof.
  intros Hin. destruct ev as [input key|ev|]; simpl.
  - unfold app_key_event. destruct (exited app); [exact Hin|].
    set (table' := match table app,
                         sortedPlans plans app !! selectedPlanIndex app with
                   | Some st, Some p => _
                   | t, _ => t
                   end).
    destruct (app_handler_effect (setTable table' app) input key)
      as (_ & _ & _ & _ & _ & Hidx & _).
    cbv zeta in Hidx. set (app' := app_help_overlay _ _ _) in *.
    simpl in Hidx.
    assert (H' : selectedPlanIndex app' = 0%nat
                 \/ (selectedPlanIndex app' < List.length plans)%nat) by lia.
    destruct (exited app'); [exact H'|].
    now destruct (render_table_cells app') as (_ & -> & _).
  - unfold app_table_event. destruct (exited app); [exact Hin|].
    destruct ev; try exact Hin;
      (destruct (table app) as [st|]; [|exact Hin];
       destruct (sortedPlans plans app !! selectedPlanIndex app) as [p|];
       [|exact Hin];
       match goal with
       | |- context [render_table plans ?a] =>
           destruct (render_table_cells a) as (_ & -> & _)
       end; exact Hin).
  - unfold app_loaded. destruct (exited app); [exact Hin|].
    destruct (loaded app); [exact Hin|].
    match goal with
    | |- context [render_table plans ?a] =>
        destruct (render_table_cells a) as (_ & -> & _)
    end. exact Hin.
Qed.

(** When the application has not exited, the table is mounted in the
    customers view of an existing plan. *)
Lemma app_step_mounted (app : AppState) (ev : AppEvent) :
  (exited app = false -> app_view app = view_customers ->
   is_Some (sortedPlans plans app !! selectedPlanIndex app) ->
   is_Some (table app)) ->
  let app' := app_step plans app ev in
  exited app' = false -> app_view app' = view_customers ->
  is_Some (sortedPlans plans app' !! selectedPlanIndex app') ->
  is_Some (table app').
Proof.
  intros Hm app'. subst app'.
  destruct (app_step_cases app ev) as [-> | [Hx | (a & ->)]];
    [exact Hm | congruence|].
  intros _ Hv Hp. apply render_table_mounted.
  rewrite render_table_plans in Hp.
  now destruct (render_table_cells a) as (<- & <- & _).
Qed.
End AppFacts.

Lemma run_app_snoc (plans : list Props) (evs : list AppEvent) (ev : AppEvent) :
  run_app plans (evs ++ [ev]) = app_step plans (run_app plans evs) ev.
Proof. unfold run_app. now rewrite fold_left_app. Qed.

Lemma reachable_synced (plans : list Props) (evs : list AppEvent) :
  app_synced plans (run_app plans evs).
Proof.
  induction evs as [|ev evs IH] using rev_ind; [reflexivity|].
  rewrite run_app_snoc. now apply app_step_synced.
Qed.

(** X20.  From the first render on, after any sequence of key presses,
    table events and the end of loading: a mounted table means the
    customers view of a loaded, existing plan, and the application's
    [isAnyModalOpen] and [isAnyMenuOpen] are what the table shows; without
    a mounted table no modal is reported, and unless the application has
    exited the view is not the customers view or the selected plan does not
    exist.  The plan cursor is [0] or the index of a plan. *)
Theorem table_is_in_sync_with_the_app (plans : list Props)
    (evs : list AppEvent) :
  let app := run_app plans evs in
  match table app with
  | Some st =>
      app_view app = view_customers
      /\ loaded app = true
      /\ is_Some (plans !! selectedPlanIndex app)
      /\ isAnyModalOpen app = table_modal st
      /\ isAnyMenuOpen app = isMenuOpen st
  | None =>
      isAnyModalOpen app = false
      /\ (exited app = false ->
          app_view app <> view_customers
          \/ sortedPlans plans app !! selectedPlanIndex app = None)
  end
  /\ (selectedPlanIndex app = 0%nat
      \/ (selectedPlanIndex app < List.length plans)%nat).
Proof.
  cbv zeta.
  assert (H : (exited (run_app plans evs) = false ->
               app_view (run_app plans evs) = view_customers ->
               is_Some (sortedPlans plans (run_app plans evs)
                          !! selectedPlanIndex (run_app plans evs)) ->
               is_Some (table (run_app plans evs)))
              /\ (selectedPlanIndex (run_app plans evs) = 0%nat
                  \/ (selectedPlanIndex (run_app plans evs)
                      < List.length plans)%nat)).
  { induction evs as [|ev evs IH] using rev_ind.
    - split; [discriminate | now left].
    - rewrite run_app_snoc. destruct IH as (H2 & H3).
      split; [now apply app_step_mounted | now apply app_step_cursor]. }
  pose proof (reachable_synced plans evs) as Hs.
  destruct H as (Hm & Hc). split; [|exact Hc].
  unfold app_synced in Hs.
  destruct (table (run_app plans evs)) as [st|] eqn:E.
  - destruct Hs as (Hv & [p Hp] & Hmod & Hmenu). unfold sortedPlans in Hp.
    destruct (loaded (run_app plans evs)); [|discriminate].
    repeat split; try assumption. eexists; exact Hp.
  - split; [exact Hs|]. intros Hx.
    destruct (decide (app_view (run_app plans evs) = view_customers))
      as [Hv|Hv]; [|now left].
    right.
    destruct (sortedPlans plans (run_app plans evs)
                !! selectedPlanIndex (run_app plans evs)) eqn:Hp;
      [|reflexivity].
    destruct (Hm Hx Hv) as [x Hx0]; [now eexists | discriminate].
Qed.

(** X21.  While the table shows a menu, the search box or an overlay, a
    key press only reaches the table: the application stays in the
    customers view with the same plan and does not exit, whatever the key
    (escape, [1], [2], [3], [b], backspace). *)
Theorem modal_keys_stay_in_the_table (plans : list Props)
    (evs : list AppEvent) (st : State) (input : string) (key : AppKey) :
  let app := run_app plans evs in
  exited app = false ->
  table app = Some st ->
  table_modal st = true ->
  let app' := app_key_event plans app input key in
  app_view app' = view_customers
  /\ selectedPlanIndex app' = selectedPlanIndex app
  /\ exited app' = false
  /\ exists p, plans !! selectedPlanIndex app = Some p
               /\ table app'
                  = Some (fst (key_event p st input (table_key key))).
Proof.
  intros app Hx Ht Hmodal app'.
  pose proof (reachable_synced plans evs) as Hs. fold app in Hs.
  unfold app_synced in Hs. rewrite Ht in Hs.
  destruct Hs as (Hv & [p Hp] & Hm & _). rewrite Hmodal in Hm.
  subst app'. unfold app_key_event. rewrite Hx, Ht, Hp.
  destruct (app_handler_effect plans
              (setTable (Some (fst (key_event p st input (table_key key))))
                 app) input key)
    as (Ht' & _ & _ & Hl & Hcase & _).
  cbv zeta in Ht', Hl, Hcase. set (a := app_help_overlay _ _ _) in *.
  simpl in Ht', Hl, Hcase.
  assert (Hplans : sortedPlans plans a = sortedPlans plans app)
    by (unfold sortedPlans; now rewrite Hl).
  destruct Hcase as [(Hv' & Hi' & Hx') | (_ & H)]; [|congruence].
  rewrite Hx in Hx'. rewrite Hx'.
  destruct (render_table_cells plans a) as (-> & -> & _ & _ & ->).
  rewrite Hv', Hi', Hx'. repeat split; try assumption.
  exists p. split.
  - unfold sortedPlans in Hp. now destruct (loaded app).
  - unfold render_table.
    rewrite Hplans, Hv', Hi', (bool_decide_eq_true_2 _ Hv), Hp, Ht'.
    reflexivity.
Qed.

Lemma modal_keys_stay_in_the_table_witness :
  let app := run_app [sample_props None] menu_in_customers_view in
  app_view (app_key_event [sample_props None] app "" (plain_app_key key_escape))
  = view_customers
  /\ exited (app_key_event [sample_props None] app "1"
               (plain_app_key plain_key)) = false.
Proof.
  intros app.
  assert (Hx : exited app = false) by (vm_compute; reflexivity).
  assert (Hm : table_modal (default initial_state (table app)) = true)
    by (vm_compute; reflexivity).
  assert (Ht : table app = Some (default initial_state (table app)))
    by (vm_compute; reflexivity).
  split.
  - apply (modal_keys_stay_in_the_table [sample_props None]
             menu_in_customers_view _ "" (plain_app_key key_escape) Hx Ht Hm).
  - apply (modal_keys_stay_in_the_table [sample_props None]
             menu_in_customers_view _ "1" (plain_app_key plain_key) Hx Ht Hm).
Defined.

(** X22.  The application exits only on a key press with the escape flag,
    outside the customers view, with its help closed and no table
    mounted. *)
Theorem exit_needs_escape_outside_the_table (plans : list Props)
    (evs : list AppEvent) (ev : AppEvent) :
  let app := run_app plans evs in
  exited app = false ->
  exited (app_step plans app ev) = true ->
  exists input key,
    ev = AppKeyPress input key
    /\ escape (table_key key) = true
    /\ app_view app <> view_customers
    /\ app_isHelpOpen app = false
    /\ table app = None.
Proof.
  intros app Hx Hexit.
  pose proof (reachable_synced plans evs) as Hs. fold app in Hs.
  destruct ev as [input key|ev|]; simpl in Hexit.
  - exists input, key. split; [reflexivity|].
    unfold app_key_event in Hexit. rewrite Hx in Hexit.
    set (table' := match table app,
                         sortedPlans plans app !! selectedPlanIndex app with
                   | Some st, Some p => _
                   | t, _ => t
                   end) in *.
    destruct (app_handler_effect plans (setTable table' app) input key)
      as (_ & _ & _ & _ & Hcase & _ & He).
    cbv zeta in Hcase, He. set (a := app_help_overlay _ _ _) in *.
    simpl in Hcase, He.
    assert (Hxa : exited a = true).
    { destruct (exited a) eqn:E; [reflexivity|].
      destruct (render_table_cells plans a) as (_ & _ & _ & _ & E').
      rewrite E' in Hexit. congruence. }
    destruct (He Hxa) as [H|(Hk & Hv)]; [congruence|].
    destruct Hcase as [(_ & _ & H) | (Hh & _)]; [congruence|].
    repeat split; try assumption.
    unfold app_synced in Hs. destruct (table app); [|reflexivity].
    destruct Hs as (Hv' & _). congruence.
  - exfalso. unfold app_table_event in Hexit. rewrite Hx in Hexit.
    destruct ev; try congruence;
      (destruct (table app) as [st|]; [|congruence];
       destruct (sortedPlans plans app !! selectedPlanIndex app) as [p|];
       [|congruence];
       match type of Hexit with
       | context [render_table plans ?a] =>
           destruct (render_table_cells plans a) as (_ & _ & _ & _ & E)
       end; rewrite E in Hexit; simpl in Hexit; congruence).
  - exfalso. unfold app_loaded in Hexit. rewrite Hx in Hexit.
    destruct (loaded app); [congruence|].
    match type of Hexit with
    | context [render_table plans ?a] =>
        destruct (render_table_cells plans a) as (_ & _ & _ & _ & E)
    end. rewrite E in Hexit. simpl in Hexit. congruence.
Qed.

Lemma exit_needs_escape_outside_the_table_witness :
  exited (app_step [sample_props None] (run_app [sample_props None] [AppLoaded])
            (AppKeyPress "" (plain_app_key key_escape))) = true
  /\ table (run_app [sample_props None] [AppLoaded]) = None.
Proof.
  assert (H : exited (app_step [sample_props None]
                        (run_app [sample_props None] [AppLoaded])
                        (AppKeyPress "" (plain_app_key key_escape))) = true)
    by reflexivity.
  split; [exact H|].
  destruct (exit_needs_escape_outside_the_table [sample_props None]
              [AppLoaded]
              (AppKeyPress "" (plain_app_key key_escape)) eq_refl H)
    as (input & key & _ & _ & _ & _ & Ht).
  exact Ht.
Defined.

(** ** Fields by category *)

Section GroupingFacts.
Context {V : Type}.

Lemma grouped_snoc (entries : list (string * V)) (e : string * V)
    (c : Category) :
  grouped (entries ++ [e]) c
  = grouped entries c
    ++ (if bool_decide (category_of (fst e) = c) then [e] else []).
Proof.
  unfold grouped. rewrite fold_left_app. simpl. unfold push_entry at 1.
  destruct (bool_decide_reflect (c = category_of (fst e))) as [->|Hne].
  - now rewrite bool_decide_eq_true_2.
  - rewrite bool_decide_eq_false_2 by congruence. now rewrite app_nil_r.
Qed.

Lemma grouped_spec (entries : list (string * V)) (c : Category) :
  grouped entries c = of_category c entries.
Proof.
  induction entries as [|e entries IH] using rev_ind; [reflexivity|].
  rewrite grouped_snoc, IH. unfold of_category.
  rewrite List.filter_app. simpl.
  now destruct (bool_decide (category_of (fst e) = c)).
Qed.

Lemma of_categories_cons (cs : list Category) (e : string * V)
    (entries : list (string * V)) :
  NoDup cs ->
  List.concat (map (fun c => of_category c (e :: entries)) cs)
  ≡ₚ (if bool_decide (category_of (fst e) ∈ cs) then [e] else [])
     ++ List.concat (map (fun c => of_category c entries) cs).
Proof.
  induction cs as [|c cs IH]; intros Hnd; [reflexivity|].
  apply NoDup_cons in Hnd. destruct Hnd as (Hc & Hnd).
  cbn [map List.concat]. rewrite (IH Hnd).
  unfold of_category at 1. cbn [List.filter].
  destruct (bool_decide_reflect (category_of (fst e) = c)) as [E|E].
  - rewrite (bool_decide_eq_true_2 (category_of (fst e) ∈ c :: cs))
      by (rewrite E; apply list_elem_of_here).
    rewrite (bool_decide_eq_false_2 (category_of (fst e) ∈ cs))
      by (now rewrite E).
    reflexivity.
  - destruct (bool_decide_reflect (category_of (fst e) ∈ cs)) as [Hin|Hin].
    + rewrite (bool_decide_eq_true_2 (category_of (fst e) ∈ c :: cs))
        by (now apply list_elem_of_further).
      simpl. fold (of_category c entries).
      now rewrite <- Permutation_middle.
    + rewrite (bool_decide_eq_false_2 (category_of (fst e) ∈ c :: cs)).
      * reflexivity.
      * rewrite elem_of_cons. intros [H|H]; [congruence | contradiction].
Qed.

Lemma all_categories_complete (c : Category) : c ∈ all_categories.
Proof. destruct c; unfold all_categories; set_solver. Qed.

Lemma all_categories_NoDup : NoDup all_categories.
Proof. unfold all_categories. repeat constructor; set_solver. Qed.

(** X23.  [DetailedJsonRenderer] shows every field exactly once: a group
    holds the fields whose key falls into its category by the first test
    that matches, in the order of the object; the groups come in the fixed
    order of the categories, and empty groups are not shown. *)
Theorem fields_are_shown_once_by_category (entries : list (string * V)) :
  let shown := shown_groups entries in
  (forall c es, (c, es) ∈ shown
                <-> es = of_category c entries /\ es <> [])
  /\ sublist (map fst shown) all_categories
  /\ List.concat (map snd shown) ≡ₚ entries.
Proof.
  intros shown. subst shown. unfold shown_groups.
  split; [|split].
  - intros c es. rewrite list_elem_of_In, filter_In, in_map_iff. split.
    + intros ((c' & [= <- <-] & _) & Hne). rewrite grouped_spec.
      split; [reflexivity|]. simpl in Hne. rewrite grouped_spec in Hne.
      intros E. rewrite E in Hne. discriminate.
    + intros (-> & Hne). split.
      * exists c. rewrite grouped_spec. split; [reflexivity|].
        apply list_elem_of_In, all_categories_complete.
      * simpl. now destruct (of_category c entries).
  - generalize all_categories. intros cs.
    induction cs as [|c cs IH]; [constructor|]. simpl.
    destruct (negb _); simpl; [now apply sublist_skip | now apply sublist_cons].
  - transitivity (List.concat (map (fun c => of_category c entries)
                                 all_categories)).
    + generalize all_categories. intros cs.
      induction cs as [|c cs IH]; [reflexivity|]. simpl.
      rewrite grouped_spec.
      destruct (of_category c entries) eqn:E; simpl; [exact IH|].
      now rewrite IH.
    + induction entries as [|e entries IH]; simpl.
      * unfold all_categories. reflexivity.
      * rewrite (of_categories_cons all_categories e entries
                   all_categories_NoDup).
        rewrite (bool_decide_eq_true_2 _
                   (all_categories_complete (category_of (fst e)))).
        simpl. now constructor.
Qed.
End GroupingFacts.

(** ** The rows of the customer table *)

Section CustomerRowsFacts.
Variable utf16 : string -> JsStr.
Variable toFixed2 : Num -> JsStr.
Variable formatted_primary : Customer -> JsStr.

Lemma slice_to_length (s : JsStr) (n : Z) :
  (0 <= n)%Z -> (Z.of_nat (List.length (slice_to s n)) <= n)%Z.
Proof.
  intros Hn. rewrite length_slice_to.
  destruct (n <? 0)%Z eqn:E; [apply Z.ltb_lt in E; lia|]. lia.
Qed.

Lemma slice_to_take (s : JsStr) (n : Z) :
  (0 <= n)%Z -> slice_to s n = take (Z.to_nat n) s.
Proof.
  intros Hn. unfold slice_to.
  replace (n <? 0)%Z with false by (symmetry; apply Z.ltb_ge; lia).
  destruct (Z.le_gt_cases n (Z.of_nat (List.length s))) as [H|H].
  - now rewrite Z.min_l by exact H.
  - rewrite Z.min_r by lia. rewrite Nat2Z.id.
    rewrite !take_ge; [reflexivity | lia | lia].
Qed.

Lemma cell_str_text (s : JsStr) : cell_str (text_cell s) = s.
Proof. unfold cell_str, text_cell. simpl. now destruct s. Qed.

(** A cell whose text fits is the text and spaces. *)
Lemma formatCell_fits (s : JsStr) (width : Z) :
  (Z.of_nat (List.length s) <= width)%Z ->
  formatCell (text_cell s) width None
  = s ++ replicate (Z.to_nat (width - Z.of_nat (List.length s))) space.
Proof.
  intros H. unfold formatCell. rewrite cell_str_text.
  replace (width <? Z.of_nat (List.length s))%Z with false
    by (symmetry; apply Z.ltb_ge; lia).
  reflexivity.
Qed.

(** X24.  In the customer table the cells of the columns without an
    alignment (ID, Name, Email, Stripe and Env) are never cut by [formatCell]:
    whatever the customer record holds, each of them is the text that
    [tableData] put into the row followed by spaces up to the column width.
    The ID cell is the first 8 code units of the customer's identifier
    followed by three dots, also when the identifier is shorter than 8. *)
Theorem record_cells_are_not_cut (p : Props) (st : State) (row : TableRow)
    (col : TableColumn) :
  row ∈ tableData utf16 toFixed2 formatted_primary p st ->
  col ∈ record_columns utf16 p ->
  let text := cell_str (row_get row (col_key col)) in
  formatCell (row_get row (col_key col)) (width_of col) (col_align col)
  = text ++ replicate (Z.to_nat (width_of col - Z.of_nat (List.length text)))
              space
  /\ (col_key col = units_of "ID" ->
      exists e, e ∈ currentCustomers p st
                /\ text = take 8 (utf16 (id (customer e))) ++ units_of "...").
Proof.
  intros Hrow Hcol text.
  apply list_elem_of_lookup in Hrow. destruct Hrow as (i & Hi).
  unfold tableData in Hi. rewrite list_lookup_imap in Hi.
  destruct (currentCustomers p st !! i) as [e|] eqn:He; [|discriminate].
  simpl in Hi. injection Hi as <-.
  pose proof (slice_to_length (utf16 (id (customer e))) 8 ltac:(lia)) as H8.
  pose proof (slice_to_length (or_text utf16 (name (customer e)) "N/A") 15
                ltac:(lia)) as H15.
  pose proof (slice_to_length (or_text utf16 (email (customer e)) "N/A") 22
                ltac:(lia)) as H22.
  pose proof (slice_to_length (or_text utf16 (env (customer e)) "unknown") 5
                ltac:(lia)) as H5.
  unfold record_columns, customer_columns in Hcol. simpl in Hcol.
  repeat (apply elem_of_cons in Hcol; destruct Hcol as [->|Hcol]);
    [..|inversion Hcol]; subst text;
    cbn [col_key col_align text_column width_of col_width];
    unfold row_get; simpl List.find; cbn [snd];
    (split; [rewrite cell_str_text; apply formatCell_fits;
             rewrite ?length_app, ?Nat2Z.inj_add;
             change (Z.of_nat (List.length (units_of "..."))) with 3%Z;
             try (destruct (str_truthy _); simpl); lia|]);
    try (intros [=]).
  exists e. split; [now apply list_elem_of_lookup_2 with i|].
  rewrite cell_str_text. now rewrite slice_to_take by lia.
Qed.
End CustomerRowsFacts.

(** The ID cell of the first sample customer. *)
Lemma record_cells_are_not_cut_witness :
  formatCell (row_get sample_row (units_of "ID")) 11 None
  = units_of "c1...      ".
Proof.
  destruct (record_cells_are_not_cut units_of (fun _ => units_of "0.00")
              (fun _ => units_of "5 tokens") (sample_props None)
              initial_state sample_row
              (text_column "ID" (units_of "ID") 11)) as [H _].
  - vm_compute. apply list_elem_of_here.
  - vm_compute. apply list_elem_of_here.
  - etransitivity; [exact H|]. vm_compute. reflexivity.
Defined.
